(** * Warehouse pick-and-place controller: a shallow embedding

    The development follows [src/latest_controller.py] (the integrated
    controller with slot management) and, for the waypoint fallback,
    [src/multiple_quantity_picking.py].

    Conventions of the embedding.
    - Python values that travel through JSON responses and waypoint tuples
      are values of [pyval].  A Python float is an IEEE 754 binary64 number,
      here a value of Rocq's primitive type [float]: sensor readings, clock
      readings, the floats of a plan or a response, and the arithmetic the
      controller does on them ([-], [** 2], [math.sqrt], comparisons) are
      those of the hardware, with NaN and the infinities.  The positions
      and speeds handed to the devices are the literals of the source,
      kept as the decimals written there ([Q]); the controller does no
      arithmetic on them but the sign change of a speed.
    - Module-level globals of the controller are the fields of [state].
    - A controller function is a computation in the monad [M]: it threads
      the globals, may raise (an uncaught Python exception), and emits the
      device commands, HTTP requests and console reports it performs, in
      program order.
    - The backend is an oracle [backend n r]: the outcome of the [n]-th HTTP
      request of the run when that request is [r].  [HttpError] stands for
      [requests.*] or [response.json()] raising.
    - [wait(seconds)] is recorded as one [Wait] event; stepping the simulator
      inside it belongs to the device layer.  Device calls ([setVelocity],
      [setPosition]) are recorded as events and do not raise.
    - Slot identifiers are integers, availability and battery level are
      what the backend schema says they are (a boolean, an integer).
    - Console output is recorded for the reports the controller makes about
      outcomes (warnings, errors, completions), not for progress chatter. *)

From Stdlib Require Import ZArith QArith List String Bool Lia Sorted Floats.
From stdpp Require Import gmap strings list.

Open Scope string_scope.
Open Scope list_scope.
Set Warnings "-register-all".
Set Warnings "-inexact-float".

(** ** Python floats *)

(** [float(z)] for an integer [z]: the nearest double, ties to even;
    [None] where Python raises [OverflowError] ("int too large to convert
    to float"). *)
Definition int_to_float (z : Z) : option float :=
  let f := SF2Prim (binary_normalize prec emax z 0 false) in
  if PrimFloat.is_infinity f then None else Some f.

(** [x ** 2] for a float [x]: the square, rounded as the multiplication
    rounds it; [None] where Python raises [OverflowError], which it does
    when a finite [x] has a square beyond the doubles.  NaN and the
    infinities pass through. *)
Definition square (x : float) : option float :=
  let r := (x * x)%float in
  if PrimFloat.is_infinity r && negb (PrimFloat.is_infinity x) then None
  else Some r.

(** [z <= x] for an integer [z] and a float [x], as Python compares them:
    on the exact values, with no conversion of [z]. *)
Definition int_le_float (z : Z) (x : float) : bool :=
  match Prim2SF x with
  | S754_nan => false
  | S754_infinity negative => negb negative
  | S754_zero _ => (z <=? 0)%Z
  | S754_finite negative m e =>
      let v := if negative then Z.neg m else Z.pos m in
      if (0 <=? e)%Z then (z <=? v * 2 ^ e)%Z else (z * 2 ^ (- e) <=? v)%Z
  end.

(** ** Python values *)

Inductive pyval : Type :=
| PNone
| PBool (b : bool)
| PInt (z : Z)
| PFloat (f : float)
| PStr (s : string)
| PList (l : list pyval)
| PTuple (l : list pyval)
| PDict (kv : list (string * pyval)).

(** [bool(v)]: the truth value Python gives to [v] in an [if]. *)
Definition truthy (v : pyval) : bool :=
  match v with
  | PNone => false
  | PBool b => b
  | PInt z => negb (z =? 0)%Z
  | PFloat f => negb (f =? 0)%float
  | PStr s => negb (String.eqb s EmptyString)
  | PList l | PTuple l => match l with [] => false | _ => true end
  | PDict kv => match kv with [] => false | _ => true end
  end.

(** [v == s] for a string literal [s]. *)
Definition py_eq_str (v : pyval) (s : string) : bool :=
  match v with
  | PStr s' => String.eqb s' s
  | _ => false
  end.

(** [v != 0]: only numbers (and booleans, which are integers) equal [0]. *)
Definition py_ne_zero (v : pyval) : bool :=
  match v with
  | PBool b => b
  | PInt z => negb (z =? 0)%Z
  | PFloat f => negb (f =? 0)%float
  | _ => true
  end.

(** The float that arithmetic with a float and the [:.2f] format make of
    [v]; [None] where they raise: [TypeError] or [ValueError] on a value
    that is not a number, [OverflowError] on an integer beyond the
    doubles. *)
Definition as_num (v : pyval) : option float :=
  match v with
  | PBool b => Some (if b then 1 else 0)%float
  | PInt z => int_to_float z
  | PFloat f => Some f
  | _ => None
  end.

(** [x >= v] for a float [x]: [None] where Python raises [TypeError]. *)
Definition float_ge (x : float) (v : pyval) : option bool :=
  match v with
  | PBool b => Some (int_le_float (if b then 1 else 0) x)
  | PInt z => Some (int_le_float z x)
  | PFloat f => Some (f <=? x)%float
  | _ => None
  end.

(** [isinstance(v, int)] together with the integer (bool is a subclass of
    int). *)
Definition as_int (v : pyval) : option Z :=
  match v with
  | PBool b => Some (if b then 1 else 0)%Z
  | PInt z => Some z
  | _ => None
  end.

(** Lookup in a parsed JSON object held as an association list. *)
Fixpoint assoc (key : string) (kv : list (string * pyval)) : option pyval :=
  match kv with
  | [] => None
  | (k, v) :: rest => if String.eqb k key then Some v else assoc key rest
  end.

(** [v[key]]: raises (here [None]) unless [v] is a dict holding [key]. *)
Definition py_getitem (v : pyval) (key : string) : option pyval :=
  match v with
  | PDict kv => assoc key kv
  | _ => None
  end.

(** [v.get(key)]: raises (outer [None]) unless [v] is a dict; a missing key
    gives Python's [None]. *)
Definition py_get (v : pyval) (key : string) : option pyval :=
  match v with
  | PDict kv => Some (match assoc key kv with Some x => x | None => PNone end)
  | _ => None
  end.

(** [len(v)]: raises (here [None]) on values without a length. *)
Definition py_len (v : pyval) : option nat :=
  match v with
  | PStr s => Some (String.length s)
  | PList l | PTuple l => Some (length l)
  | PDict kv => Some (length kv)
  | _ => None
  end.

(** [v[0]]. *)
Definition py_first (v : pyval) : option pyval :=
  match v with
  | PList (x :: _) | PTuple (x :: _) => Some x
  | PStr (String c _) => Some (PStr (String c EmptyString))
  | _ => None
  end.

(** ** Slots, requests, events *)

Record slot : Type := mkSlot { slot_id : Z; slot_available : bool }.

Inductive direction : Type := left | right.

Inductive log_text : Type :=
| StartingJob (quantity : pyval)
| Text (s : string).

Inductive request : Type :=
| GetAssignedJob
| PatchSlotAvailability (shelfName : string) (slotId : Z) (status : bool)
| PostRobotLog (jobId : pyval) (batteryPercentage : Z) (status : string)
    (x y : float) (message : log_text)
| PatchJobTime (isStartTime : bool) (jobId : pyval)
| PatchJobStatus (status : string) (jobId : pyval)
| PatchRobotAvailability (status : string)
| PatchBatteryLevel (batteryCount : Z).

Inductive http_result : Type :=
| HttpError
| HttpJson (body : pyval).

Inductive message : Type :=
| SlotMarked (id : Z)
| SlotUpdateError
| SlotNotImplemented (id : Z)
| InvalidSlot (id : Z)
| PickComplete (id : Z)
| InvalidQuantity
| ClampWarning (available : nat) (requested : Z)
| NoMoreSlots (i : nat)
| PickingCan (i : nat) (id : Z)
| CompletedPickCan (quantity : Z)
| BackendMessage
| JobAccepted
| NoJobs
| PollError
| RequestError
| CheckingJobs
| FinalPosition
| ReadyForNextJob
| RotationCompleted (d : direction) (elapsed : float)
| Rotating (d : option direction)
| RotationSet
| RotationFailed
| RotationWaypointDone (ok : bool)
| ReachedWaypoint (index : nat)
| UnknownMovement (index : nat)
| StartingTurn (command : string)
| InvalidWaypoint (index : nat) (w : pyval)
| InvalidTarget (target_object : string)
| Arm4InitialUndefined
| PickAndPlaceComplete
| MissingQuantity
| AllWaypointsReached
| Pos.

Inductive event : Type :=
| SetVelocity (wheel : nat) (v : Q)
| SetArm (joint : nat) (p : Q)
| SetFinger (finger : nat) (p : Q)
| Wait (seconds : Q)
| SetSFRotation (x y z angle : pyval)
| Request (r : request)
| Printed (m : message).

(** ** Globals of the controller *)

Record state : Type := mkState {
  shelves : gmap string (list slot);
  BATTERY : Z;
  CAN_QUANTITY : pyval;
  CURRENT_JOB_ID : pyval;
  JOB_IN_PROGRESS : bool;
  waypoints : list pyval;
  current_waypoint_index : nat;
  rotation_start_time : option float;
  is_rotating : bool;
  rotation_direction : option direction;
  current_rotation_duration : pyval;
  last_call : float;
  nreq : nat
}.

Definition set_shelves (v : gmap string (list slot)) (s : state) : state :=
  mkState v (BATTERY s) (CAN_QUANTITY s) (CURRENT_JOB_ID s) (JOB_IN_PROGRESS s)
    (waypoints s) (current_waypoint_index s) (rotation_start_time s)
    (is_rotating s) (rotation_direction s) (current_rotation_duration s)
    (last_call s) (nreq s).

Definition set_BATTERY (v : Z) (s : state) : state :=
  mkState (shelves s) v (CAN_QUANTITY s) (CURRENT_JOB_ID s) (JOB_IN_PROGRESS s)
    (waypoints s) (current_waypoint_index s) (rotation_start_time s)
    (is_rotating s) (rotation_direction s) (current_rotation_duration s)
    (last_call s) (nreq s).

Definition set_CAN_QUANTITY (v : pyval) (s : state) : state :=
  mkState (shelves s) (BATTERY s) v (CURRENT_JOB_ID s) (JOB_IN_PROGRESS s)
    (waypoints s) (current_waypoint_index s) (rotation_start_time s)
    (is_rotating s) (rotation_direction s) (current_rotation_duration s)
    (last_call s) (nreq s).

Definition set_CURRENT_JOB_ID (v : pyval) (s : state) : state :=
  mkState (shelves s) (BATTERY s) (CAN_QUANTITY s) v (JOB_IN_PROGRESS s)
    (waypoints s) (current_waypoint_index s) (rotation_start_time s)
    (is_rotating s) (rotation_direction s) (current_rotation_duration s)
    (last_call s) (nreq s).

Definition set_JOB_IN_PROGRESS (v : bool) (s : state) : state :=
  mkState (shelves s) (BATTERY s) (CAN_QUANTITY s) (CURRENT_JOB_ID s) v
    (waypoints s) (current_waypoint_index s) (rotation_start_time s)
    (is_rotating s) (rotation_direction s) (current_rotation_duration s)
    (last_call s) (nreq s).

Definition set_waypoints (v : list pyval) (s : state) : state :=
  mkState (shelves s) (BATTERY s) (CAN_QUANTITY s) (CURRENT_JOB_ID s)
    (JOB_IN_PROGRESS s) v (current_waypoint_index s) (rotation_start_time s)
    (is_rotating s) (rotation_direction s) (current_rotation_duration s)
    (last_call s) (nreq s).

Definition set_current_waypoint_index (v : nat) (s : state) : state :=
  mkState (shelves s) (BATTERY s) (CAN_QUANTITY s) (CURRENT_JOB_ID s)
    (JOB_IN_PROGRESS s) (waypoints s) v (rotation_start_time s)
    (is_rotating s) (rotation_direction s) (current_rotation_duration s)
    (last_call s) (nreq s).

Definition set_rotation_start_time (v : option float) (s : state) : state :=
  mkState (shelves s) (BATTERY s) (CAN_QUANTITY s) (CURRENT_JOB_ID s)
    (JOB_IN_PROGRESS s) (waypoints s) (current_waypoint_index s) v
    (is_rotating s) (rotation_direction s) (current_rotation_duration s)
    (last_call s) (nreq s).

Definition set_is_rotating (v : bool) (s : state) : state :=
  mkState (shelves s) (BATTERY s) (CAN_QUANTITY s) (CURRENT_JOB_ID s)
    (JOB_IN_PROGRESS s) (waypoints s) (current_waypoint_index s)
    (rotation_start_time s) v (rotation_direction s)
    (current_rotation_duration s) (last_call s) (nreq s).

Definition set_rotation_direction (v : option direction) (s : state) : state :=
  mkState (shelves s) (BATTERY s) (CAN_QUANTITY s) (CURRENT_JOB_ID s)
    (JOB_IN_PROGRESS s) (waypoints s) (current_waypoint_index s)
    (rotation_start_time s) (is_rotating s) v (current_rotation_duration s)
    (last_call s) (nreq s).

Definition set_current_rotation_duration (v : pyval) (s : state) : state :=
  mkState (shelves s) (BATTERY s) (CAN_QUANTITY s) (CURRENT_JOB_ID s)
    (JOB_IN_PROGRESS s) (waypoints s) (current_waypoint_index s)
    (rotation_start_time s) (is_rotating s) (rotation_direction s) v
    (last_call s) (nreq s).

Definition set_last_call (v : float) (s : state) : state :=
  mkState (shelves s) (BATTERY s) (CAN_QUANTITY s) (CURRENT_JOB_ID s)
    (JOB_IN_PROGRESS s) (waypoints s) (current_waypoint_index s)
    (rotation_start_time s) (is_rotating s) (rotation_direction s)
    (current_rotation_duration s) v (nreq s).

Definition set_nreq (v : nat) (s : state) : state :=
  mkState (shelves s) (BATTERY s) (CAN_QUANTITY s) (CURRENT_JOB_ID s)
    (JOB_IN_PROGRESS s) (waypoints s) (current_waypoint_index s)
    (rotation_start_time s) (is_rotating s) (rotation_direction s)
    (current_rotation_duration s) (last_call s) v.

(** ** The controller monad: globals, exceptions, emitted events *)

Inductive result (A : Type) : Type :=
| Ok (a : A)
| Raise.
Arguments Ok {A} a.
Arguments Raise {A}.

Record outcome (A : Type) : Type := mkOut {
  res : result A;
  final : state;
  emitted : list event
}.
Arguments mkOut {A} res final emitted.
Arguments res {A} o.
Arguments final {A} o.
Arguments emitted {A} o.

Definition M (A : Type) : Type := state -> outcome A.

Definition ret {A} (a : A) : M A := fun s => mkOut (Ok a) s [].

Definition raise {A} : M A := fun s => mkOut Raise s [].

Definition bind {A B} (m : M A) (k : A -> M B) : M B :=
  fun s =>
    match m s with
    | mkOut (Ok a) s1 es1 =>
        match k a s1 with
        | mkOut r s2 es2 => mkOut r s2 (es1 ++ es2)
        end
    | mkOut Raise s1 es1 => mkOut Raise s1 es1
    end.

(** [try: body  except Exception: handler]. *)
Definition try_except {A} (body handler : M A) : M A :=
  fun s =>
    match body s with
    | mkOut (Ok a) s1 es1 => mkOut (Ok a) s1 es1
    | mkOut Raise s1 es1 =>
        match handler s1 with
        | mkOut r s2 es2 => mkOut r s2 (es1 ++ es2)
        end
    end.

Definition get : M state := fun s => mkOut (Ok s) s [].
Definition modify (f : state -> state) : M unit := fun s => mkOut (Ok tt) (f s) [].
Definition emit (e : event) : M unit := fun s => mkOut (Ok tt) s [e].
Definition emits (es : list event) : M unit := fun s => mkOut (Ok tt) s es.
Definition print (m : message) : M unit := emit (Printed m).

(** A subscript or attribute access that raises when it has no value. *)
Definition orraise {A} (o : option A) : M A :=
  match o with
  | Some a => ret a
  | None => raise
  end.

Declare Scope ctl_scope.
Delimit Scope ctl_scope with ctl.
Notation "x <- m ;; k" := (bind m (fun x => k))
  (at level 100, m at next level, right associativity) : ctl_scope.
Notation "m ;; k" := (bind m (fun _ => k))
  (at level 100, right associativity) : ctl_scope.
Open Scope ctl_scope.

(** Python's [for x in xs: body]. *)
Fixpoint for_each {A} (xs : list A) (body : A -> M unit) : M unit :=
  match xs with
  | [] => ret tt
  | x :: rest => body x ;; for_each rest body
  end.

(** ** The controller *)

Section Controller.

(** The outcome of the [n]-th HTTP request of the run. *)
Variable backend : nat -> request -> http_result.

(** [requests.<verb>(url, json=payload).json()]. *)
Definition http (r : request) : M pyval :=
  fun s =>
    let s' := set_nreq (S (nreq s)) s in
    match backend (nreq s) r with
    | HttpJson body => mkOut (Ok body) s' [Request r]
    | HttpError => mkOut Raise s' [Request r]
    end.

Definition TIME_STEP : Z := 32.
Definition ROTATING_SPEED : Q := 8.0.
Definition SPEED : Q := 5.0.

(** *** Motion primitives *)

Definition wait (seconds : Q) : M unit := emit (Wait seconds).

Definition rotate_left_events (speed : Q) : list event :=
  [SetVelocity 0 (- speed); SetVelocity 1 speed;
   SetVelocity 2 speed; SetVelocity 3 (- speed)].

Definition rotate_right_events (speed : Q) : list event :=
  [SetVelocity 0 speed; SetVelocity 1 (- speed);
   SetVelocity 2 (- speed); SetVelocity 3 speed].

Definition rotate_left (speed : Q) : M unit := emits (rotate_left_events speed).

Definition rotate_right (speed : Q) : M unit := emits (rotate_right_events speed).

Definition drive_forward (speed : Q) : M unit :=
  emits (map (fun w => SetVelocity w speed) [0; 1; 2; 3]%nat).

Definition drive_backward (speed : Q) : M unit :=
  emits (map (fun w => SetVelocity w (- speed)) [0; 1; 2; 3]%nat).

Definition stop_events : list event :=
  map (fun w => SetVelocity w 0) [0; 1; 2; 3]%nat.

Definition stop : M unit := emits stop_events.

(** [set_robot_rotation]; [field_ok] tells whether the robot node and its
    rotation field are accessible. *)
Definition set_robot_rotation (field_ok : bool) (x y z angle : pyval) : M bool :=
  if field_ok
  then emit (SetSFRotation x y z angle) ;; print RotationSet ;; ret true
  else print RotationFailed ;; ret false.

(** *** Slot inventory *)

(** The loop of [get_available_slots] over one shelf's slot list. *)
Fixpoint available_ids (slots : list slot) : list Z :=
  match slots with
  | [] => []
  | s :: rest =>
      if slot_available s then slot_id s :: available_ids rest
      else available_ids rest
  end.

Definition get_available_slots : M (list Z) :=
  s <- get ;;
  slots <- orraise (shelves s !! "can_shelf") ;;
  ret (available_ids slots).

(** The loop of [mark_slot_unavailable]: the first slot with the given id
    is set unavailable and the loop returns; [None] when no slot matches. *)
Fixpoint mark_first (id : Z) (slots : list slot) : option (list slot) :=
  match slots with
  | [] => None
  | s :: rest =>
      if (slot_id s =? id)%Z then Some (mkSlot (slot_id s) false :: rest)
      else match mark_first id rest with
           | Some rest' => Some (s :: rest')
           | None => None
           end
  end.

Definition mark_slot_unavailable (id : Z) : M bool :=
  slot_json <- http (PatchSlotAvailability "can_shelf" id false) ;;
  try_except
    (success <- orraise (py_get slot_json "success") ;;
     if truthy success then
       s <- get ;;
       slots <- orraise (shelves s !! "can_shelf") ;;
       match mark_first id slots with
       | Some slots' =>
           modify (set_shelves (<["can_shelf" := slots']> (shelves s))) ;;
           print (SlotMarked id) ;;
           ret true
       | None => ret false
       end
     else ret false)
    (print SlotUpdateError ;; ret false).

(** *** Backend reports *)

(** The common shape of the reporting calls: request, test the success
    flag, print; any exception is caught and reported. *)
Definition report (r : request) (on_success : pyval -> M unit) : M unit :=
  try_except
    (response_json <- http r ;;
     success <- orraise (py_getitem response_json "success") ;;
     if truthy success then on_success response_json else ret tt)
    (print RequestError).

Definition print_backend_message (response_json : pyval) : M unit :=
  _ <- orraise (py_getitem response_json "message") ;;
  print BackendMessage.

Definition addRobotLog (jobId : pyval) (batteryPercentage : Z)
    (status : string) (x y : float) (message : log_text) : M unit :=
  report (PostRobotLog jobId batteryPercentage status x y message)
         print_backend_message.

Definition updateJobTime (isStartTime : bool) (jobId : pyval) : M unit :=
  report (PatchJobTime isStartTime jobId) (fun _ => print BackendMessage).

Definition update_job_status (status : string) (jobId : pyval) : M unit :=
  report (PatchJobStatus status jobId)
         (fun response_json =>
            print_backend_message response_json ;;
            modify (set_CURRENT_JOB_ID (PInt 0))).

Definition update_robot_availability (status : string) : M unit :=
  report (PatchRobotAvailability status) print_backend_message.

Definition update_robot_battery (battery_count : Z) : M unit :=
  report (PatchBatteryLevel battery_count) print_backend_message.

(** *** Pick sequencer *)

(** The reset that opens [pick_can_from_slot]: every arm joint and both
    fingers to [0.0]. *)
Definition reset_events : list event :=
  map (fun j => SetArm j 0.0) [0; 1; 2; 3; 4]%nat ++
  map (fun f => SetFinger f 0.0) [0; 1]%nat.

Definition reset_arm_and_fingers : M unit := emits reset_events.

Definition set_fingers (p : Q) : M unit :=
  emits (map (fun f => SetFinger f p) [0; 1]%nat).

(** The part of [pick_can_from_slot] after the slot-specific lowering: grip,
    lift, turn to the drop side, release, and return to neutral.  The
    arguments are the locals the slot branch has set. *)
Definition grip_drop_and_return (arm1_rotate arm2_drop : Q)
    (arm3_drop : option Q) (gripper_release release_wait : Q) : M unit :=
  set_fingers 0.0 ;; wait 2.5 ;;
  emit (SetArm 1 0.75) ;; wait 2.0 ;;
  emit (SetArm 0 arm1_rotate) ;; wait 2.0 ;;
  emit (SetArm 1 arm2_drop) ;; wait 2.0 ;;
  match arm3_drop with
  | Some p => emit (SetArm 2 p) ;; wait 2.0
  | None => ret tt
  end ;;
  set_fingers gripper_release ;; wait release_wait ;;
  emit (SetArm 1 0.90) ;; wait 2.0 ;;
  emit (SetArm 0 0.0) ;; wait 2.0 ;;
  emit (SetArm 2 0.0) ;; wait 2.0 ;;
  emit (SetArm 3 0.0) ;; wait 2.0 ;;
  emit (SetArm 1 0.0) ;; wait 2.0 ;;
  set_fingers 0.02 ;; wait 2.0.

Definition pick_can_from_slot (id : Z) : M unit :=
  stop ;;
  reset_arm_and_fingers ;;
  wait 2.0 ;;
  if (id =? 2)%Z then
    let gripper_open := 0.025%Q in
    let arm2_lower := (-0.80)%Q in
    let arm3_during_lower := 0%Q in
    let arm4_during_lower := (-0.82)%Q in
    let arm4_final := (-1.72)%Q in
    let arm1_rotate := (-2.94)%Q in
    let arm2_drop := (-0.52)%Q in
    let arm3_drop := Some (-0.84)%Q in
    let gripper_release := 0.02%Q in
    let release_wait := 2.0%Q in
    set_fingers gripper_open ;; wait 2.0 ;;
    emit (SetArm 1 arm2_lower) ;; wait 1.5 ;;
    emit (SetArm 2 arm3_during_lower) ;; wait 2.5 ;;
    emit (SetArm 3 arm4_during_lower) ;;
    emit (SetArm 3 arm4_final) ;; wait 2.5 ;;
    grip_drop_and_return arm1_rotate arm2_drop arm3_drop
      gripper_release release_wait ;;
    print (PickComplete id)
  else if (id =? 4)%Z then
    let gripper_open := 0.025%Q in
    let arm4_initial := 1.45%Q in
    let arm2_lower := (-0.92)%Q in
    let arm4_during_lower := (-0.30)%Q in
    let arm4_final := (-1.32)%Q in
    let arm1_rotate := (-2.94)%Q in
    let arm2_drop := (-0.32)%Q in
    let arm3_drop := None in
    let gripper_release := 0.02%Q in
    let release_wait := 2.0%Q in
    set_fingers gripper_open ;; wait 2.0 ;;
    emit (SetArm 3 arm4_initial) ;; wait 2.5 ;;
    emit (SetArm 2 (-1.15)%Q) ;; wait 2.5 ;;
    emit (SetArm 1 arm2_lower) ;; wait 1.5 ;;
    emit (SetArm 3 arm4_during_lower) ;;
    emit (SetArm 3 arm4_final) ;; wait 2.5 ;;
    grip_drop_and_return arm1_rotate arm2_drop arm3_drop
      gripper_release release_wait ;;
    print (PickComplete id)
  else if (id =? 1)%Z then
    print (SlotNotImplemented id)
  else if (id =? 3)%Z then
    print (SlotNotImplemented id)
  else
    print (InvalidSlot id).

(** The loop [for i in range(quantity)] of [pick_can_quantity], over the
    list of indices still to run; the [else] arm is the loop's [break]. *)
Fixpoint pick_loop (available_slots : list Z) (indices : list nat) : M unit :=
  match indices with
  | [] => ret tt
  | i :: rest =>
      match available_slots !! i with
      | Some id =>
          print (PickingCan (S i) id) ;;
          pick_can_from_slot id ;;
          _ <- mark_slot_unavailable id ;;
          pick_loop available_slots rest
      | None => print (NoMoreSlots (S i))
      end
  end.

(** [pick_can_quantity(quantity, x, y)].  Every path of the function ends
    in a bare [return] or falls off its end, so the value the caller
    receives is Python's [None]. *)
Definition pick_can_quantity (quantity : pyval) (x y : float) : M pyval :=
  match as_int quantity with
  | None => print InvalidQuantity ;; ret PNone
  | Some q =>
      if (q <=? 0)%Z then print InvalidQuantity ;; ret PNone
      else
        s <- get ;;
        addRobotLog (CURRENT_JOB_ID s) (BATTERY s) "Working" x y
                    (Text "Starting pick can sequence") ;;
        available_slots <- get_available_slots ;;
        quantity <-
          (if (Z.of_nat (length available_slots) <? q)%Z
           then print (ClampWarning (length available_slots) q) ;;
                ret (Z.of_nat (length available_slots))
           else ret q) ;;
        pick_loop available_slots (seq 0 (Z.to_nat quantity)) ;;
        print (CompletedPickCan quantity) ;;
        s <- get ;;
        addRobotLog (CURRENT_JOB_ID s) (BATTERY s) "Working" x y
                    (Text "Completed picking can operation") ;;
        ret PNone
  end.

(** *** Job lifecycle *)

(** The plan built for an accepted job. *)
Definition new_waypoints (quantity : pyval) : list pyval :=
  [ PTuple [PFloat 1.68; PFloat (-3.06); PStr "backward"];
    PTuple [PStr "turn_right"; PFloat 11.0];
    PTuple [PFloat 1.93; PFloat (-0.59); PStr "forward"];
    PTuple [PStr "pick_can"; quantity];
    PTuple [PFloat 1.83; PFloat (-3.20); PStr "backward"];
    PTuple [PStr "turn_left"; PFloat 3.0];
    PTuple [PInt 0; PInt 0; PInt 1; PInt 0; PStr "rotation"];
    PTuple [PFloat 0.70; PFloat (-3.06); PStr "backward"];
    PTuple [PFloat 3.019; PFloat (-3.06); PStr "forward"] ].

Definition check_allocated_job : M unit :=
  try_except
    (response_json <- http GetAssignedJob ;;
     success <- orraise (py_getitem response_json "success") ;;
     has_job <-
       (if truthy success then
          data <- orraise (py_getitem response_json "data") ;;
          n <- orraise (py_len data) ;;
          ret (0 <? n)%nat
        else ret false) ;;
     if has_job : bool then
       data <- orraise (py_getitem response_json "data") ;;
       id <- orraise (py_getitem data "_id") ;;
       modify (set_CURRENT_JOB_ID id) ;;
       job_items <- orraise (py_getitem data "items") ;;
       n <- orraise (py_len job_items) ;;
       single_can <-
         (if (n =? 1)%nat then
            item <- orraise (py_first job_items) ;;
            name <- orraise (py_getitem item "name") ;;
            ret (py_eq_str name "Can")
          else ret false) ;;
       if single_can : bool then
         item <- orraise (py_first job_items) ;;
         quantity <- orraise (py_getitem item "quantity") ;;
         modify (set_CAN_QUANTITY quantity) ;;
         s <- get ;;
         addRobotLog (CURRENT_JOB_ID s) (BATTERY s) "Working" 2.96%float (-3.06)%float
                     (StartingJob (CAN_QUANTITY s)) ;;
         updateJobTime true (CURRENT_JOB_ID s) ;;
         modify (set_JOB_IN_PROGRESS true) ;;
         modify (set_waypoints (new_waypoints (CAN_QUANTITY s))) ;;
         print JobAccepted
       else ret tt
     else print NoJobs)
    (print PollError).

(** *** Waypoint interpreter *)

(** What one pass of the main loop reads from its surroundings. *)
Record tick_input : Type := mkInput {
  now : float;             (* time.time() *)
  sim_time : float;        (* robot.getTime() *)
  gps : float * float;     (* gps.getValues() *)
  rotation_field_ok : bool (* robot node and rotation field accessible *)
}.

(** The shape tests of the main loop, in the order the loop tries them,
    with the components each branch unpacks. *)
Inductive shape : Type :=
| PickCan (quantity : pyval)
| Rotation (rot_x rot_y rot_z rot_angle : pyval)
| Movement (target_x target_y movement_type : pyval)
| Turn (turn_command : string) (duration : pyval)
| Unrecognized.

Definition classify (current_waypoint : pyval) : shape :=
  match current_waypoint with
  | PTuple items =>
      match items with
      | c :: quantity :: _ =>
          if py_eq_str c "pick_can" then PickCan quantity
          else
            match items with
            | [x; y; z; angle; tag] =>
                if py_eq_str tag "rotation" then Rotation x y z angle
                else Unrecognized
            | [x; y; movement_type] => Movement x y movement_type
            | [PStr command; duration] =>
                if String.prefix "turn_" command then Turn command duration
                else Unrecognized
            | _ => Unrecognized
            end
      | _ => Unrecognized
      end
  | _ => Unrecognized
  end.

Definition advance : M unit :=
  modify (fun s => set_current_waypoint_index (S (current_waypoint_index s)) s).

(** [calculate_distance(pos1, pos2)] on floats:
    [math.sqrt((pos2[0] - pos1[0])**2 + (pos2[1] - pos1[1])**2)].  The
    subtractions, the sum and the square root are the correctly rounded
    operations of the doubles; [None] where a square raises. *)
Definition calculate_distance (pos1 pos2 : float * float) : option float :=
  match square (fst pos2 - fst pos1), square (snd pos2 - snd pos1) with
  | Some dx2, Some dy2 => Some (PrimFloat.sqrt (dx2 + dy2))
  | _, _ => None
  end.

(** [calculate_distance(pos1, pos2) < 0.1], the test of the movement
    branch; [None] where the distance raises. *)
Definition within_tolerance (pos1 pos2 : float * float) : option bool :=
  match calculate_distance pos1 pos2 with
  | Some distance => Some (distance <? 0.1)%float
  | None => None
  end.

(** The branch taken when the plan is consumed. *)
Definition complete_job (current_x current_y : float) : M unit :=
  stop ;;
  print FinalPosition ;;
  s <- get ;;
  (if py_ne_zero (CURRENT_JOB_ID s) then
     updateJobTime false (CURRENT_JOB_ID s) ;;
     addRobotLog (CURRENT_JOB_ID s) (BATTERY s) "Free" current_x current_y
                 (Text "Completed job!") ;;
     update_job_status "completed" (CURRENT_JOB_ID s) ;;
     update_robot_availability "idle" ;;
     modify (fun s => set_BATTERY (BATTERY s - 5) s) ;;
     update_robot_battery 5
   else ret tt) ;;
  modify (set_waypoints []) ;;
  modify (set_current_waypoint_index 0) ;;
  modify (set_JOB_IN_PROGRESS false) ;;
  print ReadyForNextJob.

(** The branch taken while [is_rotating] holds. *)
Definition continue_rotation (i : tick_input) : M unit :=
  s <- get ;;
  start <- orraise (rotation_start_time s) ;;
  let rotation_elapsed := (sim_time i - start)%float in
  completed <- orraise (float_ge rotation_elapsed (current_rotation_duration s)) ;;
  if completed : bool then
    print Pos ;;
    d <- orraise (rotation_direction s) ;;
    print (RotationCompleted d rotation_elapsed) ;;
    stop ;;
    modify (set_is_rotating false) ;;
    modify (set_rotation_start_time None) ;;
    advance
  else
    match rotation_direction s with
    | Some left => rotate_left ROTATING_SPEED
    | Some right => rotate_right ROTATING_SPEED
    | None => ret tt
    end ;;
    _ <- orraise (as_num (current_rotation_duration s)) ;;
    print (Rotating (rotation_direction s)).

(** The dispatch on the current waypoint when no rotation is under way. *)
Definition execute_waypoint (i : tick_input) (current_waypoint : pyval) : M unit :=
  let current_x := fst (gps i) in
  let current_y := snd (gps i) in
  match classify current_waypoint with
  | PickCan quantity =>
      s <- get ;;
      addRobotLog (CURRENT_JOB_ID s) (BATTERY s) "Working" current_x current_y
                  (Text "Beginning to pick can") ;;
      _ <- pick_can_quantity quantity current_x current_y ;;
      advance
  | Rotation rot_x rot_y rot_z rot_angle =>
      _ <- orraise (as_num rot_angle) ;;
      stop ;;
      success <- set_robot_rotation (rotation_field_ok i) rot_x rot_y rot_z rot_angle ;;
      print (RotationWaypointDone success) ;;
      advance
  | Movement target_x target_y movement_type =>
      tx <- orraise (as_num target_x) ;;
      ty <- orraise (as_num target_y) ;;
      reached <- orraise (within_tolerance (current_x, current_y) (tx, ty)) ;;
      s <- get ;;
      if reached : bool then
        print (ReachedWaypoint (S (current_waypoint_index s))) ;;
        addRobotLog (CURRENT_JOB_ID s) (BATTERY s) "Working" current_x current_y
                    (Text "Reached Waypoint") ;;
        advance ;;
        stop
      else if py_eq_str movement_type "forward" then
        drive_forward SPEED ;; print Pos
      else if py_eq_str movement_type "backward" then
        drive_backward SPEED ;; print Pos
      else
        print (UnknownMovement (S (current_waypoint_index s))) ;;
        stop ;;
        advance
  | Turn turn_command duration =>
      _ <- orraise (as_num duration) ;;
      print (StartingTurn turn_command) ;;
      (if String.eqb turn_command "turn_left" then
         rotate_left ROTATING_SPEED ;;
         modify (set_rotation_direction (Some left))
       else if String.eqb turn_command "turn_right" then
         rotate_right ROTATING_SPEED ;;
         modify (set_rotation_direction (Some right))
       else ret tt) ;;
      modify (set_is_rotating true) ;;
      modify (set_rotation_start_time (Some (sim_time i))) ;;
      modify (set_current_rotation_duration duration) ;;
      print Pos
  | Unrecognized =>
      s <- get ;;
      print (InvalidWaypoint (current_waypoint_index s) current_waypoint) ;;
      advance ;;
      print Pos
  end.

(** The guard and body of the periodic job poll. *)
Definition poll_if_due (i : tick_input) : M unit :=
  s <- get ;;
  if (10 <=? now i - last_call s)%float && negb (JOB_IN_PROGRESS s) then
    print CheckingJobs ;;
    check_allocated_job ;;
    modify (set_last_call (now i))
  else ret tt.

(** The waypoint part of one pass: everything under
    [if len(waypoints) > 0]. *)
Definition interpret (i : tick_input) : M unit :=
  s <- get ;;
  if (0 <? length (waypoints s))%nat then
    if (length (waypoints s) <=? current_waypoint_index s)%nat then
      complete_job (fst (gps i)) (snd (gps i))
    else
      current_waypoint <- orraise (waypoints s !! current_waypoint_index s) ;;
      if is_rotating s then continue_rotation i
      else execute_waypoint i current_waypoint
  else ret tt.

(** One pass of the body of [while robot.step(TIME_STEP) != -1]. *)
Definition tick (i : tick_input) : M unit :=
  poll_if_due i ;;
  interpret i.

(** The main loop over the passes the simulator grants; an uncaught
    exception ends the controller. *)
Fixpoint run (inputs : list tick_input) : M unit :=
  match inputs with
  | [] => ret tt
  | i :: rest => tick i ;; run rest
  end.

End Controller.

(** Calls are opened by name in proofs, not by simplification. *)
Arguments http : simpl never.
Arguments report : simpl never.
Arguments addRobotLog : simpl never.
Arguments updateJobTime : simpl never.
Arguments update_job_status : simpl never.
Arguments update_robot_availability : simpl never.
Arguments update_robot_battery : simpl never.
Arguments get_available_slots : simpl never.
Arguments mark_slot_unavailable : simpl never.
Arguments pick_can_from_slot : simpl never.
Arguments pick_can_quantity : simpl never.
Arguments check_allocated_job : simpl never.
Arguments complete_job : simpl never.
Arguments continue_rotation : simpl never.
Arguments execute_waypoint : simpl never.
Arguments poll_if_due : simpl never.
Arguments interpret : simpl never.
Arguments tick : simpl never.

(** ** The variant controller of [multiple_quantity_picking.py]

    The variant keeps its plan in a literal list, has no backend and no
    slot inventory, and picks by object type.  It shares the motion
    primitives, the rotation branch and the globals of the interpreter with
    the controller above; only those globals are used here. *)

Module MultipleQuantityPicking.

(** [s.replace(old, "")] for a non-empty [old]: every occurrence of [old],
    found left to right without overlap, is dropped.  [skip] counts the
    characters of a found occurrence still to drop. *)
Fixpoint remove_from (old : string) (skip : nat) (s : string) : string :=
  match s with
  | EmptyString => EmptyString
  | String c rest =>
      match skip with
      | S k => remove_from old k rest
      | O =>
          if String.prefix old s
          then remove_from old (String.length old - 1) rest
          else String c (remove_from old 0 rest)
      end
  end.

Definition remove_all (old s : string) : string := remove_from old 0 s.

(** [s.upper()] on ASCII letters. *)
Definition upper_char (c : Ascii.ascii) : Ascii.ascii :=
  let n := Ascii.nat_of_ascii c in
  if ((97 <=? n) && (n <=? 122))%nat then Ascii.ascii_of_nat (n - 32) else c.

Fixpoint upper (s : string) : string :=
  match s with
  | EmptyString => EmptyString
  | String c rest => String (upper_char c) (upper rest)
  end.

(** The locals [pick_and_place] sets for an object type; an absent value
    is a local that is undefined or [None] for that type. *)
Record locals : Type := mkLocals {
  gripper_open : Q;
  arm4_initial : option Q;
  arm2_lower : Q;
  arm3_during_lower : Q;
  arm4_during_lower : option Q;
  arm4_final : Q;
  arm1_rotate : Q;
  arm2_drop : Q;
  arm3_drop : option Q;
  gripper_release : Q;
  release_wait : Q
}.

Definition locals_of (target_object : string) : option locals :=
  if String.eqb target_object "BISCUIT" then
    Some (mkLocals 0.025 None (-0.80) 0 (Some (-0.82)%Q) (-1.72)
                   (-2.94) (-0.52) (Some (-0.84)%Q) 0.02 2.0)
  else if String.eqb target_object "CAN" then
    Some (mkLocals 0.025 (Some 1.45%Q) (-0.92) (-1.3) (Some (-0.30)%Q) (-1.32)
                   (-2.94) (-0.32) None 0.02 2.0)
  else if String.eqb target_object "CEREAL" then
    Some (mkLocals 0.025 (Some 1.45%Q) (-1.63) (-1.83) None (-1.70)
                   (-3.04) (-0.08) None 0.025 3.0)
  else None.

Definition pick_and_place (target_object : string) : M unit :=
  stop ;;
  reset_arm_and_fingers ;;
  wait 2.0 ;;
  match locals_of target_object with
  | None => print (InvalidTarget target_object)
  | Some l =>
      set_fingers (gripper_open l) ;; wait 2.0 ;;
      (if String.eqb target_object "BISCUIT" then
         emit (SetArm 1 (arm2_lower l)) ;; wait 1.5 ;;
         emit (SetArm 2 (arm3_during_lower l)) ;; wait 2.5 ;;
         match arm4_during_lower l with
         | Some p => emit (SetArm 3 p)
         | None => raise
         end ;;
         emit (SetArm 3 (arm4_final l)) ;; wait 2.5
       else
         match arm4_initial l with
         | Some p => emit (SetArm 3 p) ;; wait 2.5
         | None => print Arm4InitialUndefined
         end ;;
         emit (SetArm 2 (-1.15)%Q) ;; wait 2.5 ;;
         emit (SetArm 1 (arm2_lower l)) ;; wait 1.5 ;;
         match arm4_during_lower l with
         | Some p => emit (SetArm 3 p)
         | None => ret tt
         end ;;
         emit (SetArm 3 (arm4_final l)) ;; wait 2.5) ;;
      grip_drop_and_return (arm1_rotate l) (arm2_drop l) (arm3_drop l)
        (gripper_release l) (release_wait l) ;;
      print PickAndPlaceComplete
  end.

Definition pick_can_quantity (quantity : pyval) : M unit :=
  match as_int quantity with
  | None => print InvalidQuantity
  | Some q =>
      if (q <=? 0)%Z then print InvalidQuantity
      else
        pick_and_place "BISCUIT" ;;
        for_each (seq 2 (Z.to_nat q - 1)) (fun _ => pick_and_place "CAN") ;;
        print (CompletedPickCan q)
  end.

(** The literal plan of the variant. *)
Definition waypoints0 : list pyval :=
  [ PTuple [PFloat 1.68; PFloat (-3.06); PStr "backward"];
    PTuple [PStr "turn_right"; PFloat 11.0];
    PTuple [PFloat 1.93; PFloat (-0.59); PStr "forward"];
    PTuple [PStr "pick_can"; PInt 2];
    PTuple [PFloat 1.83; PFloat (-3.20); PStr "backward"];
    PTuple [PStr "turn_left"; PFloat 3.0];
    PTuple [PInt 0; PInt 0; PInt 1; PInt 0; PStr "rotation"];
    PTuple [PFloat 0.70; PFloat (-3.06); PStr "backward"];
    PTuple [PFloat 3.019; PFloat (-3.06); PStr "forward"] ].

(** The shape tests of the variant's loop, in the order it tries them. *)
Inductive shape : Type :=
| PickCan (quantity : option pyval)
| PickObject (command : string)
| Rotation (rot_x rot_y rot_z rot_angle : pyval)
| Movement (target_x target_y movement_type : pyval)
| Turn (turn_command : string) (duration : pyval)
| Unrecognized.

(** The tests that follow the pick commands. *)
Definition classify_motion (current_waypoint : pyval) : shape :=
  match current_waypoint with
  | PTuple [x; y; z; angle; tag] =>
      if py_eq_str tag "rotation" then Rotation x y z angle else Unrecognized
  | PTuple [x; y; movement_type] => Movement x y movement_type
  | PTuple [PStr command; duration] =>
      if String.prefix "turn_" command then Turn command duration
      else Unrecognized
  | _ => Unrecognized
  end.

Definition classify (current_waypoint : pyval) : shape :=
  match current_waypoint with
  | PTuple (PStr command :: rest) =>
      if String.eqb command "pick_can" then
        PickCan (match rest with quantity :: _ => Some quantity | [] => None end)
      else if String.prefix "pick_" command then PickObject command
      else classify_motion current_waypoint
  | _ => classify_motion current_waypoint
  end.

Definition execute_waypoint (i : tick_input) (current_waypoint : pyval) : M unit :=
  let current_x := fst (gps i) in
  let current_y := snd (gps i) in
  match classify current_waypoint with
  | PickCan (Some quantity) => pick_can_quantity quantity ;; advance
  | PickCan None => print MissingQuantity ;; advance
  | PickObject command =>
      pick_and_place (upper (remove_all "pick_" command)) ;;
      advance
  | Rotation rot_x rot_y rot_z rot_angle =>
      _ <- orraise (as_num rot_angle) ;;
      stop ;;
      success <- set_robot_rotation (rotation_field_ok i) rot_x rot_y rot_z rot_angle ;;
      print (RotationWaypointDone success) ;;
      advance
  | Movement target_x target_y movement_type =>
      tx <- orraise (as_num target_x) ;;
      ty <- orraise (as_num target_y) ;;
      reached <- orraise (within_tolerance (current_x, current_y) (tx, ty)) ;;
      s <- get ;;
      if reached : bool then
        print (ReachedWaypoint (S (current_waypoint_index s))) ;;
        advance ;;
        stop
      else if py_eq_str movement_type "forward" then
        drive_forward SPEED ;; print Pos
      else if py_eq_str movement_type "backward" then
        drive_backward SPEED ;; print Pos
      else
        print (UnknownMovement (S (current_waypoint_index s))) ;;
        stop ;;
        advance
  | Turn turn_command duration =>
      _ <- orraise (as_num duration) ;;
      print (StartingTurn turn_command) ;;
      (if String.eqb turn_command "turn_left" then
         rotate_left ROTATING_SPEED ;;
         modify (set_rotation_direction (Some left))
       else if String.eqb turn_command "turn_right" then
         rotate_right ROTATING_SPEED ;;
         modify (set_rotation_direction (Some right))
       else ret tt) ;;
      modify (set_is_rotating true) ;;
      modify (set_rotation_start_time (Some (sim_time i))) ;;
      modify (set_current_rotation_duration duration) ;;
      print Pos
  | Unrecognized =>
      s <- get ;;
      print (InvalidWaypoint (current_waypoint_index s) current_waypoint) ;;
      advance ;;
      print Pos
  end.

(** One pass of the variant's loop; [false] is the loop's [break]. *)
Definition tick (i : tick_input) : M bool :=
  s <- get ;;
  if (length (waypoints s) <=? current_waypoint_index s)%nat then
    stop ;;
    print FinalPosition ;;
    print AllWaypointsReached ;;
    ret false
  else
    current_waypoint <- orraise (waypoints s !! current_waypoint_index s) ;;
    (if is_rotating s then continue_rotation i
     else execute_waypoint i current_waypoint) ;;
    ret true.

Fixpoint run (inputs : list tick_input) : M unit :=
  match inputs with
  | [] => ret tt
  | i :: rest =>
      again <- tick i ;;
      if again : bool then run rest else ret tt
  end.

End MultipleQuantityPicking.

Arguments MultipleQuantityPicking.pick_and_place : simpl never.
Arguments MultipleQuantityPicking.pick_can_quantity : simpl never.
Arguments MultipleQuantityPicking.execute_waypoint : simpl never.
Arguments MultipleQuantityPicking.tick : simpl never.

(** ** Vocabulary of the statements

    Concrete states and backends for worked instances, readers of event
    lists, and the predicates the theorems are stated with. *)

(** The globals at start-up: no shelves, no job, no plan. *)
Definition empty_state : state :=
  mkState ∅ 100 (PInt 0) (PInt 0) false [] 0 None false None (PInt 0) 0 0.

(** The start-up globals with a cache for shelf [can_shelf]. *)
Definition with_slots (slots : list slot) : state :=
  set_shelves {[ "can_shelf" := slots ]} empty_state.

(** A backend that answers every request with [{"success": true,
    "message": "ok"}]. *)
Definition backend_ok : nat -> request -> http_result :=
  fun _ _ => HttpJson (PDict [("success", PBool true); ("message", PStr "ok")]).

(** A backend that answers every request with [{"success": false}]. *)
Definition backend_refuses : nat -> request -> http_result :=
  fun _ _ => HttpJson (PDict [("success", PBool false)]).

(** A backend that cannot be reached: every request raises. *)
Definition backend_down : nat -> request -> http_result :=
  fun _ _ => HttpError.

(** Readers of event lists. *)

Definition is_wheel_command (e : event) : bool :=
  match e with SetVelocity _ _ => true | _ => false end.

Definition is_joint_command (e : event) : bool :=
  match e with SetArm _ _ | SetFinger _ _ => true | _ => false end.

Definition is_poll (e : event) : bool :=
  match e with Request GetAssignedJob => true | _ => false end.

Fixpoint requests_of (es : list event) : list request :=
  match es with
  | [] => []
  | Request r :: rest => r :: requests_of rest
  | _ :: rest => requests_of rest
  end.

Fixpoint slot_updates_of (es : list event) : list Z :=
  match es with
  | [] => []
  | Request (PatchSlotAvailability _ id _) :: rest => id :: slot_updates_of rest
  | _ :: rest => slot_updates_of rest
  end.

Fixpoint picks_of (es : list event) : list Z :=
  match es with
  | [] => []
  | Printed (PickingCan _ id) :: rest => id :: picks_of rest
  | _ :: rest => picks_of rest
  end.

Fixpoint battery_reports_of (es : list event) : list Z :=
  match es with
  | [] => []
  | Request (PatchBatteryLevel v) :: rest => v :: battery_reports_of rest
  | _ :: rest => battery_reports_of rest
  end.

(** The backend "reports success": the parsed body is an object whose
    [success] entry is true in Python's sense. *)
Definition reports_success (r : http_result) : bool :=
  match r with
  | HttpJson body =>
      match py_get body "success" with
      | Some v => truthy v
      | None => false
      end
  | HttpError => false
  end.

Arguments reports_success : simpl never.

(** The cache of [can_shelf] holds a slot with identifier [id]. *)
Definition slot_present (id : Z) (s : state) : Prop :=
  exists slots, shelves s !! "can_shelf" = Some slots /\ In id (map slot_id slots).

(** [keeps f m]: running [m] leaves the component [f] of the globals as it
    was, whether [m] returns or raises. *)
Definition keeps {A F} (f : state -> F) (m : M A) : Prop :=
  forall s, f (final (m s)) = f s.

(** [never P m]: no event satisfying [P] is emitted by [m]. *)
Definition never {A} (P : event -> bool) (m : M A) : Prop :=
  forall s, List.filter P (emitted (m s)) = [].

(** [returns m]: [m] does not raise. *)
Definition returns {A} (m : M A) : Prop :=
  forall s, res (m s) <> Raise.

(** The backend answers every slot update (no request raises). *)
Definition answers_slot_updates (backend : nat -> request -> http_result) : Prop :=
  forall n id, backend n (PatchSlotAvailability "can_shelf" id false) <> HttpError.

(** A state in which the plan is non-empty and fully consumed. *)
Definition plan_consumed (s : state) : Prop :=
  (0 < length (waypoints s))%nat /\
  (length (waypoints s) <= current_waypoint_index s)%nat.

(** A state at the end of a job: plan consumed, job [J1] still recorded. *)
Definition finished_job_state : state :=
  mkState ∅ 100 (PInt 2) (PStr "J1") true (new_waypoints (PInt 2)) 9
          None false (Some left) (PFloat 3.0) 0 0.

(** The readings of a pass at time [t], at the home position. *)
Definition input_at (t : float) : tick_input :=
  mkInput t t (3.019, -3.06)%float true.

(** The readings of a pass at time [t] with the robot at [(x, y)]. *)
Definition input_near (t x y : float) : tick_input := mkInput t t (x, y) true.

(** A backend that assigns the job whose [_id] is the number 0, for one
    can, and acknowledges everything else. *)
Definition backend_assigns_zero : nat -> request -> http_result :=
  fun _ r =>
    match r with
    | GetAssignedJob =>
        HttpJson
          (PDict [("success", PBool true);
                  ("data",
                   PDict [("_id", PInt 0);
                          ("items",
                           PList [PDict [("name", PStr "Can");
                                         ("quantity", PInt 1)]])])])
    | _ => HttpJson (PDict [("success", PBool true); ("message", PStr "ok")])
    end.

(** Readings that take the robot through the nine steps of a plan: the
    first poll falls due at time 20, each position is the target of the
    move under the cursor, and the two turns are given their 11 and 3
    seconds. *)
Definition job_zero_inputs : list tick_input :=
  [ input_near 20 1.68 (-3.06); input_near 21 1.68 (-3.06);
    input_near 32 1.68 (-3.06); input_near 33 1.93 (-0.59);
    input_near 34 1.93 (-0.59); input_near 35 1.83 (-3.20);
    input_near 36 1.83 (-3.20); input_near 39 1.83 (-3.20);
    input_near 40 1.83 (-3.20); input_near 41 0.70 (-3.06);
    input_near 42 3.019 (-3.06) ].

(** The passes of a run, each with the state it started from; the list
    ends where a pass raises. *)
Fixpoint passes (backend : nat -> request -> http_result)
    (inputs : list tick_input) (s : state) : list (state * outcome unit) :=
  match inputs with
  | [] => []
  | i :: rest =>
      let o := tick backend i s in
      (s, o) :: match res o with
                | Ok _ => passes backend rest (final o)
                | Raise => []
                end
  end.

(** The reports of the completion sequence for the job recorded in [s]. *)
Definition completion_reports (i : tick_input) (s : state) : list request :=
  [ PatchJobTime false (CURRENT_JOB_ID s);
    PostRobotLog (CURRENT_JOB_ID s) (BATTERY s) "Free" (fst (gps i)) (snd (gps i))
                 (Text "Completed job!");
    PatchJobStatus "completed" (CURRENT_JOB_ID s);
    PatchRobotAvailability "idle";
    PatchBatteryLevel 5 ].

(** What a pass that starts with a job in progress may do to the job: leave
    flag, plan and job data alone, or, the plan being consumed, clear flag
    and plan, after the completion reports when the recorded job identifier
    passes the test [CURRENT_JOB_ID != 0], and with no request at all when
    it does not. *)
Definition guarded_pass (i : tick_input) (s : state) (o : outcome unit) : Prop :=
  List.filter is_poll (emitted o) = [] /\
  ((JOB_IN_PROGRESS (final o) = true /\
    waypoints (final o) = waypoints s /\
    CURRENT_JOB_ID (final o) = CURRENT_JOB_ID s /\
    CAN_QUANTITY (final o) = CAN_QUANTITY s)
   \/
   (plan_consumed s /\
    JOB_IN_PROGRESS (final o) = false /\
    waypoints (final o) = [] /\
    requests_of (emitted o) =
      if py_ne_zero (CURRENT_JOB_ID s) then completion_reports i s else [])).

(** A component of the globals that the waypoint steps do not assign. *)
Definition outside_steps {F} (f : state -> F) : Prop :=
  (forall v s, f (set_nreq v s) = f s) /\
  (forall v s, f (set_shelves v s) = f s) /\
  (forall v s, f (set_current_waypoint_index v s) = f s) /\
  (forall v s, f (set_is_rotating v s) = f s) /\
  (forall v s, f (set_rotation_start_time v s) = f s) /\
  (forall v s, f (set_rotation_direction v s) = f s) /\
  (forall v s, f (set_current_rotation_duration v s) = f s).

(** The job identifier a poll response offers: the [_id] of its [data],
    when the response reports success and [data] is not empty. *)
Definition job_offered (r : http_result) : option pyval :=
  match r with
  | HttpError => None
  | HttpJson body =>
      match py_getitem body "success" with
      | Some success =>
          if truthy success then
            match py_getitem body "data" with
            | Some data =>
                match py_len data with
                | Some n => if (0 <? n)%nat then py_getitem data "_id" else None
                | None => None
                end
            | None => None
            end
          else None
      | None => None
      end
  end.

(** A backend whose poll response offers job [J7] with no items. *)
Definition backend_offers_empty_job : nat -> request -> http_result :=
  fun _ _ =>
    HttpJson (PDict [("success", PBool true);
                     ("data", PDict [("_id", PStr "J7"); ("items", PList [])])]).

(** The step command of a timed turn in direction [d]. *)
Definition turn_command_of (d : direction) : string :=
  match d with
  | left => "turn_left"
  | right => "turn_right"
  end.

(** The wheel commands of a rotation in direction [d]. *)
Definition rotate_events (d : direction) : list event :=
  match d with
  | left => rotate_left_events ROTATING_SPEED
  | right => rotate_right_events ROTATING_SPEED
  end.

(** The four wheel velocities of a drive command, as [setVelocity] calls
    on the wheels in their order. *)
Definition wheel_commands (v0 v1 v2 v3 : Q) : list event :=
  [SetVelocity 0 v0; SetVelocity 1 v1; SetVelocity 2 v2; SetVelocity 3 v3].

(** The wheel velocities of a rotation on the spot in direction [d], at
    the rotating speed 8.0. *)
Definition turn_commands (d : direction) : list event :=
  match d with
  | left => wheel_commands (-8.0) 8.0 8.0 (-8.0)
  | right => wheel_commands 8.0 (-8.0) (-8.0) 8.0
  end.

(** The wheel velocities of a stopped drive. *)
Definition halt_commands : list event := wheel_commands 0 0 0 0.

(** What a trace commands: the calls on the devices, the waits and the
    requests to the backend, in their order.  What is printed is left
    out. *)
Definition commands_of (es : list event) : list event :=
  List.filter (fun e => match e with Printed _ => false | _ => true end) es.

(** Both fingers set to position [p]. *)
Definition finger_commands (p : Q) : list event := [SetFinger 0 p; SetFinger 1 p].

(** The reset that opens every pick: the five arm joints, then the two
    fingers, set to 0.0. *)
Definition reset_commands : list event :=
  [SetArm 0 0.0; SetArm 1 0.0; SetArm 2 0.0; SetArm 3 0.0; SetArm 4 0.0;
   SetFinger 0 0.0; SetFinger 1 0.0].

(** The return of the arm to its neutral position that closes a pick from
    slot 2 or 4. *)
Definition return_commands : list event :=
  [SetArm 1 0.90; Wait 2.0; SetArm 0 0.0; Wait 2.0; SetArm 2 0.0; Wait 2.0;
   SetArm 3 0.0; Wait 2.0; SetArm 1 0.0; Wait 2.0] ++
  finger_commands 0.02 ++ [Wait 2.0].

(** The commands of one pick on slot [id], as [pick_can_from_slot] lists
    them: the drive stopped, the reset and a wait of 2.0 for every id;
    then, for slots 2 and 4, the opening of the gripper, the lowering of
    the arm in stages, the grip, the lift, the turn to the drop side, the
    release and the return.  For any other id nothing follows the wait. *)
Definition slot_commands (id : Z) : list event :=
  halt_commands ++ reset_commands ++ [Wait 2.0] ++
  if (id =? 2)%Z then
    finger_commands 0.025 ++
    [Wait 2.0; SetArm 1 (-0.80); Wait 1.5; SetArm 2 0; Wait 2.5;
     SetArm 3 (-0.82); SetArm 3 (-1.72); Wait 2.5] ++
    finger_commands 0.0 ++
    [Wait 2.5; SetArm 1 0.75; Wait 2.0; SetArm 0 (-2.94); Wait 2.0;
     SetArm 1 (-0.52); Wait 2.0; SetArm 2 (-0.84); Wait 2.0] ++
    finger_commands 0.02 ++ [Wait 2.0] ++
    return_commands
  else if (id =? 4)%Z then
    finger_commands 0.025 ++
    [Wait 2.0; SetArm 3 1.45; Wait 2.5; SetArm 2 (-1.15); Wait 2.5;
     SetArm 1 (-0.92); Wait 1.5; SetArm 3 (-0.30); SetArm 3 (-1.32); Wait 2.5] ++
    finger_commands 0.0 ++
    [Wait 2.5; SetArm 1 0.75; Wait 2.0; SetArm 0 (-2.94); Wait 2.0;
     SetArm 1 (-0.32); Wait 2.0] ++
    finger_commands 0.02 ++ [Wait 2.0] ++
    return_commands
  else [].

(** One turn of the batch loop on slot [id]: the pick, then the inventory
    update for that slot. *)
Definition pick_and_update_commands (id : Z) : list event :=
  slot_commands id ++ [Request (PatchSlotAvailability "can_shelf" id false)].

(** The commands of a batch that picks from the slots [ids], for the job
    [jobId] at battery level [battery] with the robot at [(x, y)]: the log
    of the start, one pick and update per slot in the order of [ids], the
    log of the end. *)
Definition batch_commands (jobId : pyval) (battery : Z) (x y : float)
    (ids : list Z) : list event :=
  [Request (PostRobotLog jobId battery "Working" x y
                         (Text "Starting pick can sequence"))] ++
  flat_map pick_and_update_commands ids ++
  [Request (PostRobotLog jobId battery "Working" x y
                         (Text "Completed picking can operation"))].

(** The globals once a timed turn in direction [d], started at simulation
    time [t] for [duration] seconds, is under way. *)
Definition turning (d : direction) (t : float) (duration : pyval) (s : state)
  : state :=
  set_current_rotation_duration duration
    (set_rotation_start_time (Some t)
       (set_is_rotating true (set_rotation_direction (Some d) s))).

(** The globals once that turn has completed. *)
Definition turned (d : direction) (duration : pyval) (s : state) : state :=
  set_current_waypoint_index (S (current_waypoint_index s))
    (set_rotation_start_time None
       (set_is_rotating false
          (set_current_rotation_duration duration
             (set_rotation_direction (Some d) s)))).

(** A state in the middle of a job, with the cursor on the first timed
    turn of the plan. *)
Definition before_turn_state : state :=
  mkState ∅ 100 (PInt 2) (PStr "J1") true (new_waypoints (PInt 2)) 1
          None false None (PInt 0) 0 0.

(** A state in the middle of a job whose plan holds a step of no known
    shape under the cursor. *)
Definition malformed_step_state : state :=
  mkState ∅ 100 (PInt 2) (PStr "J1") true
          [PStr "garbage"; PTuple [PFloat 1.68; PFloat (-3.06); PStr "backward"]]
          0 None false None (PInt 0) 0 0.

(** A plan is present only with the job-in-progress flag set. *)
Definition plan_needs_job (s : state) : Prop :=
  waypoints s = [] \/ JOB_IN_PROGRESS s = true.

(** ** Vocabulary of the further properties *)

(** The backend acknowledges a report: the body reports success and
    carries a [message]. *)
Definition acknowledged (r : http_result) : bool :=
  match r with
  | HttpError => false
  | HttpJson body =>
      match py_getitem body "success", py_getitem body "message" with
      | Some success, Some _ => truthy success
      | _, _ => false
      end
  end.

(** The job a poll response makes the controller accept: identifier and
    quantity, when the response offers a job whose [items] hold exactly one
    entry, named [Can], with a [quantity]. *)
Definition job_accepted (r : http_result) : option (pyval * pyval) :=
  match r, job_offered r with
  | HttpJson body, Some id =>
      match py_getitem body "data" with
      | Some data =>
          match py_getitem data "items" with
          | Some job_items =>
              match py_len job_items, py_first job_items with
              | Some 1%nat, Some item =>
                  match py_getitem item "name", py_getitem item "quantity" with
                  | Some name, Some quantity =>
                      if py_eq_str name "Can" then Some (id, quantity) else None
                  | _, _ => None
                  end
              | _, _ => None
              end
          | None => None
          end
      | None => None
      end
  | _, _ => None
  end.

(** A backend that assigns job [J9] for three cans. *)
Definition backend_assigns_three : nat -> request -> http_result :=
  fun _ r =>
    match r with
    | GetAssignedJob =>
        HttpJson
          (PDict [("success", PBool true);
                  ("data",
                   PDict [("_id", PStr "J9");
                          ("items",
                           PList [PDict [("name", PStr "Can");
                                         ("quantity", PInt 3)]])])])
    | _ => HttpJson (PDict [("success", PBool true); ("message", PStr "ok")])
    end.

(** The wheel commands of a drive in a movement direction. *)
Definition drive_events (speed : Q) : list event :=
  map (fun w => SetVelocity w speed) [0; 1; 2; 3]%nat.


(** A state in the middle of a job with the cursor on the absolute
    rotation step of the plan. *)
Definition rotation_step_state : state :=
  mkState ∅ 100 (PInt 2) (PStr "J1") true (new_waypoints (PInt 2)) 6
          None false (Some left) (PFloat 3.0) 0 0.

(** A state in the middle of a job whose plan has a move with a target
    that is not a number. *)
Definition bad_target_state : state :=
  mkState ∅ 100 (PInt 2) (PStr "J1") true
          [PTuple [PStr "1.68"; PFloat (-3.06); PStr "backward"]]
          0 None false None (PInt 0) 0 0.

(** [obeys I m]: the globals before [m], the events [m] emits and the
    globals after it are related by [I], whether [m] returns or raises. *)
Definition obeys {A} (I : state -> list event -> state -> Prop) (m : M A) : Prop :=
  forall s, I s (emitted (m s)) (final (m s)).

(** A cached slot [after] some steps, against the same slot [before]: the
    id is the same, and the slot is available only if it was. *)
Definition slot_used (before after : slot) : Prop :=
  slot_id after = slot_id before /\
  (slot_available after = true -> slot_available before = true).

(** The cache [after] has the shelves of the cache [before], each with
    the same slots in the same order, none of them available again. *)
Definition inventory_shrinks (before after : gmap string (list slot)) : Prop :=
  forall name,
    match before !! name, after !! name with
    | Some slots, Some slots' => Forall2 slot_used slots slots'
    | None, None => True
    | _, _ => False
    end.

(** The invariant of the slot cache, as a relation between the globals
    before and after a computation. *)
Definition cache_shrinks (s : state) (es : list event) (s' : state) : Prop :=
  inventory_shrinks (shelves s) (shelves s').

(** The local battery level against the battery reports sent: every report
    carries 5 and the level has fallen by 5 for each. *)
Definition battery_accounted (s : state) (es : list event) (s' : state) : Prop :=
  Forall (eq 5%Z) (battery_reports_of es) /\
  BATTERY s' = (BATTERY s - 5 * Z.of_nat (length (battery_reports_of es)))%Z.

(** The globals once a timed turn that names no known direction, started at
    simulation time [t] for [duration] seconds, is under way: the direction
    is the one the run had before. *)
Definition turning_unnamed (t : float) (duration : pyval) (s : state) : state :=
  set_current_rotation_duration duration
    (set_rotation_start_time (Some t) (set_is_rotating true s)).

(** A state in the middle of a job with the cursor on a turn step that
    names no known direction; [d] is the direction left by earlier turns. *)
Definition unnamed_turn_state (d : option direction) : state :=
  mkState ∅ 100 (PInt 2) (PStr "J1") true
          [PTuple [PStr "turn_around"; PFloat 2.0]]
          0 None false d (PInt 0) 0 0.

(** The backend confirms every slot update. *)
Definition confirms_slot_updates (backend : nat -> request -> http_result) : Prop :=
  forall n id,
    reports_success (backend n (PatchSlotAvailability "can_shelf" id false)) = true.

(** The backend answers every slot update and confirms none. *)
Definition refuses_slot_updates (backend : nat -> request -> http_result) : Prop :=
  forall n id,
    exists body,
      backend n (PatchSlotAvailability "can_shelf" id false) = HttpJson body /\
      reports_success (HttpJson body) = false.

(** The number of picks of a batch of [q] cans with [a] slots available. *)
Definition batch_size (q : Z) (a : nat) : nat := Z.to_nat (Z.min q (Z.of_nat a)).

(** The position last commanded to arm joint [j] in a trace. *)
Definition last_arm (j : nat) (es : list event) : option Q :=
  fold_left (fun acc e =>
               match e with
               | SetArm k p => if (k =? j)%nat then Some p else acc
               | _ => acc
               end) es None.

(** The position last commanded to finger [f] in a trace. *)
Definition last_finger (f : nat) (es : list event) : option Q :=
  fold_left (fun acc e =>
               match e with
               | SetFinger k p => if (k =? f)%nat then Some p else acc
               | _ => acc
               end) es None.

(** A wheel command with a velocity other than zero. *)
Definition is_drive_command (e : event) : bool :=
  match e with
  | SetVelocity _ v => negb (Qeq_bool v 0)
  | _ => false
  end.

(** The number of picks of a pick step carrying [quantity], with [a] slots
    available: none unless the quantity is a positive integer. *)
Definition step_picks (quantity : pyval) (a : nat) : nat :=
  match as_int quantity with
  | Some q => if (0 <? q)%Z then batch_size q a else 0%nat
  | None => 0%nat
  end.

(** The commands of a pick step carrying [quantity], with the slots [ids]
    available: the log of the beginning, then the batch on the first
    [min q a] slots when the quantity is a positive integer [q], and
    nothing more when it is not. *)
Definition pick_step_commands (jobId : pyval) (battery : Z) (x y : float)
    (quantity : pyval) (ids : list Z) : list event :=
  Request (PostRobotLog jobId battery "Working" x y (Text "Beginning to pick can")) ::
  match as_int quantity with
  | Some q =>
      if (0 <? q)%Z
      then batch_commands jobId battery x y (take (batch_size q (length ids)) ids)
      else []
  | None => []
  end.

(** A state in the middle of a job with the cursor on the pick step of the
    plan, for a job of [quantity] cans. *)
Definition pick_step_state (quantity : pyval) (slots : list slot) : state :=
  mkState {[ "can_shelf" := slots ]} 100 quantity (PStr "J1") true
          (new_waypoints quantity) 3 None false (Some right) (PFloat 11.0) 0 0.

(** The device commands and messages of one run of the variant's
    [pick_and_place] for an object type; they do not depend on the
    globals. *)
Definition routine_events (target_object : string) : list event :=
  emitted (MultipleQuantityPicking.pick_and_place target_object empty_state).

(** The message that closes a completed pick-and-place routine. *)
Definition is_routine_end (e : event) : bool :=
  match e with Printed PickAndPlaceComplete => true | _ => false end.

(** A state of the variant controller with its literal plan and the cursor
    at [k]. *)
Definition variant_state (k : nat) : state :=
  mkState ∅ 0 (PInt 0) (PInt 0) false MultipleQuantityPicking.waypoints0 k
          None false None (PInt 0) 0 0.

(** The job flag is set exactly when a plan is present. *)
Definition flag_matches_plan (s : state) : Prop :=
  JOB_IN_PROGRESS s = true <-> waypoints s <> [].

(** The agreement of flag and plan, as a relation between the globals
    before and after a computation. *)
Definition keeps_flag_and_plan (s : state) (es : list event) (s' : state) : Prop :=
  flag_matches_plan s -> flag_matches_plan s'.

(** A step the interpreter can run without raising: its shape is
    unrecognized or a pick, or its numeric fields are numbers and, for a
    timed turn, the command names a direction. *)
Definition step_well_formed (current_waypoint : pyval) : bool :=
  match classify current_waypoint with
  | PickCan _ => true
  | Rotation _ _ _ rot_angle => bool_decide (as_num rot_angle <> None)
  | Movement target_x target_y _ =>
      bool_decide (as_num target_x <> None) && bool_decide (as_num target_y <> None)
  | Turn turn_command duration =>
      (String.eqb turn_command "turn_left" || String.eqb turn_command "turn_right")
      && bool_decide (as_num duration <> None)
  | Unrecognized => true
  end.

Definition plan_well_formed (s : state) : Prop :=
  Forall (fun current_waypoint => step_well_formed current_waypoint = true)
         (waypoints s).

(** At the reading of pass [i], the distance to the target of a move step
    is within the doubles: no square raises. *)
Definition distance_defined (i : tick_input) (current_waypoint : pyval) : bool :=
  match classify current_waypoint with
  | Movement target_x target_y _ =>
      match as_num target_x, as_num target_y with
      | Some x, Some y =>
          match calculate_distance (fst (gps i), snd (gps i)) (x, y) with
          | Some _ => true
          | None => false
          end
      | _, _ => true
      end
  | _ => true
  end.

(** The readings of the passes [inputs] keep every distance within the
    doubles, for the steps of the plan in the globals and of the plan the
    controller builds for a job. *)
Definition readings_fit (inputs : list tick_input) (s : state) : Prop :=
  Forall (fun i =>
            Forall (fun current_waypoint => distance_defined i current_waypoint = true)
                   (waypoints s ++ new_waypoints PNone))
         inputs.

(** While a rotation is under way its start time and direction are set
    and its duration is a number. *)
Definition rotation_consistent (s : state) : Prop :=
  is_rotating s = true ->
  rotation_start_time s <> None /\ rotation_direction s <> None /\
  as_num (current_rotation_duration s) <> None.

(** The globals as the controller's own code leaves them: a plan of
    well-formed steps, a consistent rotation record, and a cached
    [can_shelf]. *)
Definition sound (s : state) : Prop :=
  plan_well_formed s /\ rotation_consistent s /\ shelves s !! "can_shelf" <> None.

(** Every step of the plan satisfies [P], as a relation between the
    globals before and after a computation. *)
Definition keeps_plan (P : pyval -> bool) (s : state) (es : list event)
    (s' : state) : Prop :=
  Forall (fun current_waypoint => P current_waypoint = true) (waypoints s) ->
  Forall (fun current_waypoint => P current_waypoint = true) (waypoints s').

Definition keeps_rotation_consistent (s : state) (es : list event) (s' : state)
  : Prop :=
  rotation_consistent s -> rotation_consistent s'.

(** ** Slot inventory: properties *)

Lemma available_ids_filter slots :
  available_ids slots = map slot_id (List.filter slot_available slots).
Proof.
  induction slots as [|sl slots IH]; simpl; [reflexivity|].
  destruct (slot_available sl); simpl; congruence.
Qed.

Lemma available_ids_In slots id :
  In id (available_ids slots) <->
  exists sl, In sl slots /\ slot_available sl = true /\ slot_id sl = id.
Proof.
  rewrite available_ids_filter, in_map_iff. split.
  - intros (sl & Hid & Hin). apply filter_In in Hin. destruct Hin. eauto.
  - intros (sl & Hin & Hav & Hid). exists sl. split; [assumption|].
    apply filter_In. auto.
Qed.

Lemma available_ids_sorted slots :
  Sorted Z.le (map slot_id slots) -> Sorted Z.le (available_ids slots).
Proof.
  intros H. apply Sorted_StronglySorted in H; [|intros x y z; lia].
  apply StronglySorted_Sorted.
  induction slots as [|sl slots IH]; simpl in *; [constructor|].
  inversion H as [|? ? Hs Hall]; subst.
  destruct (slot_available sl); [|auto].
  constructor; [auto|].
  rewrite List.Forall_forall in *. intros id Hid. apply Hall.
  apply available_ids_In in Hid. destruct Hid as (sl' & Hin & _ & <-).
  apply in_map. assumption.
Qed.

(** C9, as amended.  [get_available_slots] is a read-only view of the
    cache, in every state of it.  Where the cache holds the shelf
    [can_shelf], it returns the identifiers of exactly the available slots,
    in the order the cache holds them, and the result ascends when the
    cache does.  Where the cache does not hold the shelf, as after a failed
    load at start-up, the lookup [shelf_slots[shelf_name]] raises and
    nothing is returned. *)
Theorem get_available_slots_cache_order (s : state) :
  match shelves s !! "can_shelf" with
  | Some slots =>
      get_available_slots s =
        mkOut (Ok (map slot_id (List.filter slot_available slots))) s []
      /\ (forall id, In id (map slot_id (List.filter slot_available slots)) <->
                     exists sl, In sl slots /\ slot_available sl = true
                                /\ slot_id sl = id)
      /\ (Sorted Z.le (map slot_id slots) ->
          Sorted Z.le (map slot_id (List.filter slot_available slots)))
  | None => get_available_slots s = mkOut Raise s []
  end.
Proof.
  destruct (shelves s !! "can_shelf") as [slots|] eqn:Hc.
  - rewrite <- available_ids_filter. split; [|split].
    + unfold get_available_slots, bind, get, orraise. simpl. rewrite Hc. reflexivity.
    + apply available_ids_In.
    + apply available_ids_sorted.
  - unfold get_available_slots, bind, get, orraise. simpl. rewrite Hc. reflexivity.
Qed.

Lemma get_available_slots_cache_order_witness :
  get_available_slots (with_slots [mkSlot 2 true; mkSlot 3 false; mkSlot 4 true]) =
    mkOut (Ok [2; 4]%Z)
          (with_slots [mkSlot 2 true; mkSlot 3 false; mkSlot 4 true]) []
  /\ get_available_slots empty_state = mkOut Raise empty_state [].
Proof.
  split.
  - exact (proj1 (get_available_slots_cache_order
                    (with_slots [mkSlot 2 true; mkSlot 3 false; mkSlot 4 true]))).
  - exact (get_available_slots_cache_order empty_state).
Defined.

(** C9, as stated, fails: a cache that holds slot 4 before slot 2 is listed
    in that order, not ascending. *)
Lemma get_available_slots_not_sorted :
  ~ (forall s slots,
        shelves s !! "can_shelf" = Some slots ->
        exists ids, res (get_available_slots s) = Ok ids /\
                    (forall id, In id ids <->
                       exists sl, In sl slots /\ slot_available sl = true
                                  /\ slot_id sl = id) /\
                    Sorted Z.le ids).
Proof.
  intros H.
  destruct (H (with_slots [mkSlot 4 true; mkSlot 2 true])
              [mkSlot 4 true; mkSlot 2 true] eq_refl) as (ids & Hres & _ & Hs).
  vm_compute in Hres. injection Hres as <-.
  inversion Hs as [|? ? _ Hhd]; subst. inversion Hhd; subst. lia.
Qed.


Lemma mark_first_present id slots :
  In id (map slot_id slots) ->
  exists before sl after,
    slots = before ++ sl :: after /\
    slot_id sl = id /\
    ~ In id (map slot_id before) /\
    mark_first id slots = Some (before ++ mkSlot id false :: after).
Proof.
  induction slots as [|sl slots IH]; simpl; [tauto|].
  intros Hin. destruct (Z.eqb_spec (slot_id sl) id) as [Heq|Hne].
  - exists [], sl, slots. simpl. rewrite Heq. auto.
  - destruct Hin as [Heq|Hin]; [contradiction|].
    destruct (IH Hin) as (before & sl' & after & -> & Hid & Hnot & ->).
    exists (sl :: before), sl', after. simpl. repeat split; auto.
    intros [H|H]; auto.
Qed.


(** [mark_slot_unavailable], path by path. *)
Lemma mark_slot_unavailable_paths backend id s :
  let r := PatchSlotAvailability "can_shelf" id false in
  let s1 := set_nreq (S (nreq s)) s in
  mark_slot_unavailable backend id s =
    match backend (nreq s) r with
    | HttpError => mkOut Raise s1 [Request r]
    | HttpJson body =>
        if reports_success (HttpJson body) then
          match shelves s !! "can_shelf" with
          | None => mkOut (Ok false) s1 [Request r; Printed SlotUpdateError]
          | Some slots =>
              match mark_first id slots with
              | Some slots' =>
                  mkOut (Ok true)
                        (set_shelves (<["can_shelf" := slots']> (shelves s)) s1)
                        [Request r; Printed (SlotMarked id)]
              | None => mkOut (Ok false) s1 [Request r]
              end
          end
        else
          match py_get body "success" with
          | Some _ => mkOut (Ok false) s1 [Request r]
          | None => mkOut (Ok false) s1 [Request r; Printed SlotUpdateError]
          end
    end.
Proof.
  unfold mark_slot_unavailable, bind, http, try_except, reports_success. simpl.
  destruct (backend (nreq s) _) as [|body]; simpl; [reflexivity|].
  destruct (py_get body "success") as [v|]; simpl; [|reflexivity].
  destruct (truthy v); simpl; [|reflexivity].
  destruct (shelves s !! "can_shelf") as [slots|]; simpl; [|reflexivity].
  destruct (mark_first id slots); reflexivity.
Qed.

(** For a slot held by the cache and a backend that answers, the cache
    entry becomes unavailable exactly when the answer reports success, and
    the returned flag says which. *)
Lemma mark_slot_unavailable_answered backend id s body :
  slot_present id s ->
  backend (nreq s) (PatchSlotAvailability "can_shelf" id false) = HttpJson body ->
  let o := mark_slot_unavailable backend id s in
  res o = Ok (reports_success (HttpJson body)) /\
  (reports_success (HttpJson body) = false -> shelves (final o) = shelves s) /\
  (reports_success (HttpJson body) = true ->
   exists before sl after,
     shelves s !! "can_shelf" = Some (before ++ sl :: after) /\
     slot_id sl = id /\ ~ In id (map slot_id before) /\
     shelves (final o) =
       <["can_shelf" := before ++ mkSlot id false :: after]> (shelves s)).
Proof.
  intros (slots & Hc & Hin) Hb. simpl.
  rewrite mark_slot_unavailable_paths. simpl. rewrite Hb, Hc.
  destruct (mark_first_present _ _ Hin) as (before & sl & after & -> & Hid & Hnot & ->).
  destruct (reports_success (HttpJson body)) eqn:Hs.
  - simpl. split; [reflexivity|]. split; [discriminate|].
    intros _. exists before, sl, after. auto.
  - destruct (py_get body "success"); simpl;
      (split; [reflexivity|]; split; [reflexivity|discriminate]).
Qed.

(** C1 at its failing input.  When the update request itself raises (the
    backend is unreachable, times out, or answers with something that is
    not JSON), [mark_slot_unavailable] does not return [False]: the
    exception leaves the function, the request being made before the [try].
    The cache is left as it was. *)
Theorem mark_slot_unavailable_raises (backend : nat -> request -> http_result)
    (id : Z) (s : state) :
  backend (nreq s) (PatchSlotAvailability "can_shelf" id false) = HttpError ->
  res (mark_slot_unavailable backend id s) = Raise /\
  shelves (final (mark_slot_unavailable backend id s)) = shelves s.
Proof.
  intros Hb. rewrite mark_slot_unavailable_paths. simpl. rewrite Hb. auto.
Qed.

Lemma mark_slot_unavailable_raises_witness :
  res (mark_slot_unavailable backend_down 2 (with_slots [mkSlot 2 true])) = Raise /\
  shelves (final (mark_slot_unavailable backend_down 2 (with_slots [mkSlot 2 true])))
  = shelves (with_slots [mkSlot 2 true]).
Proof.
  apply (mark_slot_unavailable_raises backend_down 2 (with_slots [mkSlot 2 true])).
  reflexivity.
Defined.




(** ** Reasoning about computations *)

Lemma bind_run {A B} (m : M A) (k : A -> M B) (s : state) :
  bind m k s =
    match res (m s) with
    | Ok a => mkOut (res (k a (final (m s)))) (final (k a (final (m s))))
                    (emitted (m s) ++ emitted (k a (final (m s))))
    | Raise => mkOut Raise (final (m s)) (emitted (m s))
    end.
Proof.
  unfold bind. destruct (m s) as [[a|] s1 es1]; [|reflexivity].
  simpl. destruct (k a s1). reflexivity.
Qed.

Lemma outcome_eta {A} (o : outcome A) : mkOut (res o) (final o) (emitted o) = o.
Proof. destruct o. reflexivity. Qed.

(** Sequencing, by the outcome of the first computation. *)
Lemma bind_unfold {A B} (m : M A) (k : A -> M B) (s : state) :
  bind m k s =
    match m s with
    | mkOut (Ok a) s1 es1 =>
        match k a s1 with
        | mkOut r s2 es2 => mkOut r s2 (es1 ++ es2)
        end
    | mkOut Raise s1 es1 => mkOut Raise s1 es1
    end.
Proof. reflexivity. Qed.

Lemma try_except_run {A} (body handler : M A) (s : state) :
  try_except body handler s =
    match res (body s) with
    | Ok a => body s
    | Raise => mkOut (res (handler (final (body s))))
                     (final (handler (final (body s))))
                     (emitted (body s) ++ emitted (handler (final (body s))))
    end.
Proof.
  unfold try_except. destruct (body s) as [[a|] s1 es1]; [reflexivity|].
  simpl. destruct (handler s1). reflexivity.
Qed.

Section Frames.
Context {F : Type} (f : state -> F) (P : event -> bool).

Lemma keeps_ret {A} (a : A) : keeps f (ret a).
Proof. intros s. reflexivity. Qed.

Lemma keeps_raise {A} : keeps f (@raise A).
Proof. intros s. reflexivity. Qed.

Lemma keeps_get : keeps f get.
Proof. intros s. reflexivity. Qed.

Lemma keeps_emits es : keeps f (emits es).
Proof. intros s. reflexivity. Qed.

Lemma keeps_emit e : keeps f (emit e).
Proof. intros s. reflexivity. Qed.

Lemma keeps_orraise {A} (o : option A) : keeps f (orraise o).
Proof. destruct o; intros s; reflexivity. Qed.

Lemma keeps_modify g : (forall s, f (g s) = f s) -> keeps f (modify g).
Proof. intros H s. apply H. Qed.

Lemma keeps_bind {A B} (m : M A) (k : A -> M B) :
  keeps f m -> (forall a, keeps f (k a)) -> keeps f (bind m k).
Proof.
  intros Hm Hk s. rewrite bind_run. destruct (res (m s)); simpl.
  - rewrite Hk. apply Hm.
  - apply Hm.
Qed.

Lemma keeps_try_except {A} (body handler : M A) :
  keeps f body -> keeps f handler -> keeps f (try_except body handler).
Proof.
  intros Hb Hh s. rewrite try_except_run. destruct (res (body s)); simpl.
  - apply Hb.
  - rewrite Hh. apply Hb.
Qed.

Lemma keeps_for_each {A} (xs : list A) (body : A -> M unit) :
  (forall x, keeps f (body x)) -> keeps f (for_each xs body).
Proof.
  intros H. induction xs; simpl; [apply keeps_ret|].
  apply keeps_bind; auto.
Qed.

Lemma never_ret {A} (a : A) : never P (ret a).
Proof. intros s. reflexivity. Qed.

Lemma never_raise {A} : never P (@raise A).
Proof. intros s. reflexivity. Qed.

Lemma never_get : never P get.
Proof. intros s. reflexivity. Qed.

Lemma never_modify g : never P (modify g).
Proof. intros s. reflexivity. Qed.

Lemma never_orraise {A} (o : option A) : never P (orraise o).
Proof. destruct o; intros s; reflexivity. Qed.

Lemma never_emits es : List.filter P es = [] -> never P (emits es).
Proof. intros H s. exact H. Qed.

Lemma never_emit e : P e = false -> never P (emit e).
Proof. intros H s. simpl. rewrite H. reflexivity. Qed.

Lemma never_bind {A B} (m : M A) (k : A -> M B) :
  never P m -> (forall a, never P (k a)) -> never P (bind m k).
Proof.
  intros Hm Hk s. rewrite bind_run. destruct (res (m s)); simpl.
  - rewrite List.filter_app, Hm, Hk. reflexivity.
  - apply Hm.
Qed.

Lemma never_try_except {A} (body handler : M A) :
  never P body -> never P handler -> never P (try_except body handler).
Proof.
  intros Hb Hh s. rewrite try_except_run. destruct (res (body s)); simpl.
  - apply Hb.
  - rewrite List.filter_app, Hb, Hh. reflexivity.
Qed.

End Frames.

Lemma returns_ret {A} (a : A) : returns (ret a).
Proof. intros s. discriminate. Qed.

Lemma returns_get : returns get.
Proof. intros s. discriminate. Qed.

Lemma returns_modify g : returns (modify g).
Proof. intros s. discriminate. Qed.

Lemma returns_emits es : returns (emits es).
Proof. intros s. discriminate. Qed.

Lemma returns_emit e : returns (emit e).
Proof. intros s. discriminate. Qed.

Lemma returns_bind {A B} (m : M A) (k : A -> M B) :
  returns m -> (forall a, returns (k a)) -> returns (bind m k).
Proof.
  intros Hm Hk s. rewrite bind_run. destruct (res (m s)) eqn:E; simpl.
  - apply Hk.
  - exfalso. exact (Hm s E).
Qed.

Lemma returns_try_except {A} (body handler : M A) :
  returns handler -> returns (try_except body handler).
Proof.
  intros Hh s. rewrite try_except_run. destruct (res (body s)) eqn:E; simpl.
  - rewrite E. discriminate.
  - apply Hh.
Qed.

(** Structural steps shared by the frame proofs below: split binds and
    handlers, decide the primitive leaves, and branch on the tests the
    computation makes. *)
Ltac frame_leaf :=
  first
    [ apply keeps_ret | apply keeps_raise | apply keeps_get | apply keeps_emits
    | apply keeps_emit | apply keeps_orraise
    | apply keeps_modify; intros; reflexivity
    | apply never_ret | apply never_raise | apply never_get | apply never_modify
    | apply never_orraise
    | apply never_emits; reflexivity | apply never_emit; reflexivity
    | apply returns_ret | apply returns_get | apply returns_modify
    | apply returns_emits | apply returns_emit ].

Ltac frame_step :=
  first
    [ frame_leaf
    | apply keeps_bind; [|intros]
    | apply keeps_try_except
    | apply never_bind; [|intros]
    | apply never_try_except
    | apply returns_bind; [|intros]
    | apply returns_try_except
    | match goal with
      | |- keeps _ (if ?b then _ else _) => destruct b
      | |- never _ (if ?b then _ else _) => destruct b
      | |- returns (if ?b then _ else _) => destruct b
      | |- keeps _ (match ?x with _ => _ end) => destruct x
      | |- never _ (match ?x with _ => _ end) => destruct x
      | |- returns (match ?x with _ => _ end) => destruct x
      end ].

Ltac frame := repeat frame_step.

(** Symbolic execution of the monad's own operations; calls stay folded. *)
Ltac exec :=
  cbv beta iota
      delta [bind try_except ret raise get modify emit emits print orraise wait];
  cbn [res final emitted].

(** Bring concatenations of event lists to one shape. *)
Ltac flatten :=
  cbn [app]; rewrite ?app_nil_r; rewrite <- ?app_assoc; cbn [app].

(** The same, trying the lemmas [known] about called functions before a
    call is opened. *)
Ltac frame_with known := repeat first [ known | frame_step ].

(** ** Frames of the controller's functions *)

Section ControllerFrames.
Variable backend : nat -> request -> http_result.

Lemma never_http P r : P (Request r) = false -> never P (http backend r).
Proof.
  intros H s. unfold http. destruct (backend (nreq s) r); simpl; rewrite H; reflexivity.
Qed.

(** The reporting calls never raise: whatever goes wrong is caught. *)
Lemma returns_report r k : returns (report backend r k).
Proof. unfold report. apply returns_try_except. frame. Qed.

Lemma report_result r k s : res (report backend r k s) = Ok tt.
Proof.
  pose proof (returns_report r k s) as H.
  destruct (res (report backend r k s)) as [[]|]; [reflexivity|contradiction].
Qed.

Lemma report_run r k s :
  report backend r k s =
    mkOut (Ok tt) (final (report backend r k s)) (emitted (report backend r k s)).
Proof.
  pose proof (report_result r k s) as H.
  destruct (report backend r k s) as [r0 s0 e0]. simpl in H. subst. reflexivity.
Qed.

Lemma addRobotLog_run jobId battery status x y message s :
  addRobotLog backend jobId battery status x y message s =
    mkOut (Ok tt) (final (addRobotLog backend jobId battery status x y message s))
          (emitted (addRobotLog backend jobId battery status x y message s)).
Proof. apply report_run. Qed.

Lemma never_poll_report r k :
  is_poll (Request r) = false ->
  (forall body, never is_poll (k body)) ->
  never is_poll (report backend r k).
Proof.
  intros Hr Hk. unfold report.
  frame_with ltac:(first [ apply never_http; exact Hr | apply Hk ]).
Qed.

Lemma requests_of_app es es' :
  requests_of (es ++ es') = requests_of es ++ requests_of es'.
Proof.
  induction es as [|e es IH]; simpl; [reflexivity|].
  destruct e; simpl; rewrite ?IH; reflexivity.
Qed.

(** A reporting call sends exactly its one request. *)
Lemma requests_of_report r k s :
  (forall body s', requests_of (emitted (k body s')) = []) ->
  requests_of (emitted (report backend r k s)) = [r].
Proof.
  intros Hk. unfold report, try_except, bind, http. simpl.
  destruct (backend (nreq s) r) as [|body]; simpl; [reflexivity|].
  destruct (py_getitem body "success") as [v|]; simpl; [|reflexivity].
  destruct (truthy v); simpl; [|reflexivity].
  pose proof (Hk body (set_nreq (S (nreq s)) s)) as H.
  destruct (k body (set_nreq (S (nreq s)) s)) as [[[]|] s2 es2]; simpl in *;
    rewrite ?requests_of_app, H; reflexivity.
Qed.

Lemma requests_of_print_backend_message body s :
  requests_of (emitted (print_backend_message body s)) = [].
Proof.
  unfold print_backend_message, bind, orraise.
  destruct (py_getitem body "message"); reflexivity.
Qed.

Section Field.
Context {F : Type} (f : state -> F).
Hypothesis f_nreq : forall n s, f (set_nreq n s) = f s.

Lemma keeps_http r : keeps f (http backend r).
Proof.
  intros s. unfold http. destruct (backend (nreq s) r); simpl; apply f_nreq.
Qed.

Lemma keeps_report r k :
  (forall body, keeps f (k body)) -> keeps f (report backend r k).
Proof.
  intros Hk. unfold report.
  frame_with ltac:(first [ apply keeps_http | apply Hk ]).
Qed.

Lemma keeps_print_backend_message body : keeps f (print_backend_message body).
Proof. unfold print_backend_message, print. frame. Qed.

Lemma keeps_addRobotLog jobId battery status x y message :
  keeps f (addRobotLog backend jobId battery status x y message).
Proof. apply keeps_report. intros. apply keeps_print_backend_message. Qed.

Lemma keeps_updateJobTime isStart jobId :
  keeps f (updateJobTime backend isStart jobId).
Proof. apply keeps_report. intros. unfold print. frame. Qed.

Lemma keeps_update_robot_availability status :
  keeps f (update_robot_availability backend status).
Proof. apply keeps_report. intros. apply keeps_print_backend_message. Qed.

Lemma keeps_update_robot_battery n :
  keeps f (update_robot_battery backend n).
Proof. apply keeps_report. intros. apply keeps_print_backend_message. Qed.

Lemma keeps_pick_can_from_slot id : keeps f (pick_can_from_slot id).
Proof.
  unfold pick_can_from_slot, grip_drop_and_return, stop, reset_arm_and_fingers,
    set_fingers, wait, print.
  frame.
Qed.

Hypothesis f_shelves : forall v s, f (set_shelves v s) = f s.

Lemma keeps_mark_slot_unavailable id : keeps f (mark_slot_unavailable backend id).
Proof.
  unfold mark_slot_unavailable, print.
  frame_with ltac:(first [ apply keeps_http
                         | apply keeps_modify; intros; apply f_shelves ]).
Qed.

Lemma keeps_pick_loop available_slots indices :
  keeps f (pick_loop backend available_slots indices).
Proof.
  induction indices as [|i rest IH]; simpl; [apply keeps_ret|].
  destruct (available_slots !! i); unfold print;
    frame_with ltac:(first [ apply keeps_pick_can_from_slot
                           | apply keeps_mark_slot_unavailable
                           | exact IH ]).
Qed.

Lemma keeps_pick_can_quantity quantity x y :
  keeps f (pick_can_quantity backend quantity x y).
Proof.
  unfold pick_can_quantity, get_available_slots, print.
  frame_with ltac:(first [ apply keeps_addRobotLog | apply keeps_pick_loop ]).
Qed.

End Field.

Lemma never_poll_print_backend_message body :
  never is_poll (print_backend_message body).
Proof. unfold print_backend_message, print. frame. Qed.

Lemma never_poll_addRobotLog jobId battery status x y message :
  never is_poll (addRobotLog backend jobId battery status x y message).
Proof.
  apply never_poll_report; [reflexivity|].
  intros. apply never_poll_print_backend_message.
Qed.

Lemma never_poll_pick_can_from_slot id : never is_poll (pick_can_from_slot id).
Proof.
  unfold pick_can_from_slot, grip_drop_and_return, stop, reset_arm_and_fingers,
    set_fingers, wait, print.
  frame.
Qed.

Lemma never_poll_mark_slot_unavailable id :
  never is_poll (mark_slot_unavailable backend id).
Proof.
  unfold mark_slot_unavailable, print.
  frame_with ltac:(apply never_http; reflexivity).
Qed.

Lemma never_poll_pick_loop available_slots indices :
  never is_poll (pick_loop backend available_slots indices).
Proof.
  induction indices as [|i rest IH]; simpl; [apply never_ret|].
  destruct (available_slots !! i); unfold print;
    frame_with ltac:(first [ apply never_poll_pick_can_from_slot
                           | apply never_poll_mark_slot_unavailable
                           | exact IH ]).
Qed.

Lemma never_poll_pick_can_quantity quantity x y :
  never is_poll (pick_can_quantity backend quantity x y).
Proof.
  unfold pick_can_quantity, get_available_slots, print.
  frame_with ltac:(first [ apply never_poll_addRobotLog
                         | apply never_poll_pick_loop ]).
Qed.

Lemma returns_pick_can_from_slot id : returns (pick_can_from_slot id).
Proof.
  unfold pick_can_from_slot, grip_drop_and_return, stop, reset_arm_and_fingers,
    set_fingers, wait, print.
  frame.
Qed.

End ControllerFrames.

(** ** Pick sequencer: properties *)

Lemma picks_of_app es es' : picks_of (es ++ es') = picks_of es ++ picks_of es'.
Proof.
  induction es as [|e es IH]; simpl; [reflexivity|].
  destruct e as [| | | | | |m]; simpl; rewrite ?IH; try reflexivity.
  destruct m; simpl; rewrite ?IH; reflexivity.
Qed.

Lemma slot_updates_of_app es es' :
  slot_updates_of (es ++ es') = slot_updates_of es ++ slot_updates_of es'.
Proof.
  induction es as [|e es IH]; simpl; [reflexivity|].
  destruct e as [| | | | |r|]; simpl; rewrite ?IH; try reflexivity.
  destruct r; simpl; rewrite ?IH; reflexivity.
Qed.

(** A pick on a slot other than 2 and 4, in full. *)
Lemma pick_can_from_slot_undefined id s :
  id <> 2%Z -> id <> 4%Z ->
  pick_can_from_slot id s =
    mkOut (Ok tt) s
      (stop_events ++ reset_events ++
       [Wait 2.0;
        Printed (if ((id =? 1) || (id =? 3))%Z then SlotNotImplemented id
               else InvalidSlot id)]).
Proof.
  intros H2 H4. unfold pick_can_from_slot.
  apply Z.eqb_neq in H2, H4. rewrite H2, H4.
  destruct (id =? 1)%Z; [reflexivity|].
  destruct (id =? 3)%Z; reflexivity.
Qed.

Lemma pick_can_from_slot_final id s : final (pick_can_from_slot id s) = s.
Proof.
  unfold pick_can_from_slot.
  destruct (id =? 2)%Z; [reflexivity|].
  destruct (id =? 4)%Z; [reflexivity|].
  destruct (id =? 1)%Z; [reflexivity|].
  destruct (id =? 3)%Z; reflexivity.
Qed.

Lemma pick_can_from_slot_result id s : res (pick_can_from_slot id s) = Ok tt.
Proof.
  pose proof (returns_pick_can_from_slot id s) as H.
  destruct (res (pick_can_from_slot id s)) as [[]|]; [reflexivity|contradiction].
Qed.

Lemma pick_can_from_slot_quiet id s :
  picks_of (emitted (pick_can_from_slot id s)) = [] /\
  slot_updates_of (emitted (pick_can_from_slot id s)) = [].
Proof.
  unfold pick_can_from_slot.
  destruct (id =? 2)%Z; [split; reflexivity|].
  destruct (id =? 4)%Z; [split; reflexivity|].
  destruct (id =? 1)%Z; [split; reflexivity|].
  destruct (id =? 3)%Z; split; reflexivity.
Qed.

Lemma commands_of_app es es' :
  commands_of (es ++ es') = commands_of es ++ commands_of es'.
Proof. apply List.filter_app. Qed.

(** The commands of a pick, slot by slot. *)
Lemma commands_of_pick_can_from_slot id s :
  commands_of (emitted (pick_can_from_slot id s)) = slot_commands id.
Proof.
  unfold pick_can_from_slot, slot_commands.
  destruct (id =? 2)%Z; [reflexivity|].
  destruct (id =? 4)%Z; [reflexivity|].
  destruct (id =? 1)%Z; [reflexivity|].
  destruct (id =? 3)%Z; reflexivity.
Qed.

Section PickSequencer.
Variable backend : nat -> request -> http_result.

(** On every path [mark_slot_unavailable] commands one thing: the update
    request for its slot. *)
Lemma commands_of_mark_slot_unavailable id s :
  commands_of (emitted (mark_slot_unavailable backend id s)) =
    [Request (PatchSlotAvailability "can_shelf" id false)].
Proof.
  rewrite mark_slot_unavailable_paths. simpl.
  destruct (backend (nreq s) _) as [|body]; [reflexivity|].
  destruct (reports_success (HttpJson body)).
  - destruct (shelves s !! "can_shelf") as [slots|]; [|reflexivity].
    destruct (mark_first id slots); reflexivity.
  - destruct (py_get body "success"); reflexivity.
Qed.

(** On every path [addRobotLog] commands one thing: its request. *)
Lemma commands_of_addRobotLog jobId battery status x y message s :
  commands_of (emitted (addRobotLog backend jobId battery status x y message s)) =
    [Request (PostRobotLog jobId battery status x y message)].
Proof.
  unfold addRobotLog, report, try_except, bind, http, print_backend_message,
    orraise, print, emit, ret, raise. simpl.
  destruct (backend (nreq s) _) as [|body]; simpl; [reflexivity|].
  destruct (py_getitem body "success") as [v|]; simpl; [|reflexivity].
  destruct (truthy v); simpl; [|reflexivity].
  destruct (py_getitem body "message"); reflexivity.
Qed.

(** One iteration of the batch loop: the pick on the slot, then the
    inventory update for that same slot, whatever the pick did. *)
Lemma pick_loop_step available_slots i rest id s :
  available_slots !! i = Some id ->
  pick_loop backend available_slots (i :: rest) s =
    let om := mark_slot_unavailable backend id s in
    let pre := Printed (PickingCan (S i) id) :: emitted (pick_can_from_slot id s) in
    match res om with
    | Ok _ =>
        let o := pick_loop backend available_slots rest (final om) in
        mkOut (res o) (final o) (pre ++ emitted om ++ emitted o)
    | Raise => mkOut Raise (final om) (pre ++ emitted om)
    end.
Proof.
  intros Hi. simpl. rewrite Hi.
  rewrite bind_run. simpl.
  rewrite bind_run. rewrite pick_can_from_slot_result, pick_can_from_slot_final.
  rewrite bind_run.
  destruct (res (mark_slot_unavailable backend id s)); simpl;
    rewrite <- ?app_assoc; reflexivity.
Qed.

Lemma mark_slot_unavailable_trace id s :
  picks_of (emitted (mark_slot_unavailable backend id s)) = [] /\
  slot_updates_of (emitted (mark_slot_unavailable backend id s)) = [id].
Proof.
  rewrite mark_slot_unavailable_paths. simpl.
  destruct (backend (nreq s) _) as [|body]; [split; reflexivity|].
  destruct (reports_success (HttpJson body)).
  - destruct (shelves s !! "can_shelf") as [slots|]; [|split; reflexivity].
    destruct (mark_first id slots); split; reflexivity.
  - destruct (py_get body "success"); split; reflexivity.
Qed.

Lemma addRobotLog_trace jobId battery status x y message s :
  picks_of (emitted (addRobotLog backend jobId battery status x y message s)) = [] /\
  slot_updates_of (emitted (addRobotLog backend jobId battery status x y message s)) = [].
Proof.
  unfold addRobotLog, report, try_except, bind, http, print_backend_message,
    orraise, print, emit, ret, raise. simpl.
  destruct (backend (nreq s) _) as [|body]; simpl; [split; reflexivity|].
  destruct (py_getitem body "success") as [v|]; simpl; [|split; reflexivity].
  destruct (truthy v); simpl; [|split; reflexivity].
  destruct (py_getitem body "message"); simpl; split; reflexivity.
Qed.

Lemma mark_slot_unavailable_returns id s :
  answers_slot_updates backend -> res (mark_slot_unavailable backend id s) <> Raise.
Proof.
  intros Ha. rewrite mark_slot_unavailable_paths. simpl.
  specialize (Ha (nreq s) id).
  destruct (backend (nreq s) _) as [|body]; [contradiction|].
  destruct (reports_success (HttpJson body)).
  - destruct (shelves s !! "can_shelf") as [slots|]; [|discriminate].
    destruct (mark_first id slots); discriminate.
  - destruct (py_get body "success"); discriminate.
Qed.

(** The batch loop over [n] indices from [i], all within the list: one pick
    and one inventory update per listed slot, in list order. *)
Lemma pick_loop_in_range available_slots :
  answers_slot_updates backend ->
  forall n i s,
    (i + n <= length available_slots)%nat ->
    let o := pick_loop backend available_slots (seq i n) s in
    res o = Ok tt /\
    picks_of (emitted o) = take n (drop i available_slots) /\
    slot_updates_of (emitted o) = take n (drop i available_slots).
Proof.
  intros Ha n. induction n as [|n IH]; intros i s Hlen.
  - simpl. rewrite !take_0. auto.
  - destruct (available_slots !! i) as [id|] eqn:Hi.
    2:{ apply lookup_ge_None in Hi. lia. }
    cbn zeta. change (seq i (S n)) with (i :: seq (S i) n).
    rewrite (pick_loop_step _ _ _ _ _ Hi). cbn zeta.
    destruct (res (mark_slot_unavailable backend id s)) eqn:Hm.
    2:{ exfalso. exact (mark_slot_unavailable_returns id s Ha Hm). }
    destruct (IH (S i) (final (mark_slot_unavailable backend id s))) as (Hr & Hp & Hu);
      [lia|].
    destruct (pick_can_from_slot_quiet id s) as (Hp1 & Hu1).
    destruct (mark_slot_unavailable_trace id s) as (Hp2 & Hu2).
    cbn [res emitted].
    rewrite (drop_S _ _ _ Hi). simpl take.
    split; [exact Hr|]. split.
    + rewrite !picks_of_app. cbn [picks_of]. rewrite Hp1, Hp2, Hp. reflexivity.
    + rewrite !slot_updates_of_app. cbn [slot_updates_of].
      rewrite Hu1, Hu2, Hu. reflexivity.
Qed.

(** The commands of the batch loop over [n] indices from [i], all within
    the list: for each listed slot in turn, the commands of its pick and
    then the update request for it. *)
Lemma pick_loop_commands available_slots :
  answers_slot_updates backend ->
  forall n i s,
    (i + n <= length available_slots)%nat ->
    commands_of (emitted (pick_loop backend available_slots (seq i n) s)) =
      flat_map pick_and_update_commands (take n (drop i available_slots)).
Proof.
  intros Ha n. induction n as [|n IH]; intros i s Hlen.
  - rewrite take_0. reflexivity.
  - destruct (available_slots !! i) as [id|] eqn:Hi.
    2:{ apply lookup_ge_None in Hi. lia. }
    change (seq i (S n)) with (i :: seq (S i) n).
    rewrite (pick_loop_step _ _ _ _ _ Hi). cbn zeta.
    destruct (res (mark_slot_unavailable backend id s)) eqn:Hm.
    2:{ exfalso. exact (mark_slot_unavailable_returns id s Ha Hm). }
    cbn [emitted]. rewrite (drop_S _ _ _ Hi). cbn [take flat_map].
    change (Printed (PickingCan (S i) id) :: ?l) with ([Printed (PickingCan (S i) id)] ++ l).
    rewrite !commands_of_app, commands_of_pick_can_from_slot,
      commands_of_mark_slot_unavailable, IH by lia.
    unfold pick_and_update_commands. cbn [commands_of List.filter app].
    rewrite <- app_assoc. reflexivity.
Qed.

End PickSequencer.

Section PickBatch.
Variable backend : nat -> request -> http_result.

(** [pick_can_quantity] on a valid quantity, taken apart into its start
    report, the clamp, the batch loop and the closing report. *)
Lemma pick_can_quantity_run quantity q x y s slots :
  as_int quantity = Some q ->
  (0 < q)%Z ->
  shelves s !! "can_shelf" = Some slots ->
  let available_slots := available_ids slots in
  let short := (Z.of_nat (length available_slots) <? q)%Z in
  let n := if short then Z.of_nat (length available_slots) else q in
  let warning :=
    if short then [Printed (ClampWarning (length available_slots) q)] else [] in
  let start :=
    addRobotLog backend (CURRENT_JOB_ID s) (BATTERY s) "Working" x y
                (Text "Starting pick can sequence") s in
  let o := pick_loop backend available_slots (seq 0 (Z.to_nat n)) (final start) in
  let finish :=
    addRobotLog backend (CURRENT_JOB_ID (final o)) (BATTERY (final o)) "Working"
                x y (Text "Completed picking can operation") (final o) in
  pick_can_quantity backend quantity x y s =
    match res o with
    | Ok _ =>
        mkOut (Ok PNone) (final finish)
              (emitted start ++ warning ++ emitted o ++
               Printed (CompletedPickCan n) :: emitted finish)
    | Raise => mkOut Raise (final o) (emitted start ++ warning ++ emitted o)
    end.
Proof.
  intros Hq Hpos Hc. cbn zeta.
  unfold pick_can_quantity. rewrite Hq.
  destruct (Z.leb_spec q 0) as [|_]; [lia|].
  exec. rewrite addRobotLog_run. exec.
  set (start := addRobotLog backend _ _ _ _ _ _ s).
  assert (Hc1 : shelves (final start) !! "can_shelf" = Some slots).
  { unfold start. rewrite (keeps_addRobotLog backend shelves); [exact Hc|reflexivity]. }
  unfold get_available_slots. exec. rewrite Hc1. exec.
  destruct (Z.of_nat (length (available_ids slots)) <? q)%Z; exec.
  - destruct (pick_loop backend (available_ids slots) _ (final start))
      as [[[]|] s2 e2]; exec; [|flatten; reflexivity].
    rewrite addRobotLog_run. exec. flatten. reflexivity.
  - destruct (pick_loop backend (available_ids slots) _ (final start))
      as [[[]|] s2 e2]; exec; [|flatten; reflexivity].
    rewrite addRobotLog_run. exec. flatten. reflexivity.
Qed.

(** The commands of a batch on a valid quantity with a backend that
    answers: the two logs around one pick and update per slot taken. *)
Lemma pick_can_quantity_commands quantity q x y s slots :
  as_int quantity = Some q ->
  (0 < q)%Z ->
  shelves s !! "can_shelf" = Some slots ->
  answers_slot_updates backend ->
  commands_of (emitted (pick_can_quantity backend quantity x y s)) =
    batch_commands (CURRENT_JOB_ID s) (BATTERY s) x y
      (take (batch_size q (length (available_ids slots))) (available_ids slots)).
Proof.
  intros Hq Hpos Hc Ha.
  rewrite (pick_can_quantity_run quantity q x y s slots Hq Hpos Hc).
  cbn zeta.
  set (start := addRobotLog backend _ _ _ _ _ _ s).
  assert (Hn : Z.to_nat (if (Z.of_nat (length (available_ids slots)) <? q)%Z
                         then Z.of_nat (length (available_ids slots)) else q)
               = batch_size q (length (available_ids slots))).
  { unfold batch_size.
    destruct (Z.ltb_spec (Z.of_nat (length (available_ids slots))) q); f_equal; lia. }
  rewrite Hn.
  assert (Hle : (batch_size q (length (available_ids slots))
                 <= length (available_ids slots))%nat).
  { unfold batch_size. lia. }
  destruct (pick_loop_in_range backend (available_ids slots) Ha
              (batch_size q (length (available_ids slots))) 0%nat (final start))
    as (Hr & _); [lia|].
  pose proof (pick_loop_commands backend (available_ids slots) Ha
                (batch_size q (length (available_ids slots))) 0%nat (final start))
    as Hcmd.
  rewrite drop_0 in Hcmd. specialize (Hcmd ltac:(lia)).
  rewrite Hr. cbn [emitted].
  set (o := pick_loop backend _ _ (final start)) in *.
  assert (Hjob : CURRENT_JOB_ID (final o) = CURRENT_JOB_ID s).
  { unfold o. rewrite (keeps_pick_loop backend CURRENT_JOB_ID) by reflexivity.
    apply (keeps_addRobotLog backend CURRENT_JOB_ID). reflexivity. }
  assert (Hbat : BATTERY (final o) = BATTERY s).
  { unfold o. rewrite (keeps_pick_loop backend BATTERY) by reflexivity.
    apply (keeps_addRobotLog backend BATTERY). reflexivity. }
  rewrite Hjob, Hbat.
  change (Printed (CompletedPickCan ?n) :: ?l)
    with ([Printed (CompletedPickCan n)] ++ l).
  rewrite !commands_of_app, Hcmd, commands_of_addRobotLog.
  rewrite (commands_of_addRobotLog backend _ _ _ _ _ _ s : commands_of (emitted start) = _).
  unfold batch_commands.
  destruct (Z.of_nat (length (available_ids slots)) <? q)%Z; reflexivity.
Qed.

End PickBatch.

(** C2, as amended.  With a positive integer quantity [q] and [a < q]
    available slots, and a backend that answers the slot updates,
    [pick_can_quantity] logs the clamp, runs exactly [a] picks, one per
    available slot in cache order, each followed by the inventory update
    for that slot, raises nothing, and returns [None]: the count [a] is
    printed, not returned.  What the batch commands, from the log of its
    start to the log of its end, is the choreography of each available
    slot in turn, each followed at once by the update request for that
    slot, and nothing else. *)
Theorem pick_can_quantity_clamps (backend : nat -> request -> http_result)
    (quantity : pyval) (q : Z) (x y : float) (s : state) (slots : list slot) :
  as_int quantity = Some q ->
  (0 < q)%Z ->
  shelves s !! "can_shelf" = Some slots ->
  (Z.of_nat (length (available_ids slots)) < q)%Z ->
  answers_slot_updates backend ->
  let a := length (available_ids slots) in
  let o := pick_can_quantity backend quantity x y s in
  res o = Ok PNone /\
  In (Printed (ClampWarning a q)) (emitted o) /\
  picks_of (emitted o) = available_ids slots /\
  slot_updates_of (emitted o) = available_ids slots /\
  length (picks_of (emitted o)) = a /\
  In (Printed (CompletedPickCan (Z.of_nat a))) (emitted o) /\
  commands_of (emitted o) =
    batch_commands (CURRENT_JOB_ID s) (BATTERY s) x y (available_ids slots).
Proof.
  intros Hq Hpos Hc Hshort Ha. cbn zeta.
  assert (Hcmd : commands_of (emitted (pick_can_quantity backend quantity x y s)) =
                 batch_commands (CURRENT_JOB_ID s) (BATTERY s) x y (available_ids slots)).
  { rewrite (pick_can_quantity_commands backend quantity q x y s slots Hq Hpos Hc Ha).
    replace (batch_size q (length (available_ids slots)))
      with (length (available_ids slots)) by (unfold batch_size; lia).
    rewrite firstn_all. reflexivity. }
  revert Hcmd.
  rewrite (pick_can_quantity_run backend quantity q x y s slots Hq Hpos Hc).
  cbn zeta.
  apply Z.ltb_lt in Hshort. rewrite Hshort. rewrite Nat2Z.id.
  set (start := addRobotLog backend _ _ _ _ _ _ s).
  destruct (pick_loop_in_range backend (available_ids slots) Ha
              (length (available_ids slots)) 0%nat (final start))
    as (Hr & Hp & Hu); [lia|].
  rewrite drop_0, firstn_all in Hp, Hu.
  rewrite Hr. cbn [res emitted]. intros Hcmd.
  set (o := pick_loop backend _ _ (final start)) in *.
  set (finish := addRobotLog backend _ _ _ _ _ _ (final o)).
  destruct (addRobotLog_trace backend (CURRENT_JOB_ID s) (BATTERY s) "Working" x y
              (Text "Starting pick can sequence") s) as (Hp1 & Hu1).
  destruct (addRobotLog_trace backend (CURRENT_JOB_ID (final o)) (BATTERY (final o))
              "Working" x y (Text "Completed picking can operation") (final o))
    as (Hp2 & Hu2).
  fold start in Hp1, Hu1. fold finish in Hp2, Hu2.
  assert (Hpicks : picks_of (emitted start ++
                     [Printed (ClampWarning (length (available_ids slots)) q)] ++
                     emitted o ++
                     Printed (CompletedPickCan (Z.of_nat (length (available_ids slots))))
                     :: emitted finish) = available_ids slots).
  { rewrite !picks_of_app. simpl. rewrite Hp1, Hp, Hp2. simpl.
    rewrite app_nil_r. reflexivity. }
  split; [reflexivity|]. split.
  { apply in_or_app. right. left. reflexivity. }
  split; [exact Hpicks|]. split.
  { rewrite !slot_updates_of_app. simpl. rewrite Hu1, Hu, Hu2. simpl.
    rewrite app_nil_r. reflexivity. }
  split; [rewrite Hpicks; reflexivity|].
  split; [|exact Hcmd].
  apply in_or_app. right. apply in_or_app. right. apply in_or_app. right.
  left. reflexivity.
Qed.

Lemma pick_can_quantity_clamps_witness :
  res (pick_can_quantity backend_ok (PInt 3) 0 0 (with_slots [mkSlot 2 true]))
  = Ok PNone /\
  picks_of (emitted (pick_can_quantity backend_ok (PInt 3) 0 0
                       (with_slots [mkSlot 2 true]))) = [2%Z] /\
  commands_of (emitted (pick_can_quantity backend_ok (PInt 3) 0 0
                          (with_slots [mkSlot 2 true])))
  = batch_commands (PInt 0) 100 0 0 [2%Z].
Proof.
  assert (Ha : answers_slot_updates backend_ok) by (intros n id; discriminate).
  destruct (pick_can_quantity_clamps backend_ok (PInt 3) 3 0 0
              (with_slots [mkSlot 2 true]) [mkSlot 2 true]
              eq_refl eq_refl eq_refl eq_refl Ha)
    as (Hr & _ & Hp & _ & _ & _ & Hcmd).
  split; [exact Hr|]. split; [exact Hp|exact Hcmd].
Defined.

(** C2, as stated, fails: no count is returned.  With quantity 3 and one
    available slot the one pick runs, and the call returns [None]. *)
Lemma pick_can_quantity_returns_none :
  ~ (forall (backend : nat -> request -> http_result) quantity q x y s slots,
        as_int quantity = Some q ->
        (0 < q)%Z ->
        shelves s !! "can_shelf" = Some slots ->
        (Z.of_nat (length (available_ids slots)) < q)%Z ->
        let o := pick_can_quantity backend quantity x y s in
        res o = Ok (PInt (Z.of_nat (length (available_ids slots)))) /\
        length (picks_of (emitted o)) = length (available_ids slots)).
Proof.
  intros H.
  destruct (H backend_ok (PInt 3) 3%Z 0%float 0%float (with_slots [mkSlot 2 true])
              [mkSlot 2 true] eq_refl eq_refl eq_refl eq_refl) as (Hr & _).
  vm_compute in Hr. discriminate.
Qed.

(** C4, as amended.  A pick on slot 1 or 3 stops the drive, issues the
    reset that opens every pick, before the dispatch on the slot id (five
    arm joints and two fingers to 0.0), waits, reports the slot as not
    implemented and returns: the reset apart, no joint or gripper command
    is issued, none of the choreography of slot 2 or 4, and the call leaves
    the globals, the inventory included, as they were. *)
Theorem pick_undefined_slot (id : Z) (s : state) :
  id = 1%Z \/ id = 3%Z ->
  pick_can_from_slot id s =
    mkOut (Ok tt) s
          (halt_commands ++ reset_commands ++
           [Wait 2.0; Printed (SlotNotImplemented id)])
  /\ List.filter is_joint_command (emitted (pick_can_from_slot id s)) = reset_commands.
Proof.
  intros Hid.
  assert (Hrun : pick_can_from_slot id s =
                 mkOut (Ok tt) s
                   (halt_commands ++ reset_commands ++
                    [Wait 2.0; Printed (SlotNotImplemented id)])).
  { rewrite pick_can_from_slot_undefined by (destruct Hid; lia).
    destruct Hid as [-> | ->]; reflexivity. }
  split; [exact Hrun|]. rewrite Hrun. reflexivity.
Qed.

Lemma pick_undefined_slot_witness :
  pick_can_from_slot 3 (with_slots [mkSlot 3 true]) =
    mkOut (Ok tt) (with_slots [mkSlot 3 true])
          (halt_commands ++ reset_commands ++
           [Wait 2.0; Printed (SlotNotImplemented 3)])
  /\ List.filter is_joint_command
       (emitted (pick_can_from_slot 3 (with_slots [mkSlot 3 true]))) = reset_commands.
Proof.
  apply (pick_undefined_slot 3 (with_slots [mkSlot 3 true])).
  right. reflexivity.
Defined.

(** C4, as stated, fails: a pick on slot 1 issues joint and gripper
    position commands, those of the reset. *)
Lemma pick_undefined_slot_resets_joints :
  ~ (forall id s,
        id = 1%Z \/ id = 3%Z ->
        List.filter is_joint_command (emitted (pick_can_from_slot id s)) = []).
Proof.
  intros H.
  specialize (H 1%Z (with_slots [mkSlot 1 true]) (or_introl eq_refl)).
  vm_compute in H. discriminate.
Qed.

(** ** Job completion: properties *)

Section Completion.
Variable backend : nat -> request -> http_result.

(** The plan-consumed branch for a job with a non-zero identifier, call by
    call. *)
Lemma complete_job_run x y s :
  py_ne_zero (CURRENT_JOB_ID s) = true ->
  let id := CURRENT_JOB_ID s in
  let o1 := updateJobTime backend false id s in
  let o2 := addRobotLog backend id (BATTERY s) "Free" x y (Text "Completed job!")
                        (final o1) in
  let o3 := update_job_status backend "completed" id (final o2) in
  let o4 := update_robot_availability backend "idle" (final o3) in
  let s5 := set_BATTERY (BATTERY (final o4) - 5) (final o4) in
  let o6 := update_robot_battery backend 5 s5 in
  complete_job backend x y s =
    mkOut (Ok tt)
          (set_JOB_IN_PROGRESS false
             (set_current_waypoint_index 0 (set_waypoints [] (final o6))))
          (stop_events ++ Printed FinalPosition ::
           emitted o1 ++ emitted o2 ++ emitted o3 ++ emitted o4 ++ emitted o6 ++
           [Printed ReadyForNextJob]).
Proof.
  intros Hid. cbn zeta. unfold complete_job, stop. exec. rewrite Hid.
  unfold updateJobTime at 1. rewrite report_run. fold (updateJobTime backend). exec.
  unfold addRobotLog at 1. rewrite report_run. fold (addRobotLog backend). exec.
  unfold update_job_status at 1. rewrite report_run.
  fold (update_job_status backend). exec.
  unfold update_robot_availability at 1. rewrite report_run.
  fold (update_robot_availability backend). exec.
  unfold update_robot_battery at 1. rewrite report_run.
  fold (update_robot_battery backend). exec.
  flatten. reflexivity.
Qed.

Lemma complete_job_without_id x y s :
  py_ne_zero (CURRENT_JOB_ID s) = false ->
  complete_job backend x y s =
    mkOut (Ok tt)
          (set_JOB_IN_PROGRESS false (set_current_waypoint_index 0 (set_waypoints [] s)))
          (stop_events ++ [Printed FinalPosition; Printed ReadyForNextJob]).
Proof.
  intros Hid. unfold complete_job, stop. exec. rewrite Hid. exec.
  flatten. reflexivity.
Qed.

Lemma keeps_update_job_status {F} (f : state -> F) status jobId :
  (forall n s, f (set_nreq n s) = f s) ->
  (forall v s, f (set_CURRENT_JOB_ID v s) = f s) ->
  keeps f (update_job_status backend status jobId).
Proof.
  intros Hn Hj. apply keeps_report; [exact Hn|]. intros body.
  apply keeps_bind; [apply keeps_print_backend_message|].
  intros. apply keeps_modify. intros. apply Hj.
Qed.

Lemma requests_of_complete_job x y s :
  py_ne_zero (CURRENT_JOB_ID s) = true ->
  requests_of (emitted (complete_job backend x y s)) =
    [ PatchJobTime false (CURRENT_JOB_ID s);
      PostRobotLog (CURRENT_JOB_ID s) (BATTERY s) "Free" x y (Text "Completed job!");
      PatchJobStatus "completed" (CURRENT_JOB_ID s);
      PatchRobotAvailability "idle";
      PatchBatteryLevel 5 ].
Proof.
  intros Hid. rewrite (complete_job_run x y s Hid). cbn zeta. cbn [emitted].
  change (stop_events ++ Printed FinalPosition :: ?l)
    with (stop_events ++ [Printed FinalPosition] ++ l).
  rewrite !requests_of_app.
  unfold updateJobTime, addRobotLog, update_job_status, update_robot_availability,
    update_robot_battery.
  rewrite !requests_of_report; try reflexivity.
  - intros body s'. apply requests_of_print_backend_message.
  - intros body s'. apply requests_of_print_backend_message.
  - intros body s'. rewrite bind_run.
    pose proof (requests_of_print_backend_message body s') as H.
    destruct (res (print_backend_message body s')); cbn [emitted];
      rewrite ?requests_of_app, H; reflexivity.
  - intros body s'. apply requests_of_print_backend_message.
Qed.

Lemma battery_after_complete_job x y s :
  py_ne_zero (CURRENT_JOB_ID s) = true ->
  BATTERY (final (complete_job backend x y s)) = (BATTERY s - 5)%Z.
Proof.
  intros Hid. rewrite (complete_job_run x y s Hid). cbn zeta. cbn [final].
  change (BATTERY (set_JOB_IN_PROGRESS false
                     (set_current_waypoint_index 0 (set_waypoints [] ?s'))))
    with (BATTERY s').
  rewrite (keeps_update_robot_battery backend BATTERY) by reflexivity.
  change (BATTERY (set_BATTERY ?b _)) with b.
  rewrite (keeps_update_robot_availability backend BATTERY) by reflexivity.
  rewrite (keeps_update_job_status BATTERY) by reflexivity.
  rewrite (keeps_addRobotLog backend BATTERY) by reflexivity.
  rewrite (keeps_updateJobTime backend BATTERY) by reflexivity.
  reflexivity.
Qed.

End Completion.

(** ** The main loop: properties *)

Section MainLoop.
Variable backend : nat -> request -> http_result.

(** While a job is in progress the poll guard is closed. *)
Lemma poll_if_due_closed i s :
  JOB_IN_PROGRESS s = true -> poll_if_due backend i s = mkOut (Ok tt) s [].
Proof.
  intros H. unfold poll_if_due. rewrite bind_run. cbn [get res final emitted].
  rewrite H, andb_false_r. reflexivity.
Qed.

Lemma tick_active i s :
  JOB_IN_PROGRESS s = true -> tick backend i s = interpret backend i s.
Proof.
  intros H. unfold tick. rewrite bind_unfold, (poll_if_due_closed i s H).
  destruct (interpret backend i s). reflexivity.
Qed.

Lemma interpret_consumed i s :
  plan_consumed s ->
  interpret backend i s = complete_job backend (fst (gps i)) (snd (gps i)) s.
Proof.
  intros (Hlen & Hidx). unfold interpret. exec.
  apply Nat.ltb_lt in Hlen. apply Nat.leb_le in Hidx. rewrite Hlen, Hidx.
  destruct (complete_job backend (fst (gps i)) (snd (gps i)) s). reflexivity.
Qed.

(** Without a plan the waypoint part of a pass does nothing. *)
Lemma interpret_idle i s :
  waypoints s = [] -> interpret backend i s = mkOut (Ok tt) s [].
Proof. intros H. unfold interpret. exec. rewrite H. reflexivity. Qed.

(** With the cursor inside the plan the pass works on the step under it. *)
Lemma interpret_step i s current_waypoint :
  waypoints s !! current_waypoint_index s = Some current_waypoint ->
  interpret backend i s =
    if is_rotating s then continue_rotation i s
    else execute_waypoint backend i current_waypoint s.
Proof.
  intros Hwp. pose proof (lookup_lt_Some _ _ _ Hwp) as Hlt.
  unfold interpret. exec.
  destruct (Nat.ltb_spec 0 (length (waypoints s))); [|lia].
  destruct (Nat.leb_spec (length (waypoints s)) (current_waypoint_index s)); [lia|].
  rewrite Hwp.
  destruct (is_rotating s);
    [destruct (continue_rotation i s)|destruct (execute_waypoint backend i _ s)];
    reflexivity.
Qed.

End MainLoop.

(** C3, as amended.  When the plan of a job in progress with a non-zero
    identifier is consumed, the pass sends the completion reports, lowers
    the local battery level by the constant 5, and reports the battery with
    the value 5, the amount of the decrement, not the new level. *)
Theorem completion_battery (backend : nat -> request -> http_result)
    (i : tick_input) (s : state) :
  JOB_IN_PROGRESS s = true ->
  plan_consumed s ->
  py_ne_zero (CURRENT_JOB_ID s) = true ->
  let o := tick backend i s in
  res o = Ok tt /\
  BATTERY (final o) = (BATTERY s - 5)%Z /\
  battery_reports_of (emitted o) = [5%Z].
Proof.
  intros Hjob Hplan Hid. cbn zeta.
  rewrite (tick_active backend i s Hjob), (interpret_consumed backend i s Hplan).
  split; [rewrite (complete_job_run backend _ _ s Hid); reflexivity|].
  split; [apply battery_after_complete_job; exact Hid|].
  pose proof (requests_of_complete_job backend (fst (gps i)) (snd (gps i)) s Hid) as Hr.
  revert Hr. generalize (emitted (complete_job backend (fst (gps i)) (snd (gps i)) s)).
  intros es Hr.
  assert (Hb : forall es, battery_reports_of es =
                 flat_map (fun r => match r with PatchBatteryLevel v => [v] | _ => [] end)
                          (requests_of es)).
  { clear. induction es as [|e es IH]; simpl; [reflexivity|].
    destruct e as [| | | | |r|]; simpl; try exact IH.
    destruct r; simpl; rewrite IH; reflexivity. }
  rewrite Hb, Hr. reflexivity.
Qed.

Lemma completion_battery_witness :
  BATTERY (final (tick backend_ok (input_at 50) finished_job_state)) = 95%Z /\
  battery_reports_of (emitted (tick backend_ok (input_at 50) finished_job_state))
  = [5%Z].
Proof.
  assert (Hplan : plan_consumed finished_job_state) by (split; simpl; lia).
  destruct (completion_battery backend_ok (input_at 50) finished_job_state
              eq_refl Hplan eq_refl) as (_ & Hb & Hr).
  split; [exact Hb|exact Hr].
Defined.

(** C3, as stated, fails: at the end of a job started at 100 the local
    level is 95 while the value reported to the backend is 5. *)
Lemma completion_reports_decrement_not_level :
  ~ (forall (backend : nat -> request -> http_result) i s,
        JOB_IN_PROGRESS s = true ->
        plan_consumed s ->
        py_ne_zero (CURRENT_JOB_ID s) = true ->
        let o := tick backend i s in
        BATTERY (final o) = (BATTERY s - 5)%Z /\
        battery_reports_of (emitted o) = [BATTERY (final o)]).
Proof.
  intros H.
  assert (Hplan : plan_consumed finished_job_state) by (split; simpl; lia).
  destruct (H backend_ok (input_at 50) finished_job_state eq_refl Hplan eq_refl)
    as (_ & Hr).
  vm_compute in Hr. discriminate.
Qed.

Section Steps.
Variable backend : nat -> request -> http_result.

Lemma keeps_steps {F} (f : state -> F) i :
  outside_steps f ->
  keeps f (continue_rotation i) /\
  forall current_waypoint, keeps f (execute_waypoint backend i current_waypoint).
Proof.
  intros (Hn & Hsh & Hidx & Hrot & Hst & Hdir & Hdur).
  assert (Hadv : keeps f advance).
  { unfold advance. apply keeps_modify. intros. apply Hidx. }
  split; [|intros current_waypoint];
    unfold continue_rotation, execute_waypoint, set_robot_rotation, stop,
      rotate_left, rotate_right, drive_forward, drive_backward, print;
    frame_with ltac:(first
      [ exact Hadv
      | apply keeps_pick_can_quantity; assumption
      | apply keeps_addRobotLog; assumption
      | apply keeps_modify; intros;
        first [ apply Hrot | apply Hst | apply Hdir | apply Hdur ] ]).
Qed.

Lemma never_poll_steps i :
  never is_poll (continue_rotation i) /\
  forall current_waypoint,
    never is_poll (execute_waypoint backend i current_waypoint).
Proof.
  split; [|intros current_waypoint];
    unfold continue_rotation, execute_waypoint, advance, set_robot_rotation, stop,
      rotate_left, rotate_right, drive_forward, drive_backward, print;
    frame_with ltac:(first
      [ apply never_poll_pick_can_quantity
      | apply never_poll_addRobotLog ]).
Qed.

Lemma never_poll_complete_job x y : never is_poll (complete_job backend x y).
Proof.
  unfold complete_job, updateJobTime, update_job_status, update_robot_availability,
    update_robot_battery, stop, print.
  frame_with ltac:(first
    [ apply never_poll_addRobotLog
    | apply never_poll_report;
      [ reflexivity
      | intros; unfold print_backend_message, print; frame ] ]).
Qed.

(** The waypoint part of a pass on a plan that is not consumed keeps what
    the steps do not assign, and never polls. *)
Lemma interpret_unconsumed {F} (f : state -> F) i s :
  outside_steps f ->
  ~ plan_consumed s ->
  f (final (interpret backend i s)) = f s /\
  List.filter is_poll (emitted (interpret backend i s)) = [].
Proof.
  intros Hf Hplan.
  destruct (keeps_steps f i Hf) as (Hrot & Hexec).
  destruct (never_poll_steps i) as (Nrot & Nexec).
  destruct (waypoints s !! current_waypoint_index s) as [wp|] eqn:Hwp.
  - rewrite (interpret_step backend i s wp Hwp).
    destruct (is_rotating s);
      [split; [apply Hrot|apply Nrot]|split; [apply Hexec|apply Nexec]].
  - apply lookup_ge_None in Hwp.
    destruct (waypoints s) as [|w ws] eqn:Hw.
    + rewrite (interpret_idle backend i s Hw). auto.
    + exfalso. apply Hplan. split; rewrite Hw; [simpl; lia|exact Hwp].
Qed.

Lemma tick_guarded i s :
  JOB_IN_PROGRESS s = true -> guarded_pass i s (tick backend i s).
Proof.
  intros Hjob. rewrite (tick_active backend i s Hjob). unfold guarded_pass.
  assert (Hdec : plan_consumed s \/ ~ plan_consumed s).
  { unfold plan_consumed.
    destruct (Nat.ltb_spec 0 (length (waypoints s)));
      destruct (Nat.leb_spec (length (waypoints s)) (current_waypoint_index s));
      first [ left; split; assumption | right; intros []; lia ]. }
  destruct Hdec as [Hplan|Hplan].
  - rewrite (interpret_consumed backend i s Hplan).
    split; [apply never_poll_complete_job|]. right.
    split; [exact Hplan|].
    destruct (py_ne_zero (CURRENT_JOB_ID s)) eqn:Hid.
    + split; [rewrite (complete_job_run backend _ _ s Hid); reflexivity|].
      split; [rewrite (complete_job_run backend _ _ s Hid); reflexivity|].
      apply requests_of_complete_job. exact Hid.
    + rewrite (complete_job_without_id backend _ _ s Hid).
      split; [reflexivity|]. split; reflexivity.
  - assert (Hout : forall {F} (f : state -> F),
               outside_steps f -> f (final (interpret backend i s)) = f s).
    { intros F f Hf. apply (interpret_unconsumed f i s Hf Hplan). }
    split; [apply (interpret_unconsumed JOB_IN_PROGRESS i s); [|exact Hplan]|].
    { repeat split; reflexivity. }
    left. rewrite !Hout by (repeat split; reflexivity). auto.
Qed.

End Steps.

(** The last pass of a run that is granted one more pass. *)
Lemma passes_last (backend : nat -> request -> http_result)
    (inputs : list tick_input) (i : tick_input) (s : state) :
  res (run backend inputs s) = Ok tt ->
  In (final (run backend inputs s), tick backend i (final (run backend inputs s)))
     (passes backend (inputs ++ [i]) s).
Proof.
  revert s. induction inputs as [|j rest IH]; intros s Hres.
  - left. reflexivity.
  - cbn [run] in *. cbn [app passes]. rewrite bind_run in Hres |- *.
    destruct (res (tick backend j s)) as [[]|]; cbn [res final] in *;
      [|discriminate].
    right. apply IH. exact Hres.
Qed.

(** C5, as amended.  In every pass of every run that starts with the
    job-in-progress flag set, no job poll is made; flag, plan, job
    identifier and quantity are left as they are unless the plan is
    consumed, and only then are flag and plan cleared: after the completion
    reports when the recorded job identifier is not 0, and with no request
    sent when it is 0.  So no second job starts while one is active. *)
Theorem job_flag_guard (backend : nat -> request -> http_result)
    (inputs : list tick_input) (s0 : state) :
  Forall (fun p => JOB_IN_PROGRESS (fst p) = true ->
                   exists i, In i inputs /\ snd p = tick backend i (fst p) /\
                             guarded_pass i (fst p) (snd p))
         (passes backend inputs s0).
Proof.
  revert s0. induction inputs as [|i rest IH]; intros s0; simpl; [constructor|].
  constructor.
  - simpl. intros Hjob. exists i. split; [now left|]. split; [reflexivity|].
    apply tick_guarded. exact Hjob.
  - destruct (res (tick backend i s0)); [|constructor].
    eapply List.Forall_impl; [|apply IH].
    intros p H Hjob. destruct (H Hjob) as (j & Hin & Heq & Hg).
    exists j. split; [now right|]. split; assumption.
Qed.

Lemma job_flag_guard_witness :
  List.filter is_poll
    (emitted (tick backend_ok (input_at 50) finished_job_state)) = [] /\
  JOB_IN_PROGRESS (final (tick backend_ok (input_at 50) finished_job_state)) = false.
Proof.
  pose proof (job_flag_guard backend_ok [input_at 50] finished_job_state) as H.
  apply Forall_inv in H. destruct (H eq_refl) as (i & _ & _ & Hpoll & _).
  split; [exact Hpoll|reflexivity].
Defined.

(** C5, as stated, fails: the flag is not cleared only where completion
    reporting has been dispatched.  A job whose [_id] is the number 0 is
    accepted and carried out, and the pass that finds its plan consumed
    clears the flag without sending any request, the test
    [CURRENT_JOB_ID != 0] being false. *)
Lemma job_flag_cleared_without_reports :
  ~ (forall (backend : nat -> request -> http_result) inputs s0,
        Forall (fun p => JOB_IN_PROGRESS (fst p) = true ->
                         JOB_IN_PROGRESS (final (snd p)) = false ->
                         requests_of (emitted (snd p)) <> [])
               (passes backend inputs s0)).
Proof.
  intros H.
  specialize (H backend_assigns_zero (job_zero_inputs ++ [input_at 43])
                (with_slots [mkSlot 2 true])).
  rewrite List.Forall_forall in H.
  assert (Hres : res (run backend_assigns_zero job_zero_inputs
                          (with_slots [mkSlot 2 true])) = Ok tt)
    by (vm_compute; reflexivity).
  specialize (H _ (passes_last backend_assigns_zero job_zero_inputs (input_at 43)
                               (with_slots [mkSlot 2 true]) Hres)).
  cbn [fst snd] in H. apply H; vm_compute; reflexivity.
Qed.

(** ** Job polling: properties *)

Section Polling.
Variable backend : nat -> request -> http_result.

Lemma check_allocated_job_result s : res (check_allocated_job backend s) = Ok tt.
Proof.
  assert (H : returns (check_allocated_job backend)).
  { unfold check_allocated_job. apply returns_try_except. unfold print. frame. }
  specialize (H s).
  destruct (res (check_allocated_job backend s)) as [[]|]; [reflexivity|contradiction].
Qed.

(** A poll that does not end with the flag set has changed nothing but the
    request counter and, when the response offered a job, the stored job
    identifier. *)
Lemma check_allocated_job_failed s :
  JOB_IN_PROGRESS s = false ->
  JOB_IN_PROGRESS (final (check_allocated_job backend s)) = false ->
  final (check_allocated_job backend s) =
    match job_offered (backend (nreq s) GetAssignedJob) with
    | Some id => set_CURRENT_JOB_ID id (set_nreq (S (nreq s)) s)
    | None => set_nreq (S (nreq s)) s
    end.
Proof.
  intros Hjob. unfold check_allocated_job, job_offered, http. exec.
  destruct (backend (nreq s) GetAssignedJob) as [|body]; exec; [reflexivity|].
  destruct (py_getitem body "success") as [success|]; exec; [|reflexivity].
  destruct (truthy success); exec; [|reflexivity].
  destruct (py_getitem body "data") as [data|]; exec; [|reflexivity].
  destruct (py_len data) as [n|]; exec; [|reflexivity].
  destruct (0 <? n)%nat; exec; [|reflexivity].
  destruct (py_getitem data "_id") as [id|]; exec; [|reflexivity].
  destruct (py_getitem data "items") as [job_items|]; exec; [|reflexivity].
  destruct (py_len job_items) as [m|]; exec; [|reflexivity].
  destruct (m =? 1)%nat; exec; [|reflexivity].
  destruct (py_first job_items) as [item|]; exec; [|reflexivity].
  destruct (py_getitem item "name") as [name|]; exec; [|reflexivity].
  destruct (py_eq_str name "Can"); exec; [|reflexivity].
  destruct (py_getitem item "quantity") as [quantity|]; exec; [|reflexivity].
  rewrite addRobotLog_run. exec.
  unfold updateJobTime. rewrite report_run. exec.
  intros H. simpl in H. discriminate.
Qed.

End Polling.

Section PollTiming.
Variable backend : nat -> request -> http_result.

Lemma keeps_last_call_check_allocated_job :
  keeps last_call (check_allocated_job backend).
Proof.
  unfold check_allocated_job, updateJobTime, print.
  frame_with ltac:(first
    [ apply keeps_http; intros; reflexivity
    | apply keeps_addRobotLog; intros; reflexivity
    | apply keeps_report; [intros; reflexivity|intros] ]).
Qed.

Lemma keeps_last_call_interpret i : keeps last_call (interpret backend i).
Proof.
  assert (Hout : outside_steps last_call) by (repeat split; reflexivity).
  destruct (keeps_steps backend last_call i Hout) as (Hrot & Hexec).
  unfold interpret, complete_job, updateJobTime, update_job_status,
    update_robot_availability, update_robot_battery, stop, print.
  frame_with ltac:(first
    [ exact Hrot
    | apply Hexec
    | apply keeps_addRobotLog; intros; reflexivity
    | apply keeps_print_backend_message
    | apply keeps_report; [intros; reflexivity|intros] ]).
Qed.

Lemma never_poll_interpret i : never is_poll (interpret backend i).
Proof.
  destruct (never_poll_steps backend i) as (Nrot & Nexec).
  unfold interpret.
  frame_with ltac:(first
    [ exact Nrot | apply Nexec | apply never_poll_complete_job ]).
Qed.

(** Before the interval has elapsed a pass does not poll and leaves the
    interval timer alone. *)
Lemma tick_not_due j s :
  (10 <=? now j - last_call s)%float = false ->
  List.filter is_poll (emitted (tick backend j s)) = [] /\
  last_call (final (tick backend j s)) = last_call s.
Proof.
  intros Hlt.
  assert (Hpoll : poll_if_due backend j s = mkOut (Ok tt) s []).
  { unfold poll_if_due. rewrite bind_run. cbn [get res final emitted].
    rewrite Hlt. reflexivity. }
  unfold tick. rewrite bind_run, Hpoll. cbn [res final emitted app].
  split; [apply never_poll_interpret|apply keeps_last_call_interpret].
Qed.

Lemma run_not_due inputs :
  forall s,
    Forall (fun j => (10 <=? now j - last_call s)%float = false) inputs ->
    List.filter is_poll (emitted (run backend inputs s)) = [].
Proof.
  induction inputs as [|j rest IH]; intros s Hall; [reflexivity|].
  inversion Hall as [|? ? Hj Hrest]; subst.
  destruct (tick_not_due j s Hj) as (Hp & Hl).
  simpl. rewrite bind_run.
  destruct (res (tick backend j s)); cbn [res final emitted]; [|exact Hp].
  rewrite List.filter_app, Hp. simpl. apply IH.
  rewrite Hl. exact Hrest.
Qed.

(** A pass whose poll is due resets the interval timer, whatever the poll
    brings. *)
Lemma tick_due i s :
  JOB_IN_PROGRESS s = false ->
  (10 <=? now i - last_call s)%float = true ->
  poll_if_due backend i s =
    mkOut (Ok tt)
          (set_last_call (now i) (final (check_allocated_job backend s)))
          (Printed CheckingJobs :: emitted (check_allocated_job backend s))
  /\ last_call (final (tick backend i s)) = now i.
Proof.
  intros Hjob Hdue.
  assert (Hpoll : poll_if_due backend i s =
                  mkOut (Ok tt)
                        (set_last_call (now i) (final (check_allocated_job backend s)))
                        (Printed CheckingJobs :: emitted (check_allocated_job backend s))).
  { unfold poll_if_due. rewrite bind_run. cbn [get res final emitted].
    rewrite Hdue, Hjob. cbn [negb andb].
    rewrite !bind_run. cbn [print emit res final emitted].
    rewrite check_allocated_job_result. cbn [modify res final emitted app].
    rewrite app_nil_r. reflexivity. }
  split; [exact Hpoll|].
  unfold tick. rewrite bind_run, Hpoll. cbn [res final emitted].
  rewrite keeps_last_call_interpret. reflexivity.
Qed.

End PollTiming.

(** C7, as amended.  A poll never raises.  A poll that does not end with
    the flag set (request failed, no success, no data, or a job that is not
    a single Can item) builds no plan and leaves flag, quantity, battery
    and every other global as they were, except the request counter and,
    when the response offered a job, the stored job identifier, which is
    overwritten with the offered one before the items are examined.  The
    pass that polls resets the interval timer, and no pass polls again
    before ten time units have gone by. *)
Theorem failed_poll (backend : nat -> request -> http_result)
    (i : tick_input) (s : state) :
  JOB_IN_PROGRESS s = false ->
  (10 <=? now i - last_call s)%float = true ->
  let o := check_allocated_job backend s in
  res o = Ok tt /\
  (JOB_IN_PROGRESS (final o) = false ->
   final o =
     match job_offered (backend (nreq s) GetAssignedJob) with
     | Some id => set_CURRENT_JOB_ID id (set_nreq (S (nreq s)) s)
     | None => set_nreq (S (nreq s)) s
     end) /\
  last_call (final (tick backend i s)) = now i /\
  (forall inputs,
      Forall (fun j => (10 <=? now j - now i)%float = false) inputs ->
      List.filter is_poll
        (emitted (run backend inputs (final (tick backend i s)))) = []).
Proof.
  intros Hjob Hdue. cbn zeta.
  destruct (tick_due backend i s Hjob Hdue) as (_ & Hlast).
  split; [apply check_allocated_job_result|].
  split; [apply check_allocated_job_failed; exact Hjob|].
  split; [exact Hlast|].
  intros inputs Hall. apply run_not_due. rewrite Hlast. exact Hall.
Qed.

Lemma failed_poll_witness :
  final (check_allocated_job backend_down empty_state) = set_nreq 1 empty_state /\
  last_call (final (tick backend_down (input_at 50) empty_state)) = 50%float.
Proof.
  assert (Hdue : (10 <=? now (input_at 50) - last_call empty_state)%float = true).
  { reflexivity. }
  destruct (failed_poll backend_down (input_at 50) empty_state eq_refl Hdue)
    as (_ & Hfinal & Hlast & _).
  split; [exact (Hfinal eq_refl)|exact Hlast].
Defined.

(** C7, as stated, fails: a response that offers a job which is then not
    accepted leaves the flag clear and the plan empty, yet the stored job
    identifier is no longer the one held before. *)
Lemma failed_poll_overwrites_job_id :
  ~ (forall (backend : nat -> request -> http_result) s,
        JOB_IN_PROGRESS s = false ->
        let o := check_allocated_job backend s in
        JOB_IN_PROGRESS (final o) = false ->
        waypoints (final o) = waypoints s /\
        CURRENT_JOB_ID (final o) = CURRENT_JOB_ID s /\
        CAN_QUANTITY (final o) = CAN_QUANTITY s).
Proof.
  intros H.
  destruct (H backend_offers_empty_job empty_state eq_refl eq_refl) as (_ & Hid & _).
  vm_compute in Hid. discriminate.
Qed.

(** ** Waypoint steps: properties *)

(** A value the [:.1f] format accepts can be compared with a float. *)
Lemma float_ge_defined x v t :
  as_num v = Some t -> exists b, float_ge x v = Some b.
Proof.
  destruct v; try discriminate; intros _; eexists; reflexivity.
Qed.

Section Interpreter.
Variable backend : nat -> request -> http_result.

Lemma classify_turn d duration :
  classify (PTuple [PStr (turn_command_of d); duration]) =
  Turn (turn_command_of d) duration.
Proof. destruct d; vm_compute; reflexivity. Qed.

Lemma turn_start i s d duration t :
  is_rotating s = false ->
  waypoints s !! current_waypoint_index s =
    Some (PTuple [PStr (turn_command_of d); duration]) ->
  as_num duration = Some t ->
  interpret backend i s =
    mkOut (Ok tt) (turning d (sim_time i) duration s)
          (Printed (StartingTurn (turn_command_of d)) :: rotate_events d ++ [Printed Pos]).
Proof.
  intros Hrot Hwp Hnum. rewrite (interpret_step backend i s _ Hwp), Hrot.
  unfold execute_waypoint. rewrite classify_turn. exec. rewrite Hnum.
  destruct d; reflexivity.
Qed.

Lemma turn_continue j s d start duration t :
  waypoints s !! current_waypoint_index s <> None ->
  as_num duration = Some t ->
  float_ge (sim_time j - start) duration = Some false ->
  interpret backend j (turning d start duration s) =
    mkOut (Ok tt) (turning d start duration s)
          (rotate_events d ++ [Printed (Rotating (Some d))]).
Proof.
  intros Hwp Hnum Hlt.
  destruct (waypoints s !! current_waypoint_index s) as [wp|] eqn:E; [|contradiction].
  rewrite (interpret_step backend j (turning d start duration s) wp) by exact E.
  cbn [is_rotating turning set_current_rotation_duration set_rotation_start_time
       set_is_rotating].
  unfold continue_rotation. exec.
  cbn [rotation_start_time current_rotation_duration turning
       set_current_rotation_duration set_rotation_start_time].
  rewrite Hlt. exec.
  cbn [rotation_direction set_is_rotating set_rotation_direction].
  destruct d; unfold rotate_left, rotate_right; exec; rewrite Hnum; reflexivity.
Qed.

Lemma turn_complete j s d start duration :
  waypoints s !! current_waypoint_index s <> None ->
  float_ge (sim_time j - start) duration = Some true ->
  interpret backend j (turning d start duration s) =
    mkOut (Ok tt) (turned d duration s)
          ([Printed Pos; Printed (RotationCompleted d (sim_time j - start))] ++ stop_events).
Proof.
  intros Hwp Hle.
  destruct (waypoints s !! current_waypoint_index s) as [wp|] eqn:E; [|contradiction].
  rewrite (interpret_step backend j (turning d start duration s) wp) by exact E.
  cbn [is_rotating turning set_current_rotation_duration set_rotation_start_time
       set_is_rotating].
  unfold continue_rotation. exec.
  cbn [rotation_start_time current_rotation_duration turning
       set_current_rotation_duration set_rotation_start_time].
  rewrite Hle. reflexivity.
Qed.

End Interpreter.

(** C8, as amended.  A timed turn in direction [d], met while a job is in
    progress: the pass that meets it commands the rotation in direction
    [d] and records direction, start time and duration; every later pass
    at which the elapsed time, the difference of the two clock readings as
    the doubles give it, is still below the duration commands the same
    rotation again and changes nothing; the pass at which the elapsed time
    has reached the duration stops the drive, advances the cursor by one
    and clears the rotating flag and the start time, while the recorded
    direction and duration keep their values.  The turn does not complete
    earlier. *)
Theorem timed_turn (backend : nat -> request -> http_result)
    (i : tick_input) (s : state) (d : direction) (duration : pyval) (t : float) :
  JOB_IN_PROGRESS s = true ->
  is_rotating s = false ->
  waypoints s !! current_waypoint_index s =
    Some (PTuple [PStr (turn_command_of d); duration]) ->
  as_num duration = Some t ->
  let s1 := turning d (sim_time i) duration s in
  let rotation_elapsed := fun j => (sim_time j - sim_time i)%float in
  tick backend i s =
    mkOut (Ok tt) s1
          (Printed (StartingTurn (turn_command_of d)) :: turn_commands d ++ [Printed Pos])
  /\ (forall js,
        Forall (fun j => float_ge (rotation_elapsed j) duration = Some false) js ->
        res (run backend js s1) = Ok tt /\
        final (run backend js s1) = s1 /\
        List.filter is_wheel_command (emitted (run backend js s1)) =
          concat (map (fun _ => turn_commands d) js))
  /\ (forall j,
        float_ge (rotation_elapsed j) duration = Some true ->
        tick backend j s1 =
          mkOut (Ok tt) (turned d duration s)
                ([Printed Pos; Printed (RotationCompleted d (rotation_elapsed j))]
                 ++ halt_commands))
  /\ (forall j,
        is_rotating (final (tick backend j s1)) = false ->
        float_ge (rotation_elapsed j) duration = Some true)
  /\ (current_waypoint_index (turned d duration s) = S (current_waypoint_index s) /\
      is_rotating (turned d duration s) = false /\
      rotation_start_time (turned d duration s) = None /\
      rotation_direction (turned d duration s) = Some d /\
      current_rotation_duration (turned d duration s) = duration).
Proof.
  intros Hjob Hrot Hwp Hnum. cbn zeta.
  assert (Hsome : waypoints s !! current_waypoint_index s <> None)
    by (rewrite Hwp; discriminate).
  assert (Hjob1 : JOB_IN_PROGRESS (turning d (sim_time i) duration s) = true)
    by exact Hjob.
  assert (Hcont : forall j,
            float_ge (sim_time j - sim_time i) duration = Some false ->
            tick backend j (turning d (sim_time i) duration s) =
              mkOut (Ok tt) (turning d (sim_time i) duration s)
                    (turn_commands d ++ [Printed (Rotating (Some d))])).
  { intros j Hlt. rewrite (tick_active backend j _ Hjob1).
    rewrite (turn_continue backend j s d (sim_time i) duration t Hsome Hnum Hlt).
    destruct d; reflexivity. }
  split; [|split; [|split; [|split]]].
  - rewrite (tick_active backend i s Hjob).
    rewrite (turn_start backend i s d duration t Hrot Hwp Hnum).
    destruct d; reflexivity.
  - intros js Hall. induction Hall as [|j js Hj _ IH]; [auto|].
    destruct IH as (Hres & Hfin & Hev).
    cbn [run]. rewrite bind_run, (Hcont j Hj). cbn [res final emitted].
    rewrite Hres, Hfin. split; [reflexivity|]. split; [reflexivity|].
    rewrite !List.filter_app, Hev. cbn [map concat].
    rewrite <- app_assoc. f_equal. destruct d; reflexivity.
  - intros j Hle. rewrite (tick_active backend j _ Hjob1).
    rewrite (turn_complete backend j s d (sim_time i) duration Hsome Hle).
    reflexivity.
  - intros j Hdone.
    destruct (float_ge_defined (sim_time j - sim_time i) duration t Hnum)
      as [[|] Hb]; [exact Hb|].
    rewrite (Hcont j Hb) in Hdone. discriminate.
  - repeat split; reflexivity.
Qed.

Lemma timed_turn_witness :
  tick backend_ok (input_at 20) before_turn_state =
    mkOut (Ok tt) (turning right 20 (PFloat 11.0) before_turn_state)
          (Printed (StartingTurn "turn_right") :: turn_commands right ++ [Printed Pos])
  /\ tick backend_ok (input_at 31) (turning right 20 (PFloat 11.0) before_turn_state) =
       mkOut (Ok tt) (turned right (PFloat 11.0) before_turn_state)
             ([Printed Pos; Printed (RotationCompleted right (31 - 20))]
              ++ halt_commands).
Proof.
  destruct (timed_turn backend_ok (input_at 20) before_turn_state right
              (PFloat 11.0) 11.0 eq_refl eq_refl eq_refl eq_refl)
    as (Hstart & _ & Hdone & _).
  split; [exact Hstart|].
  apply (Hdone (input_at 31)). reflexivity.
Defined.

(** C8, as stated, fails: the rotation sub-state is not cleared when the
    turn completes.  Of the four variables the turn has set, the loop
    resets the rotating flag and the start time; the direction and the
    duration of the completed turn stay in the globals. *)
Lemma timed_turn_leaves_direction :
  ~ (forall (backend : nat -> request -> http_result) i j s d duration t,
        JOB_IN_PROGRESS s = true ->
        is_rotating s = false ->
        waypoints s !! current_waypoint_index s =
          Some (PTuple [PStr (turn_command_of d); duration]) ->
        as_num duration = Some t ->
        float_ge (sim_time j - sim_time i) duration = Some true ->
        let s2 := final (tick backend j (final (tick backend i s))) in
        is_rotating s2 = is_rotating empty_state /\
        rotation_start_time s2 = rotation_start_time empty_state /\
        rotation_direction s2 = rotation_direction empty_state /\
        current_rotation_duration s2 = current_rotation_duration empty_state).
Proof.
  intros H.
  destruct (H backend_ok (input_at 20) (input_at 31) before_turn_state right
              (PFloat 11.0) 11.0%float eq_refl eq_refl eq_refl eq_refl eq_refl)
    as (_ & _ & Hdir & _).
  vm_compute in Hdir. discriminate.
Qed.

(** C6, as amended.  In the controller, while a job is in progress and no
    rotation is under way, a step that passes none of the shape tests is
    reported as invalid and the cursor advances by exactly one in that
    pass; no drive command is issued and nothing else changes.  A
    three-element step with numeric target that is out of tolerance and
    whose movement type is neither forward nor backward is reported, the
    drive is stopped and the cursor advances by one.  The fallback of the
    variant controller behaves as the controller's. *)
Theorem unrecognized_step (i : tick_input) (current_waypoint : pyval) :
  (forall (backend : nat -> request -> http_result) (s : state),
      JOB_IN_PROGRESS s = true ->
      is_rotating s = false ->
      waypoints s !! current_waypoint_index s = Some current_waypoint ->
      (classify current_waypoint = Unrecognized ->
       tick backend i s =
         mkOut (Ok tt)
               (set_current_waypoint_index (S (current_waypoint_index s)) s)
               [Printed (InvalidWaypoint (current_waypoint_index s) current_waypoint);
                Printed Pos])
      /\
      (forall target_x target_y movement_type x y,
          classify current_waypoint = Movement target_x target_y movement_type ->
          as_num target_x = Some x ->
          as_num target_y = Some y ->
          within_tolerance (fst (gps i), snd (gps i)) (x, y) = Some false ->
          py_eq_str movement_type "forward" = false ->
          py_eq_str movement_type "backward" = false ->
          tick backend i s =
            mkOut (Ok tt)
                  (set_current_waypoint_index (S (current_waypoint_index s)) s)
                  (Printed (UnknownMovement (S (current_waypoint_index s)))
                   :: stop_events)))
  /\
  (forall s : state,
      is_rotating s = false ->
      waypoints s !! current_waypoint_index s = Some current_waypoint ->
      MultipleQuantityPicking.classify current_waypoint
        = MultipleQuantityPicking.Unrecognized ->
      MultipleQuantityPicking.tick i s =
        mkOut (Ok true)
              (set_current_waypoint_index (S (current_waypoint_index s)) s)
              [Printed (InvalidWaypoint (current_waypoint_index s) current_waypoint);
               Printed Pos]).
Proof.
  split.
  - intros backend s Hjob Hrot Hwp.
    rewrite (tick_active backend i s Hjob).
    rewrite (interpret_step backend i s _ Hwp), Hrot.
    unfold execute_waypoint. split.
    + intros ->. reflexivity.
    + intros target_x target_y movement_type x y -> Hx Hy Htol Hf Hb.
      unfold stop. exec. rewrite Hx, Hy. exec. rewrite Htol. exec.
      rewrite Hf, Hb. reflexivity.
  - intros s Hrot Hwp Hshape.
    pose proof (lookup_lt_Some _ _ _ Hwp) as Hlt.
    unfold MultipleQuantityPicking.tick. exec.
    destruct (Nat.leb_spec (length (waypoints s)) (current_waypoint_index s)); [lia|].
    rewrite Hwp, Hrot.
    unfold MultipleQuantityPicking.execute_waypoint. rewrite Hshape.
    reflexivity.
Qed.

Lemma unrecognized_step_witness :
  tick backend_ok (input_at 20) malformed_step_state =
    mkOut (Ok tt) (set_current_waypoint_index 1 malformed_step_state)
          [Printed (InvalidWaypoint 0 (PStr "garbage")); Printed Pos]
  /\ MultipleQuantityPicking.tick (input_at 20) malformed_step_state =
       mkOut (Ok true) (set_current_waypoint_index 1 malformed_step_state)
             [Printed (InvalidWaypoint 0 (PStr "garbage")); Printed Pos].
Proof.
  destruct (unrecognized_step (input_at 20) (PStr "garbage")) as (Hc & Hv).
  split.
  - destruct (Hc backend_ok malformed_step_state eq_refl eq_refl eq_refl) as (H & _).
    exact (H eq_refl).
  - exact (Hv malformed_step_state eq_refl eq_refl eq_refl).
Defined.

(** C6, as stated, fails: the pass that skips an unrecognized step issues no
    stop command, in the controller and in the variant alike. *)
Lemma unrecognized_step_not_stopped :
  ~ (forall (backend : nat -> request -> http_result) i s current_waypoint,
        JOB_IN_PROGRESS s = true ->
        is_rotating s = false ->
        waypoints s !! current_waypoint_index s = Some current_waypoint ->
        classify current_waypoint = Unrecognized ->
        let o := tick backend i s in
        (forall e, In e stop_events -> In e (emitted o)) /\
        current_waypoint_index (final o) = S (current_waypoint_index s))
  /\
  ~ (forall i s current_waypoint,
        is_rotating s = false ->
        waypoints s !! current_waypoint_index s = Some current_waypoint ->
        MultipleQuantityPicking.classify current_waypoint
          = MultipleQuantityPicking.Unrecognized ->
        let o := MultipleQuantityPicking.tick i s in
        (forall e, In e stop_events -> In e (emitted o)) /\
        current_waypoint_index (final o) = S (current_waypoint_index s)).
Proof.
  split; intros H.
  - destruct (H backend_ok (input_at 20) malformed_step_state (PStr "garbage")
                eq_refl eq_refl eq_refl eq_refl) as (Hstop & _).
    specialize (Hstop (SetVelocity 0 0) (or_introl eq_refl)).
    vm_compute in Hstop.
    destruct Hstop as [Hs|[Hs|[]]]; discriminate.
  - destruct (H (input_at 20) malformed_step_state (PStr "garbage")
                eq_refl eq_refl eq_refl) as (Hstop & _).
    specialize (Hstop (SetVelocity 0 0) (or_introl eq_refl)).
    vm_compute in Hstop.
    destruct Hstop as [Hs|[Hs|[]]]; discriminate.
Qed.

(** ** The plan and the flag go together

    The theorems above about passes on a plan assume a job in progress.
    That is the situation of every pass of the controller that has a plan:
    from a start without plan, a plan is only ever present with the flag
    set. *)

Lemma tick_plan_needs_job backend i s :
  plan_needs_job s -> plan_needs_job (final (tick backend i s)).
Proof.
  intros Hinv.
  assert (Hactive : forall s', JOB_IN_PROGRESS s' = true ->
            plan_needs_job (final (interpret backend i s'))).
  { intros s' Hjob. rewrite <- (tick_active backend i s' Hjob).
    destruct (tick_guarded backend i s' Hjob) as (_ & [(Hj & _)|(_ & _ & Hw & _)]).
    - right. exact Hj.
    - left. exact Hw. }
  destruct (JOB_IN_PROGRESS s) eqn:Hjob.
  { rewrite (tick_active backend i s Hjob). apply Hactive. exact Hjob. }
  destruct Hinv as [Hw|Hj]; [|congruence].
  unfold tick. rewrite bind_run. unfold poll_if_due. exec. rewrite Hjob.
  cbn [negb]. rewrite andb_true_r.
  destruct (10 <=? now i - last_call s)%float.
  - pose proof (check_allocated_job_result backend s) as Hres.
    pose proof (check_allocated_job_failed backend s Hjob) as Hfail.
    destruct (check_allocated_job backend s) as [r1 s1 e1].
    cbn [res final emitted] in *. subst r1. exec.
    destruct (JOB_IN_PROGRESS s1) eqn:Hj1.
    + apply Hactive. exact Hj1.
    + rewrite interpret_idle.
      * left. cbn [final]. rewrite (Hfail eq_refl).
        destruct (job_offered _); exact Hw.
      * rewrite (Hfail eq_refl). destruct (job_offered _); exact Hw.
  - exec. rewrite (interpret_idle backend i s Hw). left. exact Hw.
Qed.

Lemma run_plan_needs_job backend inputs :
  forall s, plan_needs_job s -> plan_needs_job (final (run backend inputs s)).
Proof.
  induction inputs as [|i rest IH]; intros s Hinv; [exact Hinv|].
  cbn [run]. rewrite bind_run.
  pose proof (tick_plan_needs_job backend i s Hinv) as Hstep.
  destruct (res (tick backend i s)); cbn [final]; [apply IH|]; exact Hstep.
Qed.

(** ** Scenarios *)

(** Quantity 2 with slots 2 and 4 available: both picked, both marked. *)
Example scenario_two_of_two :
  let o := pick_can_quantity backend_ok (PInt 2) 0 0
             (with_slots [mkSlot 1 false; mkSlot 2 true; mkSlot 3 false; mkSlot 4 true]) in
  res o = Ok PNone /\
  picks_of (emitted o) = [2; 4]%Z /\
  shelves (final o) !! "can_shelf" =
    Some [mkSlot 1 false; mkSlot 2 false; mkSlot 3 false; mkSlot 4 false].
Proof. vm_compute. repeat split; reflexivity. Qed.

(** Quantity 0 or a non-integer quantity: reported, nothing moved. *)
Example scenario_invalid_quantity :
  emitted (pick_can_quantity backend_ok (PInt 0) 0 0 (with_slots [mkSlot 2 true]))
    = [Printed InvalidQuantity] /\
  emitted (pick_can_quantity backend_ok (PFloat 2.0) 0 0 (with_slots [mkSlot 2 true]))
    = [Printed InvalidQuantity].
Proof. split; reflexivity. Qed.

(** A refused slot update leaves the slot available and returns [False]. *)
Example scenario_update_refused :
  let o := mark_slot_unavailable backend_refuses 2 (with_slots [mkSlot 2 true]) in
  res o = Ok false /\ shelves (final o) !! "can_shelf" = Some [mkSlot 2 true].
Proof. vm_compute. split; reflexivity. Qed.

(** The plan built for a job is made of recognized steps only. *)
Example plan_shapes quantity :
  map classify (new_waypoints quantity) =
    [ Movement (PFloat 1.68) (PFloat (-3.06)) (PStr "backward");
      Turn "turn_right" (PFloat 11.0);
      Movement (PFloat 1.93) (PFloat (-0.59)) (PStr "forward");
      PickCan quantity;
      Movement (PFloat 1.83) (PFloat (-3.20)) (PStr "backward");
      Turn "turn_left" (PFloat 3.0);
      Rotation (PInt 0) (PInt 0) (PInt 1) (PInt 0);
      Movement (PFloat 0.70) (PFloat (-3.06)) (PStr "backward");
      Movement (PFloat 3.019) (PFloat (-3.06)) (PStr "forward") ].
Proof. vm_compute. reflexivity. Qed.

(** The variant derives the object type from the command. *)
Example variant_object_type :
  MultipleQuantityPicking.upper
    (MultipleQuantityPicking.remove_all "pick_" "pick_biscuit") = "BISCUIT" /\
  MultipleQuantityPicking.classify (PTuple [PStr "pick_cereal"])
    = MultipleQuantityPicking.PickObject "pick_cereal" /\
  MultipleQuantityPicking.classify (PTuple [PStr "pick_can"])
    = MultipleQuantityPicking.PickCan None.
Proof. vm_compute. repeat split; reflexivity. Qed.

(** With the backend out of reach during a batch pick, the reports are
    caught but the slot update is not: the pass raises and the controller
    stops, the slot still available. *)
Example scenario_backend_down_during_pick :
  let s := set_current_waypoint_index 3
             (set_shelves {[ "can_shelf" := [mkSlot 2 true] ]} before_turn_state) in
  let o := tick backend_down (input_at 40) s in
  res o = Raise /\
  shelves (final o) !! "can_shelf" = Some [mkSlot 2 true] /\
  current_waypoint_index (final o) = 3%nat.
Proof. vm_compute. repeat split; reflexivity. Qed.

(** ** Backend reports: further properties *)

Section Reports.
Variable backend : nat -> request -> http_result.

(** A reporting call whose success branch only prints changes nothing but
    the request counter. *)
Lemma report_final r k s :
  (forall body s', final (k body s') = s') ->
  final (report backend r k s) = set_nreq (S (nreq s)) s.
Proof.
  intros Hk. unfold report, http. exec.
  destruct (backend (nreq s) r) as [|body]; exec; [reflexivity|].
  destruct (py_getitem body "success") as [v|]; exec; [|reflexivity].
  destruct (truthy v); exec; [|reflexivity].
  specialize (Hk body (set_nreq (S (nreq s)) s)).
  destruct (k body (set_nreq (S (nreq s)) s)) as [[[]|] s2 e2];
    exec; exact Hk.
Qed.

Lemma print_backend_message_final body s :
  final (print_backend_message body s) = s.
Proof.
  unfold print_backend_message. exec.
  destruct (py_getitem body "message"); reflexivity.
Qed.

Lemma addRobotLog_final jobId battery status x y message s :
  final (addRobotLog backend jobId battery status x y message s)
  = set_nreq (S (nreq s)) s.
Proof. apply report_final. intros. apply print_backend_message_final. Qed.

Lemma updateJobTime_final isStart jobId s :
  final (updateJobTime backend isStart jobId s) = set_nreq (S (nreq s)) s.
Proof. apply report_final. reflexivity. Qed.

Lemma update_robot_availability_final status s :
  final (update_robot_availability backend status s) = set_nreq (S (nreq s)) s.
Proof. apply report_final. intros. apply print_backend_message_final. Qed.

Lemma update_robot_battery_final n s :
  final (update_robot_battery backend n s) = set_nreq (S (nreq s)) s.
Proof. apply report_final. intros. apply print_backend_message_final. Qed.

Lemma update_job_status_final status jobId s :
  final (update_job_status backend status jobId s) =
    if acknowledged (backend (nreq s) (PatchJobStatus status jobId))
    then set_CURRENT_JOB_ID (PInt 0) (set_nreq (S (nreq s)) s)
    else set_nreq (S (nreq s)) s.
Proof.
  unfold update_job_status, report, http, print_backend_message, acknowledged. exec.
  destruct (backend (nreq s) _) as [|body]; exec; [reflexivity|].
  destruct (py_getitem body "success") as [v|]; exec; [|reflexivity].
  destruct (truthy v); exec.
  - destruct (py_getitem body "message"); reflexivity.
  - destruct (py_getitem body "message"); reflexivity.
Qed.

(** The two reports of an accepted poll, as outcomes. *)
Lemma addRobotLog_sent jobId battery status x y message s :
  addRobotLog backend jobId battery status x y message s =
    mkOut (Ok tt) (set_nreq (S (nreq s)) s)
          (emitted (addRobotLog backend jobId battery status x y message s)).
Proof. rewrite addRobotLog_run at 1. rewrite addRobotLog_final. reflexivity. Qed.

Lemma updateJobTime_sent isStart jobId s :
  updateJobTime backend isStart jobId s =
    mkOut (Ok tt) (set_nreq (S (nreq s)) s)
          (emitted (updateJobTime backend isStart jobId s)).
Proof.
  rewrite <- (updateJobTime_final isStart jobId s).
  unfold updateJobTime. apply report_run.
Qed.

End Reports.

(** X1.  The reporting calls ([addRobotLog], [updateJobTime],
    [update_robot_availability], [update_robot_battery]) never raise,
    whatever the backend does (unreachable, malformed body, no success):
    each sends its one request and leaves every global as it was, the
    request counter apart. *)
Theorem reports_never_raise (backend : nat -> request -> http_result) (s : state)
    (jobId : pyval) (battery : Z) (status : string) (x y : float)
    (message : log_text) (isStart : bool) (count : Z) :
  let sent := set_nreq (S (nreq s)) s in
  let o1 := addRobotLog backend jobId battery status x y message s in
  let o2 := updateJobTime backend isStart jobId s in
  let o3 := update_robot_availability backend status s in
  let o4 := update_robot_battery backend count s in
  (res o1 = Ok tt /\ final o1 = sent /\
   requests_of (emitted o1) = [PostRobotLog jobId battery status x y message]) /\
  (res o2 = Ok tt /\ final o2 = sent /\
   requests_of (emitted o2) = [PatchJobTime isStart jobId]) /\
  (res o3 = Ok tt /\ final o3 = sent /\
   requests_of (emitted o3) = [PatchRobotAvailability status]) /\
  (res o4 = Ok tt /\ final o4 = sent /\
   requests_of (emitted o4) = [PatchBatteryLevel count]).
Proof.
  cbn zeta.
  repeat split;
    first
      [ apply report_result
      | apply addRobotLog_final | apply updateJobTime_final
      | apply update_robot_availability_final | apply update_robot_battery_final
      | apply requests_of_report; intros;
        first [ apply requests_of_print_backend_message | reflexivity ] ].
Qed.

(** X2.  The pass that completes a job clears plan, cursor and flag and has
    sent five requests.  The stored job identifier is reset to [0] exactly
    when the backend acknowledges the status update, the third of those
    requests, with a success flag and a message; otherwise the identifier of
    the completed job stays in place. *)
Theorem completion_resets_job_id (backend : nat -> request -> http_result)
    (i : tick_input) (s : state) :
  JOB_IN_PROGRESS s = true ->
  plan_consumed s ->
  py_ne_zero (CURRENT_JOB_ID s) = true ->
  let o := tick backend i s in
  res o = Ok tt /\
  waypoints (final o) = [] /\
  current_waypoint_index (final o) = 0%nat /\
  JOB_IN_PROGRESS (final o) = false /\
  nreq (final o) = (5 + nreq s)%nat /\
  CURRENT_JOB_ID (final o) =
    if acknowledged (backend (2 + nreq s)%nat
                       (PatchJobStatus "completed" (CURRENT_JOB_ID s)))
    then PInt 0 else CURRENT_JOB_ID s.
Proof.
  intros Hjob Hplan Hid. cbn zeta.
  rewrite (tick_active backend i s Hjob), (interpret_consumed backend i s Hplan).
  rewrite (complete_job_run backend _ _ s Hid). cbn zeta. cbn [res final].
  rewrite update_robot_battery_final, update_robot_availability_final,
    update_job_status_final, addRobotLog_final, updateJobTime_final.
  cbn [nreq set_nreq].
  destruct (acknowledged _); repeat split; reflexivity.
Qed.

Lemma completion_resets_job_id_witness :
  CURRENT_JOB_ID (final (tick backend_ok (input_at 50) finished_job_state)) = PInt 0
  /\ CURRENT_JOB_ID (final (tick backend_down (input_at 50) finished_job_state))
     = PStr "J1".
Proof.
  assert (Hplan : plan_consumed finished_job_state) by (split; simpl; lia).
  split.
  - destruct (completion_resets_job_id backend_ok (input_at 50) finished_job_state
                eq_refl Hplan eq_refl) as (_ & _ & _ & _ & _ & H).
    exact H.
  - destruct (completion_resets_job_id backend_down (input_at 50) finished_job_state
                eq_refl Hplan eq_refl) as (_ & _ & _ & _ & _ & H).
    exact H.
Defined.

(** ** Job polling: further properties *)

Section Acceptance.
Variable backend : nat -> request -> http_result.

(** The poll on a response that makes the controller accept a job. *)
Lemma check_allocated_job_accepted s id quantity :
  job_accepted (backend (nreq s) GetAssignedJob) = Some (id, quantity) ->
  let o := check_allocated_job backend s in
  final o =
    set_waypoints (new_waypoints quantity)
      (set_JOB_IN_PROGRESS true
         (set_nreq (3 + nreq s)
            (set_CAN_QUANTITY quantity (set_CURRENT_JOB_ID id s)))) /\
  requests_of (emitted o) =
    [ GetAssignedJob;
      PostRobotLog id (BATTERY s) "Working" 2.96 (-3.06) (StartingJob quantity);
      PatchJobTime true id ].
Proof.
  unfold job_accepted, job_offered. intros Hacc. cbn zeta.
  unfold check_allocated_job, http. exec.
  destruct (backend (nreq s) GetAssignedJob) as [|body]; [discriminate|]. exec.
  destruct (py_getitem body "success") as [success|]; [|discriminate]. exec.
  destruct (truthy success); [|discriminate]. exec.
  destruct (py_getitem body "data") as [data|]; [|discriminate]. exec.
  destruct (py_len data) as [n|]; [|discriminate]. exec.
  destruct (0 <? n)%nat; [|discriminate]. exec.
  destruct (py_getitem data "_id") as [id'|]; [|discriminate]. exec.
  destruct (py_getitem data "items") as [job_items|]; [|discriminate]. exec.
  destruct (py_len job_items) as [[|[|m]]|]; try discriminate.
  exec. cbn [Nat.eqb].
  destruct (py_first job_items) as [item|]; [|discriminate]. exec.
  destruct (py_getitem item "name") as [name|]; [|discriminate]. exec.
  destruct (py_getitem item "quantity") as [quantity'|]; [|discriminate].
  destruct (py_eq_str name "Can"); [|discriminate].
  injection Hacc as -> ->. exec.
  rewrite addRobotLog_sent. exec.
  rewrite updateJobTime_sent. exec.
  split; [reflexivity|].
  cbn [requests_of]. rewrite !requests_of_app. cbn [requests_of].
  unfold addRobotLog, updateJobTime.
  rewrite !requests_of_report; try reflexivity.
  intros. apply requests_of_print_backend_message.
Qed.

(** A poll that ends with the flag set, from a clear flag, was made on an
    accepting response. *)
Lemma check_allocated_job_flag_set s :
  JOB_IN_PROGRESS s = false ->
  JOB_IN_PROGRESS (final (check_allocated_job backend s)) = true ->
  job_accepted (backend (nreq s) GetAssignedJob) <> None.
Proof.
  intros Hjob. unfold job_accepted, job_offered, check_allocated_job, http. exec.
  assert (Hstay : forall v n, JOB_IN_PROGRESS (set_CURRENT_JOB_ID v (set_nreq n s))
                              <> true)
    by (intros v n; cbn; congruence).
  assert (Hstay' : forall n, JOB_IN_PROGRESS (set_nreq n s) <> true)
    by (intros n; cbn; congruence).
  destruct (backend (nreq s) GetAssignedJob) as [|body]; exec;
    [intros H; destruct (Hstay' _ H)|].
  destruct (py_getitem body "success") as [success|]; exec;
    [|intros H; destruct (Hstay' _ H)].
  destruct (truthy success); exec; [|intros H; destruct (Hstay' _ H)].
  destruct (py_getitem body "data") as [data|]; exec;
    [|intros H; destruct (Hstay' _ H)].
  destruct (py_len data) as [n|]; exec; [|intros H; destruct (Hstay' _ H)].
  destruct (0 <? n)%nat; exec; [|intros H; destruct (Hstay' _ H)].
  destruct (py_getitem data "_id") as [id'|]; exec;
    [|intros H; destruct (Hstay' _ H)].
  destruct (py_getitem data "items") as [job_items|]; exec;
    [|intros H; destruct (Hstay _ _ H)].
  destruct (py_len job_items) as [[|[|m]]|]; exec; cbn [Nat.eqb]; exec;
    try (intros H; destruct (Hstay _ _ H)).
  destruct (py_first job_items) as [item|]; exec;
    [|intros H; destruct (Hstay _ _ H)].
  destruct (py_getitem item "name") as [name|]; exec;
    [|intros H; destruct (Hstay _ _ H)].
  destruct (py_eq_str name "Can"); exec;
    [|intros H; destruct (Hstay _ _ H)].
  destruct (py_getitem item "quantity") as [quantity'|]; exec;
    [discriminate|intros H; destruct (Hstay _ _ H)].
Qed.

End Acceptance.

(** X3.  A poll made with the flag clear ends with the flag set exactly
    when the response offers a job of a single [Can] item.  It then stores
    the job's identifier and quantity, builds the nine-step plan whose pick
    step carries that quantity, and has sent, after the poll itself, the
    start log and the job's start time. *)
Theorem poll_accepts_single_can_job (backend : nat -> request -> http_result)
    (s : state) :
  JOB_IN_PROGRESS s = false ->
  let o := check_allocated_job backend s in
  (JOB_IN_PROGRESS (final o) = true <->
   job_accepted (backend (nreq s) GetAssignedJob) <> None) /\
  (forall id quantity,
      job_accepted (backend (nreq s) GetAssignedJob) = Some (id, quantity) ->
      CURRENT_JOB_ID (final o) = id /\
      CAN_QUANTITY (final o) = quantity /\
      waypoints (final o) = new_waypoints quantity /\
      waypoints (final o) !! 3%nat = Some (PTuple [PStr "pick_can"; quantity]) /\
      requests_of (emitted o) =
        [ GetAssignedJob;
          PostRobotLog id (BATTERY s) "Working" 2.96 (-3.06) (StartingJob quantity);
          PatchJobTime true id ]).
Proof.
  intros Hjob. cbn zeta. split.
  - split.
    + apply check_allocated_job_flag_set. exact Hjob.
    + intros Hacc.
      destruct (job_accepted (backend (nreq s) GetAssignedJob)) as [[id q]|] eqn:E;
        [|contradiction].
      destruct (check_allocated_job_accepted backend s id q E) as (-> & _).
      reflexivity.
  - intros id quantity Hacc.
    destruct (check_allocated_job_accepted backend s id quantity Hacc) as (-> & Hreq).
    repeat split; try reflexivity. exact Hreq.
Qed.

Lemma poll_accepts_single_can_job_witness :
  JOB_IN_PROGRESS (final (check_allocated_job backend_assigns_three empty_state))
  = true /\
  waypoints (final (check_allocated_job backend_assigns_three empty_state))
  = new_waypoints (PInt 3).
Proof.
  destruct (poll_accepts_single_can_job backend_assigns_three empty_state eq_refl)
    as (Hiff & Hacc).
  split.
  - apply Hiff. discriminate.
  - destruct (Hacc (PStr "J9") (PInt 3) eq_refl) as (_ & _ & H & _). exact H.
Defined.

(** ** Waypoint steps: further properties *)

Section StepFacts.
Variable backend : nat -> request -> http_result.

Lemma wheel_commands_addRobotLog jobId battery status x y message s :
  List.filter is_wheel_command
    (emitted (addRobotLog backend jobId battery status x y message s)) = [].
Proof.
  revert s.
  change (never is_wheel_command
            (addRobotLog backend jobId battery status x y message)).
  unfold addRobotLog, report, print_backend_message, print.
  frame_with ltac:(apply never_http; reflexivity).
Qed.

(** A pass on a step, for a job in progress with no rotation under way. *)
Lemma tick_on_step i s current_waypoint :
  JOB_IN_PROGRESS s = true ->
  is_rotating s = false ->
  waypoints s !! current_waypoint_index s = Some current_waypoint ->
  tick backend i s = execute_waypoint backend i current_waypoint s.
Proof.
  intros Hjob Hrot Hwp.
  rewrite (tick_active backend i s Hjob), (interpret_step backend i s _ Hwp), Hrot.
  reflexivity.
Qed.

End StepFacts.



(** X5.  An absolute rotation step, for a job in progress: the pass stops
    the drive and advances the cursor by exactly one whether or not the
    rotation could be applied; the orientation is set only when the rotation
    field is accessible, and the failure is only reported. *)
Theorem rotation_step (backend : nat -> request -> http_result) (i : tick_input)
    (s : state) (current_waypoint rot_x rot_y rot_z rot_angle : pyval)
    (angle : float) :
  JOB_IN_PROGRESS s = true ->
  is_rotating s = false ->
  waypoints s !! current_waypoint_index s = Some current_waypoint ->
  classify current_waypoint = Rotation rot_x rot_y rot_z rot_angle ->
  as_num rot_angle = Some angle ->
  tick backend i s =
    mkOut (Ok tt)
          (set_current_waypoint_index (S (current_waypoint_index s)) s)
          (stop_events ++
           (if rotation_field_ok i
            then [SetSFRotation rot_x rot_y rot_z rot_angle; Printed RotationSet]
            else [Printed RotationFailed]) ++
           [Printed (RotationWaypointDone (rotation_field_ok i))]).
Proof.
  intros Hjob Hrot Hwp Hshape Hangle.
  rewrite (tick_on_step backend i s _ Hjob Hrot Hwp).
  unfold execute_waypoint, set_robot_rotation, stop, advance. rewrite Hshape.
  exec. rewrite Hangle. exec.
  destruct (rotation_field_ok i); reflexivity.
Qed.

Lemma rotation_step_witness :
  current_waypoint_index
    (final (tick backend_ok (mkInput 9 9 (1.83, -3.2)%float false)
              rotation_step_state))
  = 7%nat.
Proof.
  rewrite (rotation_step backend_ok (mkInput 9 9 (1.83, -3.2)%float false)
             rotation_step_state
             (PTuple [PInt 0; PInt 0; PInt 1; PInt 0; PStr "rotation"])
             (PInt 0) (PInt 0) (PInt 1) (PInt 0) 0
             eq_refl eq_refl eq_refl eq_refl eq_refl).
  reflexivity.
Defined.

(** X6.  A step of a recognized shape whose numeric field is not a number
    (the target of a move, the angle of a rotation, the duration of a
    turn) makes the pass raise before any command is issued: the loop ends
    with the cursor still on that step. *)
Theorem step_with_bad_number_raises (backend : nat -> request -> http_result)
    (i : tick_input) (s : state) (current_waypoint : pyval) :
  JOB_IN_PROGRESS s = true ->
  is_rotating s = false ->
  waypoints s !! current_waypoint_index s = Some current_waypoint ->
  match classify current_waypoint with
  | Movement target_x target_y _ => as_num target_x = None \/ as_num target_y = None
  | Rotation _ _ _ rot_angle => as_num rot_angle = None
  | Turn _ duration => as_num duration = None
  | _ => False
  end ->
  tick backend i s = mkOut Raise s [].
Proof.
  intros Hjob Hrot Hwp Hbad.
  rewrite (tick_on_step backend i s _ Hjob Hrot Hwp).
  unfold execute_waypoint.
  destruct (classify current_waypoint) as [q|rx ry rz ra|tx ty mt|c d|];
    try contradiction; exec.
  - rewrite Hbad. reflexivity.
  - destruct Hbad as [Hbad|Hbad].
    + rewrite Hbad. reflexivity.
    + destruct (as_num tx); exec; rewrite ?Hbad; reflexivity.
  - rewrite Hbad. reflexivity.
Qed.

Lemma step_with_bad_number_raises_witness :
  tick backend_ok (input_at 5) bad_target_state = mkOut Raise bad_target_state [].
Proof.
  apply (step_with_bad_number_raises backend_ok (input_at 5) bad_target_state
           (PTuple [PStr "1.68"; PFloat (-3.06); PStr "backward"])
           eq_refl eq_refl eq_refl).
  left. reflexivity.
Defined.

(** ** Invariants of whole runs *)

Section Obeys.
Variable I : state -> list event -> state -> Prop.
Hypothesis I_refl : forall s, I s [] s.
Hypothesis I_trans :
  forall s es1 s1 es2 s2, I s es1 s1 -> I s1 es2 s2 -> I s (es1 ++ es2) s2.

Lemma obeys_ret {A} (a : A) : obeys I (ret a).
Proof. intros s. apply I_refl. Qed.

Lemma obeys_raise {A} : obeys I (@raise A).
Proof. intros s. apply I_refl. Qed.

Lemma obeys_get : obeys I get.
Proof. intros s. apply I_refl. Qed.

Lemma obeys_orraise {A} (o : option A) : obeys I (orraise o).
Proof. destruct o; [apply obeys_ret|apply obeys_raise]. Qed.

Lemma obeys_emits es : (forall s, I s es s) -> obeys I (emits es).
Proof. intros H s. apply H. Qed.

Lemma obeys_emit e : (forall s, I s [e] s) -> obeys I (emit e).
Proof. intros H s. apply H. Qed.

Lemma obeys_modify g : (forall s, I s [] (g s)) -> obeys I (modify g).
Proof. intros H s. apply H. Qed.

Lemma obeys_bind {A B} (m : M A) (k : A -> M B) :
  obeys I m -> (forall a, obeys I (k a)) -> obeys I (bind m k).
Proof.
  intros Hm Hk s. unfold bind. specialize (Hm s).
  destruct (m s) as [[a|] s1 es1]; [|exact Hm].
  specialize (Hk a s1). destruct (k a s1) as [r s2 es2].
  exact (I_trans _ _ _ _ _ Hm Hk).
Qed.

Lemma obeys_try_except {A} (body handler : M A) :
  obeys I body -> obeys I handler -> obeys I (try_except body handler).
Proof.
  intros Hb Hh s. unfold try_except. specialize (Hb s).
  destruct (body s) as [[a|] s1 es1]; [exact Hb|].
  specialize (Hh s1). destruct (handler s1) as [r s2 es2].
  exact (I_trans _ _ _ _ _ Hb Hh).
Qed.

End Obeys.

(** Structural steps of a proof that a computation obeys [I]: [known]
    closes calls, [leaf] the side condition of a primitive effect. *)
Ltac obey_step I R T known leaf :=
  first
    [ known
    | apply (obeys_ret I R) | apply (@obeys_raise I R) | apply (obeys_get I R)
    | apply (obeys_orraise I R)
    | apply (obeys_emits I); intros; leaf
    | apply (obeys_emit I); intros; leaf
    | apply (obeys_modify I); intros; leaf
    | apply (obeys_bind I T); [|intros]
    | apply (obeys_try_except I T)
    | match goal with
      | |- obeys _ (if ?b then _ else _) => destruct b
      | |- obeys _ (match ?x with _ => _ end) => destruct x
      end ].

Ltac obey I R T known leaf := repeat obey_step I R T known leaf.

(** *** The slot cache only shrinks *)

Lemma slot_used_refl sl : slot_used sl sl.
Proof. split; [reflexivity|tauto]. Qed.

Lemma slot_used_trans a b c : slot_used a b -> slot_used b c -> slot_used a c.
Proof. intros [H1 H2] [H3 H4]. split; [congruence|auto]. Qed.

Lemma shelf_used_refl slots : Forall2 slot_used slots slots.
Proof. induction slots; constructor; [apply slot_used_refl|assumption]. Qed.

Lemma shelf_used_trans a :
  forall b c, Forall2 slot_used a b -> Forall2 slot_used b c -> Forall2 slot_used a c.
Proof.
  induction a as [|x a IH]; intros b c Hab Hbc.
  - inversion Hab; subst. inversion Hbc; subst. constructor.
  - inversion Hab; subst. inversion Hbc; subst.
    constructor; [eapply slot_used_trans; eassumption|eapply IH; eassumption].
Qed.

Lemma inventory_shrinks_refl m : inventory_shrinks m m.
Proof. intros name. destruct (m !! name); [apply shelf_used_refl|exact I]. Qed.

Lemma inventory_shrinks_trans a b c :
  inventory_shrinks a b -> inventory_shrinks b c -> inventory_shrinks a c.
Proof.
  intros Hab Hbc name. specialize (Hab name). specialize (Hbc name).
  destruct (a !! name), (b !! name), (c !! name); try contradiction; try exact I.
  eapply shelf_used_trans; eassumption.
Qed.

Lemma mark_first_used id slots slots' :
  mark_first id slots = Some slots' -> Forall2 slot_used slots slots'.
Proof.
  revert slots'. induction slots as [|sl rest IH]; intros slots' H; [discriminate|].
  simpl in H. destruct (slot_id sl =? id)%Z.
  - injection H as <-. constructor; [|apply shelf_used_refl].
    split; [reflexivity|discriminate].
  - destruct (mark_first id rest) as [rest'|]; [|discriminate].
    injection H as <-. constructor; [apply slot_used_refl|apply IH; reflexivity].
Qed.

Lemma shelf_used_ids slots slots' :
  Forall2 slot_used slots slots' -> map slot_id slots' = map slot_id slots.
Proof.
  induction 1 as [|a b l l' [Hid _] _ IH]; [reflexivity|].
  simpl. rewrite Hid, IH. reflexivity.
Qed.

Lemma shelf_used_available slots slots' :
  Forall2 slot_used slots slots' ->
  sublist (available_ids slots') (available_ids slots).
Proof.
  induction 1 as [|a b l l' [Hid Hav] _ IH]; [constructor|].
  simpl. destruct (slot_available b).
  - rewrite (Hav eq_refl), Hid. constructor. exact IH.
  - destruct (slot_available a); [constructor|]; exact IH.
Qed.

Section Inventory.
Variable backend : nat -> request -> http_result.

Lemma cache_same s es s' : shelves s' = shelves s -> cache_shrinks s es s'.
Proof. intros H. unfold cache_shrinks. rewrite H. apply inventory_shrinks_refl. Qed.

Lemma cache_refl s : cache_shrinks s [] s.
Proof. apply cache_same. reflexivity. Qed.

Lemma cache_trans s es1 s1 es2 s2 :
  cache_shrinks s es1 s1 -> cache_shrinks s1 es2 s2 -> cache_shrinks s (es1 ++ es2) s2.
Proof. apply inventory_shrinks_trans. Qed.

Lemma cache_keeps {A} (m : M A) : keeps shelves m -> obeys cache_shrinks m.
Proof. intros H s. apply cache_same, H. Qed.

Ltac cache known :=
  obey cache_shrinks cache_refl cache_trans known ltac:(apply cache_same; reflexivity).

Ltac cache_calls :=
  apply cache_keeps;
  first [ apply keeps_http | apply keeps_addRobotLog | apply keeps_updateJobTime
        | apply keeps_update_robot_availability | apply keeps_update_robot_battery
        | apply keeps_update_job_status | apply keeps_pick_can_from_slot ];
  reflexivity.

Lemma cache_mark_slot_unavailable id :
  obeys cache_shrinks (mark_slot_unavailable backend id).
Proof.
  intros s. rewrite mark_slot_unavailable_paths. cbn zeta.
  destruct (backend (nreq s) _) as [|body]; [apply cache_same; reflexivity|].
  destruct (reports_success (HttpJson body)).
  - destruct (shelves s !! "can_shelf") as [slots|] eqn:Hc;
      [|apply cache_same; reflexivity].
    destruct (mark_first id slots) as [slots'|] eqn:Hm;
      [|apply cache_same; reflexivity].
    unfold cache_shrinks. cbn [final shelves set_shelves set_nreq]. intros name.
    destruct (decide (name = "can_shelf")) as [->|Hne].
    + rewrite Hc, lookup_insert_eq. apply (mark_first_used id), Hm.
    + rewrite lookup_insert_ne by congruence.
      destruct (shelves s !! name); [apply shelf_used_refl|exact I].
  - destruct (py_get body "success"); apply cache_same; reflexivity.
Qed.

Lemma cache_pick_loop available_slots indices :
  obeys cache_shrinks (pick_loop backend available_slots indices).
Proof.
  induction indices as [|i rest IH]; simpl; [apply obeys_ret, cache_refl|].
  unfold print.
  cache ltac:(first [ cache_calls | apply cache_mark_slot_unavailable | exact IH ]).
Qed.

Lemma cache_pick_can_quantity quantity x y :
  obeys cache_shrinks (pick_can_quantity backend quantity x y).
Proof.
  unfold pick_can_quantity, get_available_slots, print.
  cache ltac:(first [ cache_calls | apply cache_pick_loop ]).
Qed.

Lemma cache_check_allocated_job : obeys cache_shrinks (check_allocated_job backend).
Proof.
  unfold check_allocated_job, print. cache ltac:(cache_calls).
Qed.

Lemma cache_complete_job x y : obeys cache_shrinks (complete_job backend x y).
Proof.
  unfold complete_job, stop, print. cache ltac:(cache_calls).
Qed.

Lemma cache_continue_rotation i : obeys cache_shrinks (continue_rotation i).
Proof.
  unfold continue_rotation, stop, advance, rotate_left, rotate_right, print.
  cache ltac:(cache_calls).
Qed.

Lemma cache_execute_waypoint i current_waypoint :
  obeys cache_shrinks (execute_waypoint backend i current_waypoint).
Proof.
  unfold execute_waypoint, set_robot_rotation, stop, advance, rotate_left,
    rotate_right, drive_forward, drive_backward, print.
  cache ltac:(first [ cache_calls | apply cache_pick_can_quantity ]).
Qed.

Lemma cache_tick i : obeys cache_shrinks (tick backend i).
Proof.
  unfold tick, poll_if_due, interpret, print.
  cache ltac:(first [ apply cache_check_allocated_job | apply cache_complete_job
                    | apply cache_continue_rotation | apply cache_execute_waypoint ]).
Qed.

Lemma cache_run inputs : obeys cache_shrinks (run backend inputs).
Proof.
  induction inputs as [|i rest IH]; simpl; [apply obeys_ret, cache_refl|].
  apply (obeys_bind _ cache_trans); [apply cache_tick|intros; exact IH].
Qed.

End Inventory.

(** X7.  The slot cache only shrinks.  Over any run of the main loop, with
    any backend, whether the run ends or raises, every shelf of the cache
    keeps its slots, in the same order and with the same ids, and a slot
    that was unavailable stays unavailable: nothing puts a can back and the
    cache is never loaded again.  So the slots available afterwards are
    among those available before, in the same order. *)
Theorem cache_only_shrinks (backend : nat -> request -> http_result)
    (inputs : list tick_input) (s : state) :
  let s' := final (run backend inputs s) in
  inventory_shrinks (shelves s) (shelves s') /\
  forall slots, shelves s !! "can_shelf" = Some slots ->
    exists slots',
      shelves s' !! "can_shelf" = Some slots' /\
      map slot_id slots' = map slot_id slots /\
      sublist (available_ids slots') (available_ids slots).
Proof.
  cbn zeta. pose proof (cache_run backend inputs s) as H.
  split; [exact H|]. intros slots Hc. specialize (H "can_shelf").
  rewrite Hc in H.
  destruct (shelves (final (run backend inputs s)) !! "can_shelf") as [slots'|];
    [|contradiction].
  exists slots'. split; [reflexivity|]. split.
  - apply shelf_used_ids, H.
  - apply shelf_used_available, H.
Qed.

Lemma cache_only_shrinks_witness :
  exists slots',
    shelves (final (run backend_ok [input_at 5]
                      (pick_step_state (PInt 1) [mkSlot 4 true; mkSlot 2 true])))
      !! "can_shelf" = Some slots' /\
    map slot_id slots' = [4%Z; 2%Z].
Proof.
  destruct (cache_only_shrinks backend_ok [input_at 5]
              (pick_step_state (PInt 1) [mkSlot 4 true; mkSlot 2 true]))
    as (_ & H).
  destruct (H [mkSlot 4 true; mkSlot 2 true] eq_refl) as (slots' & H1 & H2 & _).
  exists slots'. split; [exact H1|exact H2].
Defined.

(** *** The battery level and its reports *)

Lemma battery_reports_of_concat es1 es2 :
  battery_reports_of (es1 ++ es2) = battery_reports_of es1 ++ battery_reports_of es2.
Proof.
  induction es1 as [|e es1 IH]; [reflexivity|].
  destruct e as [| | | | |r|]; simpl; try exact IH.
  destruct r; simpl; rewrite ?IH; reflexivity.
Qed.

Section Battery.
Variable backend : nat -> request -> http_result.

Lemma battery_same s es s' :
  BATTERY s' = BATTERY s -> battery_reports_of es = [] -> battery_accounted s es s'.
Proof.
  intros Hb He. unfold battery_accounted. rewrite He, Hb. split; [constructor|].
  simpl. lia.
Qed.

Lemma battery_refl s : battery_accounted s [] s.
Proof. apply battery_same; reflexivity. Qed.

Lemma battery_trans s es1 s1 es2 s2 :
  battery_accounted s es1 s1 -> battery_accounted s1 es2 s2 ->
  battery_accounted s (es1 ++ es2) s2.
Proof.
  intros [H1 H2] [H3 H4]. unfold battery_accounted.
  rewrite battery_reports_of_concat, length_app. split.
  - apply Forall_app. split; assumption.
  - lia.
Qed.

Ltac battery known :=
  obey battery_accounted battery_refl battery_trans known
       ltac:(apply battery_same; reflexivity).

Lemma battery_http r :
  battery_reports_of [Request r] = [] -> obeys battery_accounted (http backend r).
Proof.
  intros Hr s. unfold http.
  destruct (backend (nreq s) r); apply battery_same; solve [reflexivity|exact Hr].
Qed.

Ltac battery_request := apply battery_http; reflexivity.

Lemma battery_print_backend_message body :
  obeys battery_accounted (print_backend_message body).
Proof. unfold print_backend_message, print. battery ltac:(fail). Qed.

Lemma battery_addRobotLog jobId battery status x y message :
  obeys battery_accounted (addRobotLog backend jobId battery status x y message).
Proof.
  unfold addRobotLog, report, print.
  battery ltac:(first [ battery_request | apply battery_print_backend_message ]).
Qed.

Lemma battery_updateJobTime isStart jobId :
  obeys battery_accounted (updateJobTime backend isStart jobId).
Proof. unfold updateJobTime, report, print. battery ltac:(battery_request). Qed.

Lemma battery_update_job_status status jobId :
  obeys battery_accounted (update_job_status backend status jobId).
Proof.
  unfold update_job_status, report, print.
  battery ltac:(first [ battery_request | apply battery_print_backend_message ]).
Qed.

Lemma battery_update_robot_availability status :
  obeys battery_accounted (update_robot_availability backend status).
Proof.
  unfold update_robot_availability, report, print.
  battery ltac:(first [ battery_request | apply battery_print_backend_message ]).
Qed.

Lemma update_robot_battery_sent n s :
  battery_reports_of (emitted (update_robot_battery backend n s)) = [n] /\
  BATTERY (final (update_robot_battery backend n s)) = BATTERY s.
Proof.
  unfold update_robot_battery, report, http, print_backend_message, print. exec.
  destruct (backend (nreq s) _) as [|body]; exec; [split; reflexivity|].
  destruct (py_getitem body "success") as [v|]; exec; [|split; reflexivity].
  destruct (truthy v); exec; [|split; reflexivity].
  destruct (py_getitem body "message"); split; reflexivity.
Qed.

(** The decrement and its report go together: the report is sent whether
    or not the backend can be reached. *)
Lemma battery_drain :
  obeys battery_accounted
    (modify (fun s => set_BATTERY (BATTERY s - 5) s) ;; update_robot_battery backend 5).
Proof.
  intros s.
  destruct (update_robot_battery_sent 5 (set_BATTERY (BATTERY s - 5) s)) as [He Hb].
  cbv beta iota delta [bind modify].
  destruct (update_robot_battery backend 5 (set_BATTERY (BATTERY s - 5) s))
    as [r s2 es2].
  cbn [emitted final app] in *. unfold battery_accounted. rewrite He, Hb.
  split; [repeat constructor|]. simpl. lia.
Qed.

Ltac battery_calls :=
  first [ battery_request | apply battery_addRobotLog | apply battery_updateJobTime
        | apply battery_update_job_status | apply battery_update_robot_availability
        | apply battery_drain ].

Lemma battery_pick_can_from_slot id : obeys battery_accounted (pick_can_from_slot id).
Proof.
  unfold pick_can_from_slot, grip_drop_and_return, stop, reset_arm_and_fingers,
    set_fingers, wait, print.
  battery ltac:(fail).
Qed.

Lemma battery_mark_slot_unavailable id :
  obeys battery_accounted (mark_slot_unavailable backend id).
Proof. unfold mark_slot_unavailable, print. battery ltac:(battery_calls). Qed.

Lemma battery_pick_loop available_slots indices :
  obeys battery_accounted (pick_loop backend available_slots indices).
Proof.
  induction indices as [|i rest IH]; simpl; [apply obeys_ret, battery_refl|].
  unfold print.
  battery ltac:(first [ apply battery_pick_can_from_slot
                      | apply battery_mark_slot_unavailable | exact IH ]).
Qed.

Lemma battery_pick_can_quantity quantity x y :
  obeys battery_accounted (pick_can_quantity backend quantity x y).
Proof.
  unfold pick_can_quantity, get_available_slots, print.
  battery ltac:(first [ battery_calls | apply battery_pick_loop ]).
Qed.

Lemma battery_check_allocated_job :
  obeys battery_accounted (check_allocated_job backend).
Proof. unfold check_allocated_job, print. battery ltac:(battery_calls). Qed.

Lemma battery_complete_job x y : obeys battery_accounted (complete_job backend x y).
Proof. unfold complete_job, stop, print. battery ltac:(battery_calls). Qed.

Lemma battery_continue_rotation i : obeys battery_accounted (continue_rotation i).
Proof.
  unfold continue_rotation, stop, advance, rotate_left, rotate_right, print.
  battery ltac:(fail).
Qed.

Lemma battery_execute_waypoint i current_waypoint :
  obeys battery_accounted (execute_waypoint backend i current_waypoint).
Proof.
  unfold execute_waypoint, set_robot_rotation, stop, advance, rotate_left,
    rotate_right, drive_forward, drive_backward, print.
  battery ltac:(first [ battery_calls | apply battery_pick_can_quantity ]).
Qed.

Lemma battery_tick i : obeys battery_accounted (tick backend i).
Proof.
  unfold tick, poll_if_due, interpret, print.
  battery ltac:(first [ apply battery_check_allocated_job | apply battery_complete_job
                      | apply battery_continue_rotation
                      | apply battery_execute_waypoint ]).
Qed.

Lemma battery_run inputs : obeys battery_accounted (run backend inputs).
Proof.
  induction inputs as [|i rest IH]; simpl; [apply obeys_ret, battery_refl|].
  apply (obeys_bind _ battery_trans); [apply battery_tick|intros; exact IH].
Qed.

End Battery.

(** X8.  The battery level is bookkeeping only.  Over any run of the main
    loop, with any backend, every battery report sent carries the fixed
    decrement 5, and the local level ends exactly 5 below its start for
    each report sent, whether or not the backend took the report; nothing
    else changes the level, which therefore never rises and has no floor. *)
Theorem battery_falls_by_report (backend : nat -> request -> http_result)
    (inputs : list tick_input) (s : state) :
  let o := run backend inputs s in
  let n := length (battery_reports_of (emitted o)) in
  battery_reports_of (emitted o) = repeat 5%Z n /\
  BATTERY (final o) = (BATTERY s - 5 * Z.of_nat n)%Z.
Proof.
  cbn zeta. destruct (battery_run backend inputs s) as [Hall Hlevel].
  split; [|exact Hlevel].
  revert Hall. generalize (battery_reports_of (emitted (run backend inputs s))).
  intros vs Hall. induction vs as [|v vs IH]; [reflexivity|].
  inversion Hall as [|? ? Hv Hvs]; subst. simpl. rewrite <- (IH Hvs). reflexivity.
Qed.

(** X9.  A turn step whose command starts with [turn_] but names neither
    left nor right, for a job in progress: the pass that meets it starts
    the timer and sets the rotation flag without any wheel command and
    without touching the recorded direction.  The passes before the time
    is up rotate in the direction an earlier turn of the run left behind,
    or command nothing when there was none; the pass at which the time is
    up completes the turn in the first case and raises in the second,
    with the cursor still on the step. *)
Theorem turn_without_direction (backend : nat -> request -> http_result)
    (i : tick_input) (s : state) (current_waypoint : pyval)
    (turn_command : string) (duration : pyval) (t : float) :
  JOB_IN_PROGRESS s = true ->
  is_rotating s = false ->
  waypoints s !! current_waypoint_index s = Some current_waypoint ->
  classify current_waypoint = Turn turn_command duration ->
  turn_command <> "turn_left" ->
  turn_command <> "turn_right" ->
  as_num duration = Some t ->
  let s1 := turning_unnamed (sim_time i) duration s in
  tick backend i s =
    mkOut (Ok tt) s1 [Printed (StartingTurn turn_command); Printed Pos]
  /\ (forall j,
        float_ge (sim_time j - sim_time i) duration = Some false ->
        tick backend j s1 =
          mkOut (Ok tt) s1
                (match rotation_direction s with
                 | Some d => rotate_events d
                 | None => []
                 end ++ [Printed (Rotating (rotation_direction s))]))
  /\ (forall j,
        float_ge (sim_time j - sim_time i) duration = Some true ->
        tick backend j s1 =
          match rotation_direction s with
          | Some d =>
              mkOut (Ok tt)
                    (set_current_waypoint_index (S (current_waypoint_index s))
                       (set_rotation_start_time None (set_is_rotating false s1)))
                    ([Printed Pos;
                      Printed (RotationCompleted d (sim_time j - sim_time i))]
                     ++ stop_events)
          | None => mkOut Raise s1 [Printed Pos]
          end).
Proof.
  intros Hjob Hrot Hwp Hshape Hl Hr Hnum. cbn zeta.
  assert (Hstep : forall j,
             tick backend j (turning_unnamed (sim_time i) duration s) =
             continue_rotation j (turning_unnamed (sim_time i) duration s)).
  { intros j.
    rewrite (tick_active backend j (turning_unnamed (sim_time i) duration s) Hjob).
    rewrite (interpret_step backend j (turning_unnamed (sim_time i) duration s)
               current_waypoint Hwp).
    reflexivity. }
  split; [|split].
  - rewrite (tick_on_step backend i s _ Hjob Hrot Hwp).
    unfold execute_waypoint. rewrite Hshape. exec. rewrite Hnum. exec.
    apply String.eqb_neq in Hl, Hr. rewrite Hl, Hr. reflexivity.
  - intros j Hlt. rewrite Hstep. unfold continue_rotation. exec.
    cbn [rotation_start_time current_rotation_duration turning_unnamed
         set_current_rotation_duration set_rotation_start_time].
    rewrite Hlt. exec.
    change (rotation_direction (turning_unnamed (sim_time i) duration s))
      with (rotation_direction s).
    destruct (rotation_direction s) as [[|]|]; unfold rotate_left, rotate_right;
      exec; rewrite Hnum; reflexivity.
  - intros j Hle. rewrite Hstep. unfold continue_rotation, stop, advance. exec.
    cbn [rotation_start_time current_rotation_duration turning_unnamed
         set_current_rotation_duration set_rotation_start_time].
    rewrite Hle. exec.
    change (rotation_direction (turning_unnamed (sim_time i) duration s))
      with (rotation_direction s).
    destruct (rotation_direction s) as [d|]; reflexivity.
Qed.

Lemma turn_without_direction_witness :
  tick backend_ok (input_at 7)
       (turning_unnamed 5 (PFloat 2.0) (unnamed_turn_state None)) =
    mkOut Raise (turning_unnamed 5 (PFloat 2.0) (unnamed_turn_state None)) [Printed Pos] /\
  List.filter is_wheel_command
    (emitted (tick backend_ok (input_at 6)
                (turning_unnamed 5 (PFloat 2.0) (unnamed_turn_state (Some left))))) =
    rotate_events left.
Proof.
  split.
  - destruct (turn_without_direction backend_ok (input_at 5) (unnamed_turn_state None)
                (PTuple [PStr "turn_around"; PFloat 2.0]) "turn_around"
                (PFloat 2.0) 2.0 eq_refl eq_refl eq_refl eq_refl)
      as (_ & _ & H); [discriminate|discriminate|reflexivity|].
    exact (H (input_at 7) eq_refl).
  - destruct (turn_without_direction backend_ok (input_at 5)
                (unnamed_turn_state (Some left))
                (PTuple [PStr "turn_around"; PFloat 2.0]) "turn_around"
                (PFloat 2.0) 2.0 eq_refl eq_refl eq_refl eq_refl)
      as (_ & H & _); [discriminate|discriminate|reflexivity|].
    exact (f_equal (fun o => List.filter is_wheel_command (emitted o))
                   (H (input_at 6) eq_refl)).
Defined.

(** ** Pick batches: further properties *)

Lemma available_ids_among slots id :
  In id (available_ids slots) -> In id (map slot_id slots).
Proof.
  intros H. apply available_ids_In in H. destruct H as (sl & Hin & _ & <-).
  apply in_map. exact Hin.
Qed.

Lemma filter_other_absent id ids :
  ~ In id ids -> List.filter (fun x => negb (x =? id)%Z) ids = ids.
Proof.
  induction ids as [|x ids IH]; intros Hn; [reflexivity|].
  simpl. destruct (Z.eqb_spec x id) as [->|Hne].
  - exfalso. apply Hn. left. reflexivity.
  - simpl. rewrite IH; [reflexivity|]. intros H. apply Hn. right. exact H.
Qed.

(** Marking a listed id in a cache without repeated ids takes exactly that
    id off the list of available ids. *)
Lemma mark_first_available id slots :
  List.NoDup (map slot_id slots) ->
  In id (map slot_id slots) ->
  exists slots',
    mark_first id slots = Some slots' /\
    map slot_id slots' = map slot_id slots /\
    available_ids slots' =
      List.filter (fun x => negb (x =? id)%Z) (available_ids slots).
Proof.
  induction slots as [|sl rest IH]; intros Hnd Hin; [contradiction|].
  simpl in Hnd. apply List.NoDup_cons_iff in Hnd. destruct Hnd as [Hfresh Hnd].
  simpl. destruct (Z.eqb_spec (slot_id sl) id) as [Heq|Hne].
  - exists (mkSlot (slot_id sl) false :: rest).
    split; [reflexivity|]. split; [reflexivity|].
    assert (Hrest : List.filter (fun x => negb (x =? id)%Z) (available_ids rest)
                    = available_ids rest).
    { apply filter_other_absent. intros H. apply Hfresh. rewrite Heq.
      apply available_ids_among. exact H. }
    cbn [available_ids slot_available].
    destruct (slot_available sl); [|symmetry; exact Hrest].
    simpl. rewrite Heq, Z.eqb_refl. simpl. symmetry. exact Hrest.
  - destruct Hin as [Hin|Hin]; [contradiction|].
    destruct (IH Hnd Hin) as (rest' & Hm & Hids & Hav).
    rewrite Hm. exists (sl :: rest'). split; [reflexivity|].
    split; [simpl; rewrite Hids; reflexivity|].
    simpl. destruct (slot_available sl); [|exact Hav].
    simpl. destruct (Z.eqb_spec (slot_id sl) id) as [|_]; [contradiction|].
    simpl. rewrite Hav. reflexivity.
Qed.

Lemma available_ids_NoDup slots :
  List.NoDup (map slot_id slots) -> List.NoDup (available_ids slots).
Proof.
  induction slots as [|sl rest IH]; intros Hnd; [constructor|].
  simpl in Hnd. apply List.NoDup_cons_iff in Hnd. destruct Hnd as [Hfresh Hnd].
  simpl. destruct (slot_available sl); [|apply IH; exact Hnd].
  apply List.NoDup_cons_iff. split; [|apply IH; exact Hnd].
  intros H. apply Hfresh. apply available_ids_among. exact H.
Qed.

Section PickCache.
Variable backend : nat -> request -> http_result.

Lemma mark_slot_unavailable_confirmed id s slots :
  confirms_slot_updates backend ->
  shelves s !! "can_shelf" = Some slots ->
  List.NoDup (map slot_id slots) ->
  In id (map slot_id slots) ->
  let o := mark_slot_unavailable backend id s in
  res o = Ok true /\
  exists slots',
    shelves (final o) !! "can_shelf" = Some slots' /\
    map slot_id slots' = map slot_id slots /\
    available_ids slots' =
      List.filter (fun x => negb (x =? id)%Z) (available_ids slots).
Proof.
  intros Hc Hs Hnd Hin. cbn zeta. rewrite mark_slot_unavailable_paths. cbn zeta.
  specialize (Hc (nreq s) id).
  destruct (backend (nreq s) _) as [|body]; [discriminate|].
  rewrite Hc, Hs.
  destruct (mark_first_available id slots Hnd Hin) as (slots' & Hm & Hids & Hav).
  rewrite Hm. split; [reflexivity|]. exists slots'.
  cbn [final shelves set_shelves set_nreq]. rewrite lookup_insert_eq. auto.
Qed.

Lemma mark_slot_unavailable_refused id s :
  refuses_slot_updates backend ->
  let o := mark_slot_unavailable backend id s in
  res o = Ok false /\ shelves (final o) = shelves s.
Proof.
  intros Hr. cbn zeta. rewrite mark_slot_unavailable_paths. cbn zeta.
  destruct (Hr (nreq s) id) as (body & -> & ->).
  destruct (py_get body "success"); split; reflexivity.
Qed.

Lemma confirms_answers :
  confirms_slot_updates backend -> answers_slot_updates backend.
Proof. intros Hc n id H. specialize (Hc n id). rewrite H in Hc. discriminate. Qed.

Lemma refuses_answers :
  refuses_slot_updates backend -> answers_slot_updates backend.
Proof.
  intros Hr n id H. destruct (Hr n id) as (body & Hb & _). congruence.
Qed.

(** The batch loop against a confirming backend: the cache loses the slots
    it picks, in step with the loop. *)
Lemma pick_loop_confirmed available_slots ids :
  confirms_slot_updates backend ->
  List.NoDup ids ->
  forall n i s slots,
    (i + n <= length available_slots)%nat ->
    shelves s !! "can_shelf" = Some slots ->
    map slot_id slots = ids ->
    available_ids slots = drop i available_slots ->
    exists slots',
      shelves (final (pick_loop backend available_slots (seq i n) s)) !! "can_shelf"
        = Some slots' /\
      map slot_id slots' = ids /\
      available_ids slots' = drop (i + n) available_slots.
Proof.
  intros Hc Hnd n. induction n as [|n IH]; intros i s slots Hlen Hs Hids Hav.
  - exists slots. rewrite Nat.add_0_r. auto.
  - destruct (available_slots !! i) as [id|] eqn:Hi.
    2:{ apply lookup_ge_None in Hi. lia. }
    change (seq i (S n)) with (i :: seq (S i) n).
    rewrite (pick_loop_step backend _ _ _ _ _ Hi). cbn zeta.
    rewrite (drop_S _ _ _ Hi) in Hav.
    assert (Hin : In id (map slot_id slots)).
    { apply available_ids_among. rewrite Hav. left. reflexivity. }
    assert (Hnd' : List.NoDup (map slot_id slots)) by (rewrite Hids; exact Hnd).
    destruct (mark_slot_unavailable_confirmed id s slots Hc Hs Hnd' Hin)
      as (Hres & slots1 & Hs1 & Hids1 & Hav1).
    rewrite Hres. cbn [final].
    assert (Hav2 : available_ids slots1 = drop (S i) available_slots).
    { rewrite Hav1, Hav. simpl. rewrite Z.eqb_refl. simpl.
      apply filter_other_absent.
      pose proof (available_ids_NoDup slots Hnd') as Hn. rewrite Hav in Hn.
      apply List.NoDup_cons_iff in Hn. destruct Hn as [Hn _]. exact Hn. }
    destruct (IH (S i) (final (mark_slot_unavailable backend id s)) slots1)
      as (slots' & Hs' & Hids' & Hav'); [lia|exact Hs1|congruence|exact Hav2|].
    exists slots'. replace (i + S n)%nat with (S i + n)%nat by lia. auto.
Qed.

(** The batch loop against a refusing backend leaves the cache as it was. *)
Lemma pick_loop_refused available_slots :
  refuses_slot_updates backend ->
  forall indices s,
    shelves (final (pick_loop backend available_slots indices s)) = shelves s.
Proof.
  intros Hr indices. induction indices as [|i rest IH]; intros s; [reflexivity|].
  destruct (available_slots !! i) as [id|] eqn:Hi.
  - rewrite (pick_loop_step backend _ _ _ _ _ Hi). cbn zeta.
    destruct (mark_slot_unavailable_refused id s Hr) as (Hres & Hsh).
    rewrite Hres. cbn [final]. rewrite IH. exact Hsh.
  - simpl. rewrite Hi. reflexivity.
Qed.

(** A batch on a valid quantity with a backend that answers: what is
    picked, and where the cache comes from. *)
Lemma pick_can_quantity_batch quantity q x y s slots :
  as_int quantity = Some q ->
  (0 < q)%Z ->
  shelves s !! "can_shelf" = Some slots ->
  answers_slot_updates backend ->
  let n := batch_size q (length (available_ids slots)) in
  let o := pick_can_quantity backend quantity x y s in
  let start :=
    addRobotLog backend (CURRENT_JOB_ID s) (BATTERY s) "Working" x y
                (Text "Starting pick can sequence") s in
  res o = Ok PNone /\
  picks_of (emitted o) = take n (available_ids slots) /\
  slot_updates_of (emitted o) = take n (available_ids slots) /\
  shelves (final o) =
    shelves (final (pick_loop backend (available_ids slots) (seq 0 n) (final start))).
Proof.
  intros Hq Hpos Hc Ha. cbn zeta.
  rewrite (pick_can_quantity_run backend quantity q x y s slots Hq Hpos Hc).
  cbn zeta.
  set (start := addRobotLog backend _ _ _ _ _ _ s).
  assert (Hn : Z.to_nat (if (Z.of_nat (length (available_ids slots)) <? q)%Z
                         then Z.of_nat (length (available_ids slots)) else q)
               = batch_size q (length (available_ids slots))).
  { unfold batch_size. destruct (Z.ltb_spec (Z.of_nat (length (available_ids slots))) q);
      f_equal; lia. }
  rewrite Hn.
  assert (Hle : (batch_size q (length (available_ids slots))
                 <= length (available_ids slots))%nat).
  { unfold batch_size. lia. }
  destruct (pick_loop_in_range backend (available_ids slots) Ha
              (batch_size q (length (available_ids slots))) 0%nat (final start))
    as (Hr & Hp & Hu); [lia|].
  rewrite drop_0 in Hp, Hu. rewrite Hr. cbn [res emitted final].
  set (o := pick_loop backend _ _ (final start)) in *.
  destruct (addRobotLog_trace backend (CURRENT_JOB_ID s) (BATTERY s) "Working" x y
              (Text "Starting pick can sequence") s) as (Hp1 & Hu1).
  destruct (addRobotLog_trace backend (CURRENT_JOB_ID (final o)) (BATTERY (final o))
              "Working" x y (Text "Completed picking can operation") (final o))
    as (Hp2 & Hu2).
  fold start in Hp1, Hu1.
  split; [reflexivity|]. split; [|split].
  - rewrite !picks_of_app. cbn [picks_of]. rewrite Hp1, Hp, Hp2.
    destruct (Z.of_nat (length (available_ids slots)) <? q)%Z; simpl;
      rewrite app_nil_r; reflexivity.
  - rewrite !slot_updates_of_app. cbn [slot_updates_of]. rewrite Hu1, Hu, Hu2.
    destruct (Z.of_nat (length (available_ids slots)) <? q)%Z; simpl;
      rewrite app_nil_r; reflexivity.
  - apply (keeps_addRobotLog backend shelves). reflexivity.
Qed.

End PickCache.

(** X10.  A batch of [q] cans, [q] a positive integer, with [a] slots
    available and a backend that answers the slot updates: the batch runs
    [min q a] picks, from the first [min q a] available slots in cache
    order, each followed by the update for its slot, and returns [None].
    What it commands is the log of the start, the choreography of each of
    those slots in turn, each followed at once by the update request for
    that slot, and the log of the end. *)
Theorem pick_can_quantity_takes_first (backend : nat -> request -> http_result)
    (quantity : pyval) (q : Z) (x y : float) (s : state) (slots : list slot) :
  as_int quantity = Some q ->
  (0 < q)%Z ->
  shelves s !! "can_shelf" = Some slots ->
  answers_slot_updates backend ->
  let n := batch_size q (length (available_ids slots)) in
  let o := pick_can_quantity backend quantity x y s in
  res o = Ok PNone /\
  picks_of (emitted o) = take n (available_ids slots) /\
  slot_updates_of (emitted o) = take n (available_ids slots) /\
  length (picks_of (emitted o)) = n /\
  commands_of (emitted o) =
    batch_commands (CURRENT_JOB_ID s) (BATTERY s) x y (take n (available_ids slots)).
Proof.
  intros Hq Hpos Hc Ha. cbn zeta.
  destruct (pick_can_quantity_batch backend quantity q x y s slots Hq Hpos Hc Ha)
    as (Hr & Hp & Hu & _).
  split; [exact Hr|]. split; [exact Hp|]. split; [exact Hu|].
  split; [rewrite Hp, length_take; unfold batch_size; lia|].
  apply (pick_can_quantity_commands backend quantity q x y s slots Hq Hpos Hc Ha).
Qed.

Lemma pick_can_quantity_takes_first_witness :
  picks_of (emitted (pick_can_quantity backend_ok (PInt 2) 0 0
                       (with_slots [mkSlot 4 true; mkSlot 1 false;
                                    mkSlot 2 true; mkSlot 3 true]))) = [4%Z; 2%Z] /\
  commands_of (emitted (pick_can_quantity backend_ok (PInt 2) 0 0
                          (with_slots [mkSlot 4 true; mkSlot 1 false;
                                       mkSlot 2 true; mkSlot 3 true])))
  = batch_commands (PInt 0) 100 0 0 [4%Z; 2%Z].
Proof.
  assert (Ha : answers_slot_updates backend_ok) by (intros n id; discriminate).
  destruct (pick_can_quantity_takes_first backend_ok (PInt 2) 2 0 0
              (with_slots [mkSlot 4 true; mkSlot 1 false; mkSlot 2 true; mkSlot 3 true])
              [mkSlot 4 true; mkSlot 1 false; mkSlot 2 true; mkSlot 3 true]
              eq_refl eq_refl eq_refl Ha)
    as (_ & Hp & _ & _ & Hcmd).
  split; [exact Hp|exact Hcmd].
Defined.

(** X11.  Marking and listing.  In a cache without repeated slot ids, a
    call of [mark_slot_unavailable] for a cached id that the backend
    confirms returns [True], and the list of available slots afterwards is
    the list before without that id, the ids of the cache unchanged; a
    call the backend answers without confirming returns [False] and leaves
    the list as it was. *)
Theorem mark_then_list (backend : nat -> request -> http_result)
    (id : Z) (s : state) (slots : list slot) (body : pyval) :
  shelves s !! "can_shelf" = Some slots ->
  List.NoDup (map slot_id slots) ->
  In id (map slot_id slots) ->
  backend (nreq s) (PatchSlotAvailability "can_shelf" id false) = HttpJson body ->
  let o := mark_slot_unavailable backend id s in
  let confirmed := reports_success (HttpJson body) in
  res o = Ok confirmed /\
  res (get_available_slots (final o)) =
    Ok (if confirmed
        then List.filter (fun x => negb (x =? id)%Z) (available_ids slots)
        else available_ids slots).
Proof.
  intros Hs Hnd Hin Hb. cbn zeta. rewrite mark_slot_unavailable_paths. cbn zeta.
  rewrite Hb. destruct (reports_success (HttpJson body)).
  - rewrite Hs.
    destruct (mark_first_available id slots Hnd Hin) as (slots' & Hm & _ & Hav).
    rewrite Hm. split; [reflexivity|].
    unfold get_available_slots. exec.
    cbn [shelves set_shelves set_nreq]. rewrite lookup_insert_eq. exec.
    rewrite Hav. reflexivity.
  - assert (Hlist : forall es r,
              res (get_available_slots
                     (final (mkOut r (set_nreq (S (nreq s)) s) es : outcome bool)))
              = Ok (available_ids slots)).
    { intros es r. unfold get_available_slots. exec.
      cbn [shelves set_nreq]. rewrite Hs. reflexivity. }
    destruct (py_get body "success"); (split; [reflexivity|apply Hlist]).
Qed.

Lemma mark_then_list_witness :
  res (get_available_slots
         (final (mark_slot_unavailable backend_ok 2
                   (with_slots [mkSlot 4 true; mkSlot 2 true; mkSlot 3 true]))))
  = Ok [4%Z; 3%Z].
Proof.
  destruct (mark_then_list backend_ok 2
              (with_slots [mkSlot 4 true; mkSlot 2 true; mkSlot 3 true])
              [mkSlot 4 true; mkSlot 2 true; mkSlot 3 true]
              (PDict [("success", PBool true); ("message", PStr "ok")])
              eq_refl) as (_ & H).
  - simpl.
    repeat (apply List.NoDup_cons;
            [simpl; intros H; repeat (destruct H as [H|H]; [discriminate|]); exact H|]).
    apply List.NoDup_nil.
  - right. left. reflexivity.
  - reflexivity.
  - exact H.
Defined.

(** X12.  A batch and the cache.  In a cache without repeated slot ids, a
    batch of [q] cans against a backend that confirms every slot update
    commands the choreography of each of the first [min q a] available
    slots in turn, each followed at once by the update request for that
    slot, between the logs of its start and end; it leaves the ids of the
    cache as they were and takes those slots off the list of available
    slots: the next batch starts where this one ended. *)
Theorem pick_can_quantity_consumes (backend : nat -> request -> http_result)
    (quantity : pyval) (q : Z) (x y : float) (s : state) (slots : list slot) :
  as_int quantity = Some q ->
  (0 < q)%Z ->
  shelves s !! "can_shelf" = Some slots ->
  List.NoDup (map slot_id slots) ->
  confirms_slot_updates backend ->
  let n := batch_size q (length (available_ids slots)) in
  let o := pick_can_quantity backend quantity x y s in
  res o = Ok PNone /\
  picks_of (emitted o) = take n (available_ids slots) /\
  commands_of (emitted o) =
    batch_commands (CURRENT_JOB_ID s) (BATTERY s) x y (take n (available_ids slots)) /\
  exists slots',
    shelves (final o) !! "can_shelf" = Some slots' /\
    map slot_id slots' = map slot_id slots /\
    available_ids slots' = drop n (available_ids slots).
Proof.
  intros Hq Hpos Hs Hnd Hc. cbn zeta.
  destruct (pick_can_quantity_batch backend quantity q x y s slots Hq Hpos Hs
              (confirms_answers backend Hc)) as (Hr & Hp & _ & Hsh).
  split; [exact Hr|]. split; [exact Hp|].
  split; [apply (pick_can_quantity_commands backend quantity q x y s slots Hq Hpos Hs
                   (confirms_answers backend Hc))|].
  rewrite Hsh.
  set (start := addRobotLog backend _ _ _ _ _ _ s).
  assert (Hs0 : shelves (final start) !! "can_shelf" = Some slots).
  { unfold start. rewrite (keeps_addRobotLog backend shelves); [exact Hs|reflexivity]. }
  destruct (pick_loop_confirmed backend (available_ids slots) (map slot_id slots)
              Hc Hnd (batch_size q (length (available_ids slots))) 0%nat
              (final start) slots) as (slots' & H1 & H2 & H3);
    [unfold batch_size; lia|exact Hs0|reflexivity|reflexivity|].
  exists slots'. auto.
Qed.

Lemma pick_can_quantity_consumes_witness :
  exists slots',
    shelves (final (pick_can_quantity backend_ok (PInt 2) 0 0
                      (with_slots [mkSlot 4 true; mkSlot 1 false;
                                   mkSlot 2 true; mkSlot 3 true]))) !! "can_shelf"
      = Some slots' /\
    available_ids slots' = [3%Z].
Proof.
  destruct (pick_can_quantity_consumes backend_ok (PInt 2) 2 0 0
              (with_slots [mkSlot 4 true; mkSlot 1 false; mkSlot 2 true; mkSlot 3 true])
              [mkSlot 4 true; mkSlot 1 false; mkSlot 2 true; mkSlot 3 true]
              eq_refl eq_refl eq_refl) as (_ & _ & _ & slots' & H1 & _ & H3).
  - simpl.
    repeat (apply List.NoDup_cons;
            [simpl; intros H; repeat (destruct H as [H|H]; [discriminate|]); exact H|]).
    apply List.NoDup_nil.
  - intros n id. reflexivity.
  - exists slots'. split; [exact H1|exact H3].
Defined.

(** X13.  The picks do not wait for the backend.  A batch against a
    backend that answers every slot update without confirming it still
    runs all its [min q a] picks, commanding the choreography of each of
    the first [min q a] available slots in turn, each followed at once by
    the update request for that slot, and leaves the cache exactly as it
    was: the slots it has emptied are still listed as available, and the
    next batch goes to them again. *)
Theorem pick_can_quantity_unconfirmed (backend : nat -> request -> http_result)
    (quantity : pyval) (q : Z) (x y : float) (s : state) (slots : list slot) :
  as_int quantity = Some q ->
  (0 < q)%Z ->
  shelves s !! "can_shelf" = Some slots ->
  refuses_slot_updates backend ->
  let n := batch_size q (length (available_ids slots)) in
  let o := pick_can_quantity backend quantity x y s in
  res o = Ok PNone /\
  picks_of (emitted o) = take n (available_ids slots) /\
  commands_of (emitted o) =
    batch_commands (CURRENT_JOB_ID s) (BATTERY s) x y (take n (available_ids slots)) /\
  shelves (final o) = shelves s /\
  res (get_available_slots (final o)) = Ok (available_ids slots).
Proof.
  intros Hq Hpos Hs Hr. cbn zeta.
  destruct (pick_can_quantity_batch backend quantity q x y s slots Hq Hpos Hs
              (refuses_answers backend Hr)) as (Hres & Hp & _ & Hsh).
  assert (Hsame : shelves (final (pick_can_quantity backend quantity x y s))
                  = shelves s).
  { rewrite Hsh, (pick_loop_refused backend _ Hr).
    apply (keeps_addRobotLog backend shelves). reflexivity. }
  split; [exact Hres|]. split; [exact Hp|].
  split; [apply (pick_can_quantity_commands backend quantity q x y s slots Hq Hpos Hs
                   (refuses_answers backend Hr))|].
  split; [exact Hsame|].
  unfold get_available_slots. exec. rewrite Hsame, Hs. reflexivity.
Qed.

Lemma pick_can_quantity_unconfirmed_witness :
  picks_of (emitted (pick_can_quantity backend_refuses (PInt 1) 0 0
                       (with_slots [mkSlot 2 true]))) = [2%Z] /\
  res (get_available_slots
         (final (pick_can_quantity backend_refuses (PInt 1) 0 0
                   (with_slots [mkSlot 2 true])))) = Ok [2%Z].
Proof.
  destruct (pick_can_quantity_unconfirmed backend_refuses (PInt 1) 1 0 0
              (with_slots [mkSlot 2 true]) [mkSlot 2 true]
              eq_refl eq_refl eq_refl) as (_ & Hp & _ & _ & Hl).
  - intros n id. exists (PDict [("success", PBool false)]). split; reflexivity.
  - split; [exact Hp|exact Hl].
Defined.

(** ** The arm: further properties *)

(** X14.  [pick_can_from_slot] returns for every slot id and changes no
    global.  It stops the drive first and commands the wheels no more;
    whatever the slot, every arm joint is last commanded to [0.0]; the
    fingers are last commanded to [0.02] after a pick from slot 2 or 4, and
    to [0.0] for any other id, where only the opening reset has run. *)
Theorem pick_ends_at_rest (id : Z) (s : state) :
  let o := pick_can_from_slot id s in
  res o = Ok tt /\
  final o = s /\
  List.filter is_wheel_command (emitted o) = stop_events /\
  map (fun j => last_arm j (emitted o)) [0; 1; 2; 3; 4]%nat
    = repeat (Some 0.0%Q) 5 /\
  map (fun f => last_finger f (emitted o)) [0; 1]%nat
    = repeat (Some (if (id =? 2)%Z || (id =? 4)%Z then 0.02%Q else 0.0%Q)) 2.
Proof.
  cbn zeta. unfold pick_can_from_slot.
  destruct (id =? 2)%Z; [vm_compute; auto|].
  destruct (id =? 4)%Z; [vm_compute; auto|].
  destruct (id =? 1)%Z; [vm_compute; auto|].
  destruct (id =? 3)%Z; vm_compute; auto.
Qed.

Section PickStep.
Variable backend : nat -> request -> http_result.

Lemma still_addRobotLog jobId battery status x y message :
  never is_drive_command (addRobotLog backend jobId battery status x y message).
Proof.
  unfold addRobotLog, report, print_backend_message, print.
  frame_with ltac:(apply never_http; reflexivity).
Qed.

Lemma still_pick_can_from_slot id : never is_drive_command (pick_can_from_slot id).
Proof.
  unfold pick_can_from_slot, grip_drop_and_return, stop, reset_arm_and_fingers,
    set_fingers, wait, print.
  frame.
Qed.

Lemma still_mark_slot_unavailable id :
  never is_drive_command (mark_slot_unavailable backend id).
Proof.
  unfold mark_slot_unavailable, print.
  frame_with ltac:(apply never_http; reflexivity).
Qed.

Lemma still_pick_loop available_slots indices :
  never is_drive_command (pick_loop backend available_slots indices).
Proof.
  induction indices as [|i rest IH]; simpl; [apply never_ret|].
  destruct (available_slots !! i); unfold print;
    frame_with ltac:(first [ apply still_pick_can_from_slot
                           | apply still_mark_slot_unavailable
                           | exact IH ]).
Qed.

Lemma still_pick_can_quantity quantity x y :
  never is_drive_command (pick_can_quantity backend quantity x y).
Proof.
  unfold pick_can_quantity, get_available_slots, print.
  frame_with ltac:(first [ apply still_addRobotLog | apply still_pick_loop ]).
Qed.

(** [pick_can_quantity] on a quantity that is not a positive integer. *)
Lemma pick_can_quantity_invalid quantity x y s :
  step_picks quantity 1 = 0%nat ->
  pick_can_quantity backend quantity x y s = mkOut (Ok PNone) s [Printed InvalidQuantity].
Proof.
  unfold step_picks, pick_can_quantity, batch_size.
  destruct (as_int quantity) as [q|]; [|reflexivity].
  destruct (Z.ltb_spec 0 q) as [Hpos|Hle]; [intros H; lia|].
  intros _. destruct (Z.leb_spec q 0); [reflexivity|lia].
Qed.

End PickStep.

(** X15.  A pick step, for a job in progress, with a cached shelf and a
    backend that answers the slot updates: the pass logs the beginning,
    runs the whole batch within the pass, and advances the cursor by
    exactly one with the job still in progress.  The batch is empty when
    the quantity is not a positive integer, and otherwise takes the first
    [min q a] available slots; no wheel is commanded to a speed other than
    zero during the pass.  What the pass commands is the log of the
    beginning and then, for a positive integer quantity, the batch: the log
    of its start, the choreography of each slot taken in turn, each
    followed at once by the update request for that slot, and the log of
    its end. *)
Theorem pick_step (backend : nat -> request -> http_result) (i : tick_input)
    (s : state) (current_waypoint quantity : pyval) (slots : list slot) :
  JOB_IN_PROGRESS s = true ->
  is_rotating s = false ->
  waypoints s !! current_waypoint_index s = Some current_waypoint ->
  classify current_waypoint = PickCan quantity ->
  shelves s !! "can_shelf" = Some slots ->
  answers_slot_updates backend ->
  let n := step_picks quantity (length (available_ids slots)) in
  let o := tick backend i s in
  res o = Ok tt /\
  current_waypoint_index (final o) = S (current_waypoint_index s) /\
  JOB_IN_PROGRESS (final o) = true /\
  picks_of (emitted o) = take n (available_ids slots) /\
  slot_updates_of (emitted o) = take n (available_ids slots) /\
  List.filter is_drive_command (emitted o) = [] /\
  commands_of (emitted o) =
    pick_step_commands (CURRENT_JOB_ID s) (BATTERY s) (fst (gps i)) (snd (gps i))
                       quantity (available_ids slots).
Proof.
  intros Hjob Hrot Hwp Hshape Hs Ha. cbn zeta.
  rewrite (tick_on_step backend i s _ Hjob Hrot Hwp).
  unfold execute_waypoint, advance. rewrite Hshape. exec.
  rewrite addRobotLog_sent. exec.
  set (s1 := set_nreq (S (nreq s)) s).
  set (log := emitted (addRobotLog backend _ _ _ _ _ _ s)).
  assert (Hlog : picks_of log = [] /\ slot_updates_of log = []).
  { apply addRobotLog_trace. }
  assert (Hstill : List.filter is_drive_command log = []).
  { apply still_addRobotLog. }
  pose proof (still_pick_can_quantity backend quantity (fst (gps i)) (snd (gps i)) s1)
    as Hquiet.
  pose proof (keeps_pick_can_quantity backend current_waypoint_index
                ltac:(reflexivity) ltac:(reflexivity)
                quantity (fst (gps i)) (snd (gps i)) s1) as Hidx.
  pose proof (keeps_pick_can_quantity backend JOB_IN_PROGRESS
                ltac:(reflexivity) ltac:(reflexivity)
                quantity (fst (gps i)) (snd (gps i)) s1) as Hflag.
  assert (Hbatch :
            res (pick_can_quantity backend quantity (fst (gps i)) (snd (gps i)) s1)
              = Ok PNone /\
            picks_of (emitted (pick_can_quantity backend quantity (fst (gps i))
                                 (snd (gps i)) s1))
              = take (step_picks quantity (length (available_ids slots)))
                     (available_ids slots) /\
            slot_updates_of (emitted (pick_can_quantity backend quantity (fst (gps i))
                                        (snd (gps i)) s1))
              = take (step_picks quantity (length (available_ids slots)))
                     (available_ids slots)).
  { unfold step_picks. destruct (as_int quantity) as [q|] eqn:Hq.
    - destruct (Z.ltb_spec 0 q) as [Hpos|Hle].
      + destruct (pick_can_quantity_batch backend quantity q (fst (gps i))
                    (snd (gps i)) s1 slots Hq Hpos Hs Ha) as (H1 & H2 & H3 & _).
        auto.
      + rewrite pick_can_quantity_invalid.
        * rewrite take_0. auto.
        * unfold step_picks. rewrite Hq.
          destruct (Z.ltb_spec 0 q); [lia|reflexivity].
    - rewrite pick_can_quantity_invalid.
      + rewrite take_0. auto.
      + unfold step_picks. rewrite Hq. reflexivity. }
  assert (Hcmd :
            commands_of (emitted (pick_can_quantity backend quantity (fst (gps i))
                                    (snd (gps i)) s1))
            = match as_int quantity with
              | Some q =>
                  if (0 <? q)%Z
                  then batch_commands (CURRENT_JOB_ID s) (BATTERY s)
                         (fst (gps i)) (snd (gps i))
                         (take (batch_size q (length (available_ids slots)))
                               (available_ids slots))
                  else []
              | None => []
              end).
  { destruct (as_int quantity) as [q|] eqn:Hq.
    - destruct (Z.ltb_spec 0 q) as [Hpos|Hle].
      + exact (pick_can_quantity_commands backend quantity q (fst (gps i))
                 (snd (gps i)) s1 slots Hq Hpos Hs Ha).
      + rewrite pick_can_quantity_invalid; [reflexivity|].
        unfold step_picks. rewrite Hq.
        destruct (Z.ltb_spec 0 q); [lia|reflexivity].
    - rewrite pick_can_quantity_invalid; [reflexivity|].
      unfold step_picks. rewrite Hq. reflexivity. }
  assert (Hcmd0 : commands_of log =
                  [Request (PostRobotLog (CURRENT_JOB_ID s) (BATTERY s) "Working"
                              (fst (gps i)) (snd (gps i))
                              (Text "Beginning to pick can"))]).
  { apply commands_of_addRobotLog. }
  destruct Hbatch as (Hres & Hp & Hu). destruct Hlog as (Hp0 & Hu0).
  destruct (pick_can_quantity backend quantity (fst (gps i)) (snd (gps i)) s1)
    as [r s2 es2].
  cbn [res final emitted] in *. subst r. exec.
  split; [reflexivity|]. split.
  { cbn [current_waypoint_index set_current_waypoint_index]. rewrite Hidx.
    reflexivity. }
  split.
  { cbn [JOB_IN_PROGRESS set_current_waypoint_index]. rewrite Hflag. exact Hjob. }
  cbn [app]. rewrite app_nil_r.
  rewrite picks_of_app, slot_updates_of_app, List.filter_app, commands_of_app.
  rewrite Hp0, Hu0, Hp, Hu, Hstill, Hquiet, Hcmd0, Hcmd.
  split; [reflexivity|]. split; [reflexivity|]. split; reflexivity.
Qed.

Lemma pick_step_witness :
  picks_of (emitted (tick backend_ok (input_at 5)
                       (pick_step_state (PInt 2)
                          [mkSlot 4 true; mkSlot 2 true; mkSlot 3 true])))
    = [4%Z; 2%Z] /\
  picks_of (emitted (tick backend_ok (input_at 5)
                       (pick_step_state (PStr "2")
                          [mkSlot 4 true; mkSlot 2 true; mkSlot 3 true])))
    = [].
Proof.
  assert (Ha : answers_slot_updates backend_ok) by (intros n id; discriminate).
  split.
  - destruct (pick_step backend_ok (input_at 5)
                (pick_step_state (PInt 2) [mkSlot 4 true; mkSlot 2 true; mkSlot 3 true])
                (PTuple [PStr "pick_can"; PInt 2]) (PInt 2)
                [mkSlot 4 true; mkSlot 2 true; mkSlot 3 true]
                eq_refl eq_refl eq_refl eq_refl eq_refl Ha) as (_ & _ & _ & H & _).
    exact H.
  - destruct (pick_step backend_ok (input_at 5)
                (pick_step_state (PStr "2") [mkSlot 4 true; mkSlot 2 true; mkSlot 3 true])
                (PTuple [PStr "pick_can"; PStr "2"]) (PStr "2")
                [mkSlot 4 true; mkSlot 2 true; mkSlot 3 true]
                eq_refl eq_refl eq_refl eq_refl eq_refl Ha) as (_ & _ & _ & H & _).
    exact H.
Defined.

(** ** The variant controller: further properties *)

Lemma variant_pick_and_place_run target_object s :
  MultipleQuantityPicking.pick_and_place target_object s =
    mkOut (Ok tt) s (routine_events target_object).
Proof.
  unfold routine_events, MultipleQuantityPicking.pick_and_place,
    MultipleQuantityPicking.locals_of.
  destruct (String.eqb target_object "BISCUIT"); [vm_compute; reflexivity|].
  destruct (String.eqb target_object "CAN"); [vm_compute; reflexivity|].
  destruct (String.eqb target_object "CEREAL"); vm_compute; reflexivity.
Qed.

Lemma variant_for_each_routine target_object (indices : list nat) s :
  for_each indices (fun _ => MultipleQuantityPicking.pick_and_place target_object) s =
    mkOut (Ok tt) s
          (concat (repeat (routine_events target_object) (length indices))).
Proof.
  induction indices as [|i rest IH]; [reflexivity|].
  cbn [for_each]. rewrite bind_unfold, variant_pick_and_place_run, IH.
  reflexivity.
Qed.

(** X16.  The variant's [pick_and_place] returns for every object type and
    changes no global.  It stops the drive first and commands the wheels
    no more; every arm joint is last commanded to [0.0]; the fingers are
    last commanded to [0.02] after a routine for BISCUIT, CAN or CEREAL
    and to [0.0] for any other type, where only the opening reset has
    run. *)
Theorem variant_pick_ends_at_rest (target_object : string) (s : state) :
  let o := MultipleQuantityPicking.pick_and_place target_object s in
  res o = Ok tt /\
  final o = s /\
  List.filter is_wheel_command (emitted o) = stop_events /\
  map (fun j => last_arm j (emitted o)) [0; 1; 2; 3; 4]%nat
    = repeat (Some 0.0%Q) 5 /\
  map (fun f => last_finger f (emitted o)) [0; 1]%nat
    = repeat (Some (match MultipleQuantityPicking.locals_of target_object with
                    | Some _ => 0.02%Q
                    | None => 0.0%Q
                    end)) 2.
Proof.
  cbn zeta.
  unfold MultipleQuantityPicking.pick_and_place, MultipleQuantityPicking.locals_of.
  destruct (String.eqb target_object "BISCUIT"); [vm_compute; auto|].
  destruct (String.eqb target_object "CAN"); [vm_compute; auto|].
  destruct (String.eqb target_object "CEREAL"); vm_compute; auto.
Qed.

(** X17.  The variant's batch of [q] cans, [q] a positive integer, runs
    exactly [q] routines whatever the shelves hold: the BISCUIT routine
    once, then the CAN routine [q - 1] times, then the closing message;
    it returns and changes no global.  A quantity that is not a positive
    integer runs none. *)
Theorem variant_batch_routines (quantity : pyval) (s : state) :
  MultipleQuantityPicking.pick_can_quantity quantity s =
    mkOut (Ok tt) s
          (match as_int quantity with
           | Some q =>
               if (0 <? q)%Z
               then routine_events "BISCUIT" ++
                    concat (repeat (routine_events "CAN") (Z.to_nat q - 1)) ++
                    [Printed (CompletedPickCan q)]
               else [Printed InvalidQuantity]
           | None => [Printed InvalidQuantity]
           end) /\
  length (List.filter is_routine_end
            (emitted (MultipleQuantityPicking.pick_can_quantity quantity s))) =
    match as_int quantity with
    | Some q => Z.to_nat q
    | None => 0%nat
    end.
Proof.
  assert (Hrun : MultipleQuantityPicking.pick_can_quantity quantity s =
    mkOut (Ok tt) s
          (match as_int quantity with
           | Some q =>
               if (0 <? q)%Z
               then routine_events "BISCUIT" ++
                    concat (repeat (routine_events "CAN") (Z.to_nat q - 1)) ++
                    [Printed (CompletedPickCan q)]
               else [Printed InvalidQuantity]
           | None => [Printed InvalidQuantity]
           end)).
  { unfold MultipleQuantityPicking.pick_can_quantity.
    destruct (as_int quantity) as [q|]; [|reflexivity].
    destruct (Z.leb_spec q 0) as [Hle|Hpos].
    - destruct (Z.ltb_spec 0 q); [lia|reflexivity].
    - destruct (Z.ltb_spec 0 q); [|lia].
      rewrite bind_unfold, variant_pick_and_place_run.
      rewrite bind_unfold, variant_for_each_routine, length_seq.
      reflexivity. }
  split; [exact Hrun|]. rewrite Hrun. cbn [emitted].
  destruct (as_int quantity) as [q|]; [|reflexivity].
  destruct (Z.ltb_spec 0 q) as [Hpos|Hle].
  - rewrite !List.filter_app, !length_app.
    assert (Hcan : forall n,
               length (List.filter is_routine_end
                         (concat (repeat (routine_events "CAN") n))) = n).
    { induction n as [|n IH]; [reflexivity|].
      cbn [repeat concat]. rewrite List.filter_app, length_app, IH.
      reflexivity. }
    rewrite Hcan.
    change (length (List.filter is_routine_end (routine_events "BISCUIT"))) with 1%nat.
    cbn [List.filter is_routine_end length]. lia.
  - simpl. lia.
Qed.

(** X18.  The variant's loop ends exactly when its plan is consumed: a
    pass asks for the loop to end if and only if the cursor is past the
    last step, and then it stops the drive and leaves every global as it
    was; the passes that would follow are not run. *)
Theorem variant_loop_ends (i : tick_input) (s : state) :
  (res (MultipleQuantityPicking.tick i s) = Ok false <->
   (length (waypoints s) <= current_waypoint_index s)%nat) /\
  forall rest,
    (length (waypoints s) <= current_waypoint_index s)%nat ->
    MultipleQuantityPicking.run (i :: rest) s =
      mkOut (Ok tt) s
            (stop_events ++ [Printed FinalPosition; Printed AllWaypointsReached]).
Proof.
  assert (Hend : (length (waypoints s) <= current_waypoint_index s)%nat ->
                 MultipleQuantityPicking.tick i s =
                   mkOut (Ok false) s
                     (stop_events ++
                      [Printed FinalPosition; Printed AllWaypointsReached])).
  { intros Hle. unfold MultipleQuantityPicking.tick, stop. exec.
    apply Nat.leb_le in Hle. rewrite Hle. reflexivity. }
  split; [split|].
  - intros Hres.
    destruct (Nat.leb_spec (length (waypoints s)) (current_waypoint_index s))
      as [Hle|Hlt]; [exact Hle|exfalso].
    revert Hres. unfold MultipleQuantityPicking.tick. exec.
    apply Nat.leb_gt in Hlt. rewrite Hlt.
    destruct (waypoints s !! current_waypoint_index s) as [wp|]; exec;
      [|discriminate].
    destruct (is_rotating s).
    + destruct (continue_rotation i s) as [[[]|] s1 es1]; exec; discriminate.
    + destruct (MultipleQuantityPicking.execute_waypoint i wp s) as [[[]|] s1 es1];
        exec; discriminate.
  - intros Hle. rewrite (Hend Hle). reflexivity.
  - intros rest Hle. cbn [MultipleQuantityPicking.run].
    rewrite bind_unfold, (Hend Hle). reflexivity.
Qed.

Lemma variant_loop_ends_witness :
  MultipleQuantityPicking.run [input_at 1; input_at 2] (variant_state 9) =
    mkOut (Ok tt) (variant_state 9)
          (stop_events ++ [Printed FinalPosition; Printed AllWaypointsReached]).
Proof.
  destruct (variant_loop_ends (input_at 1) (variant_state 9)) as (_ & H).
  apply (H [input_at 2]). simpl. lia.
Defined.

(** *** Flag and plan go together *)

Section FlagAndPlan.
Variable backend : nat -> request -> http_result.

Lemma flag_refl s : keeps_flag_and_plan s [] s.
Proof. intros H. exact H. Qed.

Lemma flag_trans s es1 s1 es2 s2 :
  keeps_flag_and_plan s es1 s1 -> keeps_flag_and_plan s1 es2 s2 ->
  keeps_flag_and_plan s (es1 ++ es2) s2.
Proof. intros H1 H2 H. apply H2, H1, H. Qed.

Ltac flag known :=
  obey keeps_flag_and_plan flag_refl flag_trans known ltac:(intros H; exact H).

Lemma flag_http r : obeys keeps_flag_and_plan (http backend r).
Proof. intros s. unfold http. destruct (backend (nreq s) r); intros H; exact H. Qed.

(** Accepting a job sets the flag and installs the plan in one go. *)
Lemma flag_accept quantity :
  obeys keeps_flag_and_plan
    (modify (set_JOB_IN_PROGRESS true) ;;
     modify (set_waypoints (new_waypoints quantity)) ;;
     print JobAccepted).
Proof. intros s _. split; [discriminate|reflexivity]. Qed.

(** Completing a job clears the plan and the flag in one go. *)
Lemma flag_clear :
  obeys keeps_flag_and_plan
    (modify (set_waypoints []) ;;
     modify (set_current_waypoint_index 0) ;;
     modify (set_JOB_IN_PROGRESS false) ;;
     print ReadyForNextJob).
Proof. intros s _. split; [discriminate|intros H; exfalso; apply H; reflexivity]. Qed.

Lemma flag_tick i : obeys keeps_flag_and_plan (tick backend i).
Proof.
  assert (Hloop : forall available_slots indices,
             obeys keeps_flag_and_plan (pick_loop backend available_slots indices)).
  { intros available_slots indices.
    induction indices as [|j rest IH]; simpl; [apply obeys_ret, flag_refl|].
    unfold pick_can_from_slot, grip_drop_and_return, mark_slot_unavailable, stop,
      reset_arm_and_fingers, set_fingers, wait, print.
    flag ltac:(first [ apply flag_http | exact IH ]). }
  unfold tick, poll_if_due, interpret, check_allocated_job, complete_job,
    continue_rotation, execute_waypoint, pick_can_quantity, get_available_slots,
    set_robot_rotation, addRobotLog, updateJobTime, update_job_status,
    update_robot_availability, update_robot_battery, report, print_backend_message,
    stop, advance, rotate_left, rotate_right, drive_forward, drive_backward.
  flag ltac:(first [ apply flag_http | apply flag_accept | apply flag_clear
                   | apply Hloop ]).
Qed.

Lemma flag_run inputs : obeys keeps_flag_and_plan (run backend inputs).
Proof.
  induction inputs as [|i rest IH]; simpl; [apply obeys_ret, flag_refl|].
  apply (obeys_bind _ flag_trans); [apply flag_tick|intros; exact IH].
Qed.

End FlagAndPlan.

(** X19.  Flag and plan go together.  If the job flag is set exactly when
    a plan is present, as it is at start-up, then it is so after any run of
    the main loop, with any backend, whether the run ends or raises: a job
    is accepted by setting the flag and installing its plan together, and
    completed by clearing both.  The controller is never left with the
    flag set and no plan, where it would neither poll nor move. *)
Theorem flag_and_plan_agree (backend : nat -> request -> http_result)
    (inputs : list tick_input) (s : state) :
  flag_matches_plan s ->
  flag_matches_plan (final (run backend inputs s)).
Proof. apply flag_run. Qed.

Lemma flag_and_plan_agree_witness :
  flag_matches_plan
    (final (run backend_assigns_three [input_at 20; input_at 21] empty_state)).
Proof.
  apply (flag_and_plan_agree backend_assigns_three [input_at 20; input_at 21]
           empty_state).
  split; [discriminate|intros H; exfalso; apply H; reflexivity].
Defined.

(** X20.  Without a cached shelf [can_shelf], as when the shelves could
    not be loaded at start-up, a batch with a valid quantity raises at the
    lookup of the shelf: the start of the sequence has been logged, no
    device has been commanded and no slot update sent.  An invalid
    quantity is still only reported. *)
Theorem pick_can_quantity_without_shelf (backend : nat -> request -> http_result)
    (quantity : pyval) (q : Z) (x y : float) (s : state) :
  shelves s !! "can_shelf" = None ->
  as_int quantity = Some q ->
  let o := pick_can_quantity backend quantity x y s in
  if (0 <? q)%Z then
    res o = Raise /\
    final o = set_nreq (S (nreq s)) s /\
    requests_of (emitted o) =
      [PostRobotLog (CURRENT_JOB_ID s) (BATTERY s) "Working" x y
                    (Text "Starting pick can sequence")] /\
    List.filter is_joint_command (emitted o) = [] /\
    List.filter is_wheel_command (emitted o) = []
  else o = mkOut (Ok PNone) s [Printed InvalidQuantity].
Proof.
  intros Hs Hq. cbn zeta. unfold pick_can_quantity. rewrite Hq.
  destruct (Z.ltb_spec 0 q) as [Hpos|Hle].
  - destruct (Z.leb_spec q 0); [lia|].
    exec. rewrite addRobotLog_sent. exec.
    unfold get_available_slots. exec. cbn [shelves set_nreq]. rewrite Hs. exec.
    split; [reflexivity|]. split; [reflexivity|].
    rewrite !app_nil_r. split; [|split].
    + unfold addRobotLog. apply requests_of_report.
      intros. apply requests_of_print_backend_message.
    + revert s Hs. 
      change (forall s, shelves s !! "can_shelf" = None ->
                List.filter is_joint_command
                  (emitted (addRobotLog backend (CURRENT_JOB_ID s) (BATTERY s)
                              "Working" x y (Text "Starting pick can sequence") s))
                = []).
      intros s _.
      generalize (CURRENT_JOB_ID s) (BATTERY s). intros jobId battery. revert s.
      change (never is_joint_command
                (addRobotLog backend jobId battery "Working" x y
                             (Text "Starting pick can sequence"))).
      unfold addRobotLog, report, print_backend_message, print.
      frame_with ltac:(apply never_http; reflexivity).
    + apply wheel_commands_addRobotLog.
  - destruct (Z.leb_spec q 0); [reflexivity|lia].
Qed.

Lemma pick_can_quantity_without_shelf_witness :
  res (pick_can_quantity backend_ok (PInt 2) 0 0 empty_state) = Raise.
Proof.
  destruct (pick_can_quantity_without_shelf backend_ok (PInt 2) 2 0 0 empty_state
              eq_refl eq_refl) as (H & _).
  exact H.
Defined.

(** *** The loop does not raise *)

Lemma new_waypoints_well_formed quantity :
  Forall (fun current_waypoint => step_well_formed current_waypoint = true)
         (new_waypoints quantity).
Proof. repeat constructor. Qed.

(** The moves of the plan built for a job do not depend on the quantity. *)
Lemma new_waypoints_distance_defined i quantity quantity' :
  Forall (fun current_waypoint => distance_defined i current_waypoint = true)
         (new_waypoints quantity) ->
  Forall (fun current_waypoint => distance_defined i current_waypoint = true)
         (new_waypoints quantity').
Proof.
  unfold new_waypoints. rewrite !Forall_cons. intros H.
  repeat split; try apply H; reflexivity.
Qed.

Section Sound.
Variable backend : nat -> request -> http_result.

(** **** The steps of the plan *)

Section Plan.
Variable P : pyval -> bool.
Hypothesis P_new_waypoints :
  forall quantity,
    Forall (fun current_waypoint => P current_waypoint = true)
           (new_waypoints quantity).

Lemma plan_refl s : keeps_plan P s [] s.
Proof. intros H. exact H. Qed.

Lemma plan_trans s es1 s1 es2 s2 :
  keeps_plan P s es1 s1 -> keeps_plan P s1 es2 s2 -> keeps_plan P s (es1 ++ es2) s2.
Proof. intros H1 H2 H. apply H2, H1, H. Qed.

Ltac plan known :=
  obey (keeps_plan P) plan_refl plan_trans known
       ltac:(first [ intros H; exact H
                   | intros _; apply P_new_waypoints
                   | intros _; constructor ]).

Lemma plan_http r : obeys (keeps_plan P) (http backend r).
Proof. intros s. unfold http. destruct (backend (nreq s) r); intros H; exact H. Qed.

Lemma plan_poll_if_due i : obeys (keeps_plan P) (poll_if_due backend i).
Proof.
  unfold poll_if_due, check_allocated_job, addRobotLog, updateJobTime, report,
    print_backend_message, print.
  plan ltac:(apply plan_http).
Qed.

Lemma plan_tick i : obeys (keeps_plan P) (tick backend i).
Proof.
  assert (Hloop : forall available_slots indices,
             obeys (keeps_plan P) (pick_loop backend available_slots indices)).
  { intros available_slots indices.
    induction indices as [|j rest IH]; simpl; [apply obeys_ret, plan_refl|].
    unfold pick_can_from_slot, grip_drop_and_return, mark_slot_unavailable, stop,
      reset_arm_and_fingers, set_fingers, wait, print.
    plan ltac:(first [ apply plan_http | exact IH ]). }
  unfold tick, interpret, complete_job,
    continue_rotation, execute_waypoint, pick_can_quantity, get_available_slots,
    set_robot_rotation, addRobotLog, updateJobTime, update_job_status,
    update_robot_availability, update_robot_battery, report, print_backend_message,
    stop, advance, rotate_left, rotate_right, drive_forward, drive_backward, print.
  plan ltac:(first [ apply plan_http | apply plan_poll_if_due | apply Hloop ]).
Qed.

End Plan.

(** **** The rotation record stays consistent *)

Lemma rotation_refl s : keeps_rotation_consistent s [] s.
Proof. intros H. exact H. Qed.

Lemma rotation_trans s es1 s1 es2 s2 :
  keeps_rotation_consistent s es1 s1 -> keeps_rotation_consistent s1 es2 s2 ->
  keeps_rotation_consistent s (es1 ++ es2) s2.
Proof. intros H1 H2 H. apply H2, H1, H. Qed.

Ltac rotation known :=
  obey keeps_rotation_consistent rotation_refl rotation_trans known
       ltac:(intros H; exact H).

Lemma rotation_http r : obeys keeps_rotation_consistent (http backend r).
Proof. intros s. unfold http. destruct (backend (nreq s) r); intros H; exact H. Qed.

Lemma rotation_pick_loop available_slots indices :
  obeys keeps_rotation_consistent (pick_loop backend available_slots indices).
Proof.
  induction indices as [|j rest IH]; simpl; [apply obeys_ret, rotation_refl|].
  unfold pick_can_from_slot, grip_drop_and_return, mark_slot_unavailable, stop,
    reset_arm_and_fingers, set_fingers, wait, print.
  rotation ltac:(first [ apply rotation_http | exact IH ]).
Qed.

Lemma rotation_poll_if_due i : obeys keeps_rotation_consistent (poll_if_due backend i).
Proof.
  unfold poll_if_due, check_allocated_job, addRobotLog, updateJobTime, report,
    print_backend_message, print.
  rotation ltac:(apply rotation_http).
Qed.

Lemma rotation_complete_job x y :
  obeys keeps_rotation_consistent (complete_job backend x y).
Proof.
  unfold complete_job, addRobotLog, updateJobTime, update_job_status,
    update_robot_availability, update_robot_battery, report, print_backend_message,
    stop, print.
  rotation ltac:(apply rotation_http).
Qed.

Lemma rotation_continue_rotation i :
  obeys keeps_rotation_consistent (continue_rotation i).
Proof.
  intros s. unfold continue_rotation, stop, advance, rotate_left, rotate_right.
  exec. destruct (rotation_start_time s) as [start|]; exec; [|intros H; exact H].
  destruct (float_ge (sim_time i - start) (current_rotation_duration s))
    as [[|]|]; exec; [| |intros H; exact H].
  - destruct (rotation_direction s) as [d|]; exec; [|intros H; exact H].
    intros _ H. discriminate H.
  - destruct (rotation_direction s) as [[|]|]; exec;
      destruct (as_num (current_rotation_duration s)); intros H; exact H.
Qed.

Lemma rotation_execute_waypoint i current_waypoint :
  step_well_formed current_waypoint = true ->
  obeys keeps_rotation_consistent (execute_waypoint backend i current_waypoint).
Proof.
  unfold step_well_formed, execute_waypoint.
  destruct (classify current_waypoint) as [q|rx ry rz ra|tx ty mt|c d|]; intros Hwf.
  - unfold pick_can_quantity, get_available_slots, addRobotLog, report,
      print_backend_message, advance, print.
    rotation ltac:(first [ apply rotation_http | apply rotation_pick_loop ]).
  - unfold set_robot_rotation, stop, advance, print.
    rotation ltac:(fail).
  - unfold addRobotLog, report, print_backend_message, stop, advance,
      drive_forward, drive_backward, print.
    rotation ltac:(apply rotation_http).
  - apply andb_prop in Hwf. destruct Hwf as [Hname Hnum].
    apply bool_decide_eq_true in Hnum.
    intros s. unfold rotate_left, rotate_right. exec.
    destruct (as_num d) as [f|] eqn:Hd; exec; [|intros H; exact H].
    assert (Hset : forall s', as_num (current_rotation_duration
                                        (set_current_rotation_duration d s')) <> None).
    { intros s'. cbn [current_rotation_duration set_current_rotation_duration].
      rewrite Hd. discriminate. }
    destruct (String.eqb c "turn_left"); exec;
      [intros _ _; repeat split; [discriminate|discriminate|apply Hset]|].
    destruct (String.eqb c "turn_right"); exec;
      [intros _ _; repeat split; [discriminate|discriminate|apply Hset]
      |discriminate].
  - unfold advance, print. rotation ltac:(fail).
Qed.

(** **** One pass *)

Lemma poll_if_due_result i s : res (poll_if_due backend i s) = Ok tt.
Proof.
  unfold poll_if_due. exec.
  destruct ((10 <=? now i - last_call s)%float && negb (JOB_IN_PROGRESS s));
    [|reflexivity].
  exec. pose proof (check_allocated_job_result backend s) as H.
  destruct (check_allocated_job backend s) as [r s1 es1]. cbn [res] in H. subst r.
  reflexivity.
Qed.

Lemma tick_split i s :
  tick backend i s =
    let o := interpret backend i (final (poll_if_due backend i s)) in
    mkOut (res o) (final o) (emitted (poll_if_due backend i s) ++ emitted o).
Proof.
  unfold tick. rewrite bind_run, poll_if_due_result. reflexivity.
Qed.

Lemma complete_job_result x y s : res (complete_job backend x y s) = Ok tt.
Proof.
  destruct (py_ne_zero (CURRENT_JOB_ID s)) eqn:Hid.
  - rewrite (complete_job_run backend x y s Hid). reflexivity.
  - rewrite (complete_job_without_id backend x y s Hid). reflexivity.
Qed.

Lemma pick_can_quantity_result quantity x y s :
  answers_slot_updates backend ->
  shelves s !! "can_shelf" <> None ->
  res (pick_can_quantity backend quantity x y s) = Ok PNone.
Proof.
  intros Ha Hs. destruct (shelves s !! "can_shelf") as [slots|] eqn:Hc;
    [|contradiction].
  destruct (as_int quantity) as [q|] eqn:Hq.
  - destruct (Z.ltb_spec 0 q) as [Hpos|Hle].
    + apply (pick_can_quantity_batch backend quantity q x y s slots Hq Hpos Hc Ha).
    + rewrite pick_can_quantity_invalid; [reflexivity|].
      unfold step_picks. rewrite Hq. destruct (Z.ltb_spec 0 q); [lia|reflexivity].
  - rewrite pick_can_quantity_invalid; [reflexivity|].
    unfold step_picks. rewrite Hq. reflexivity.
Qed.

Lemma execute_waypoint_result i current_waypoint s :
  answers_slot_updates backend ->
  step_well_formed current_waypoint = true ->
  distance_defined i current_waypoint = true ->
  shelves s !! "can_shelf" <> None ->
  res (execute_waypoint backend i current_waypoint s) = Ok tt.
Proof.
  intros Ha Hwf Hfit Hs. revert Hwf Hfit.
  unfold step_well_formed, distance_defined, execute_waypoint, within_tolerance.
  destruct (classify current_waypoint) as [q|rx ry rz ra|tx ty mt|c d|];
    intros Hwf Hfit.
  - unfold advance. exec. rewrite addRobotLog_sent. exec.
    pose proof (pick_can_quantity_result q (fst (gps i)) (snd (gps i))
                  (set_nreq (S (nreq s)) s) Ha Hs) as H.
    destruct (pick_can_quantity backend q _ _ _) as [r s2 es2].
    cbn [res] in H. subst r. reflexivity.
  - apply bool_decide_eq_true in Hwf.
    unfold set_robot_rotation, stop, advance. exec.
    destruct (as_num ra); [|contradiction]. exec.
    destruct (rotation_field_ok i); reflexivity.
  - apply andb_prop in Hwf. destruct Hwf as [Hx Hy].
    apply bool_decide_eq_true in Hx, Hy.
    unfold stop, advance, drive_forward, drive_backward. exec.
    destruct (as_num tx) as [x|]; [|contradiction]. exec.
    destruct (as_num ty) as [y|]; [|contradiction]. exec.
    destruct (calculate_distance (fst (gps i), snd (gps i)) (x, y)) as [distance|];
      [|discriminate].
    exec. destruct (distance <? 0.1)%float.
    + exec. rewrite addRobotLog_sent. reflexivity.
    + destruct (py_eq_str mt "forward"); [reflexivity|].
      destruct (py_eq_str mt "backward"); reflexivity.
  - apply andb_prop in Hwf. destruct Hwf as [_ Hd].
    apply bool_decide_eq_true in Hd.
    unfold rotate_left, rotate_right. exec.
    destruct (as_num d); [|contradiction]. exec.
    destruct (String.eqb c "turn_left"); [reflexivity|].
    destruct (String.eqb c "turn_right"); reflexivity.
  - reflexivity.
Qed.

Lemma continue_rotation_result i s :
  rotation_consistent s -> is_rotating s = true ->
  res (continue_rotation i s) = Ok tt.
Proof.
  intros Hrot Hon. destruct (Hrot Hon) as (Hstart & Hdir & Hnum).
  unfold continue_rotation, stop, advance, rotate_left, rotate_right. exec.
  destruct (rotation_start_time s) as [start|]; [|contradiction]. exec.
  destruct (as_num (current_rotation_duration s)) as [t|] eqn:Ht; [|contradiction].
  destruct (float_ge_defined (sim_time i - start) _ t Ht) as [b Hb]. rewrite Hb.
  exec. destruct (rotation_direction s) as [d|]; [|contradiction].
  destruct b; [reflexivity|]. destruct d; reflexivity.
Qed.

Lemma interpret_sound i s :
  answers_slot_updates backend ->
  sound s ->
  Forall (fun current_waypoint => distance_defined i current_waypoint = true)
         (waypoints s) ->
  res (interpret backend i s) = Ok tt /\
  rotation_consistent (final (interpret backend i s)).
Proof.
  intros Ha (Hplan & Hrot & Hs) Hfit.
  destruct (waypoints s) as [|wp0 wps] eqn:Hw.
  { rewrite (interpret_idle backend i s Hw). split; [reflexivity|exact Hrot]. }
  rewrite <- Hw in Hfit.
  destruct (Nat.leb_spec (length (waypoints s)) (current_waypoint_index s))
    as [Hle|Hlt].
  { assert (Hc : plan_consumed s).
    { split; [rewrite Hw; simpl; lia|exact Hle]. }
    rewrite (interpret_consumed backend i s Hc).
    split; [apply complete_job_result|].
    apply rotation_complete_job. exact Hrot. }
  destruct (waypoints s !! current_waypoint_index s) as [wp|] eqn:Hwp.
  2:{ apply lookup_ge_None in Hwp. lia. }
  assert (Hin : In wp (waypoints s)).
  { apply list_elem_of_In. apply list_elem_of_lookup.
    exists (current_waypoint_index s). exact Hwp. }
  assert (Hwf : step_well_formed wp = true).
  { unfold plan_well_formed in Hplan. rewrite List.Forall_forall in Hplan.
    apply Hplan. exact Hin. }
  assert (Hd : distance_defined i wp = true).
  { rewrite List.Forall_forall in Hfit. apply Hfit. exact Hin. }
  rewrite (interpret_step backend i s wp Hwp).
  destruct (is_rotating s) eqn:Hon.
  - split; [apply continue_rotation_result; assumption|].
    apply rotation_continue_rotation. exact Hrot.
  - split; [apply execute_waypoint_result; assumption|].
    apply rotation_execute_waypoint; assumption.
Qed.

Lemma tick_sound i s :
  answers_slot_updates backend ->
  sound s ->
  Forall (fun current_waypoint => distance_defined i current_waypoint = true)
         (waypoints s ++ new_waypoints PNone) ->
  res (tick backend i s) = Ok tt /\ sound (final (tick backend i s)).
Proof.
  intros Ha Hsound Hfit.
  assert (Hplan' : plan_well_formed (final (tick backend i s))).
  { apply (plan_tick step_well_formed new_waypoints_well_formed). apply Hsound. }
  assert (Hshelf' : shelves (final (tick backend i s)) !! "can_shelf" <> None).
  { pose proof (cache_tick backend i s "can_shelf") as H.
    destruct Hsound as (_ & _ & Hs).
    destruct (shelves s !! "can_shelf"); [|contradiction].
    destruct (shelves (final (tick backend i s)) !! "can_shelf");
      [discriminate|contradiction]. }
  apply Forall_app in Hfit. destruct Hfit as [Hfit Hnew].
  assert (Hnew' : forall quantity,
             Forall (fun current_waypoint => distance_defined i current_waypoint = true)
                    (new_waypoints quantity)).
  { intros quantity. apply (new_waypoints_distance_defined i PNone). exact Hnew. }
  assert (Hmid : sound (final (poll_if_due backend i s))).
  { destruct Hsound as (Hp & Hr & Hs). split; [|split].
    - apply (plan_poll_if_due step_well_formed new_waypoints_well_formed). exact Hp.
    - apply rotation_poll_if_due. exact Hr.
    - assert (H : keeps shelves (poll_if_due backend i)).
      { unfold poll_if_due, check_allocated_job, print.
        frame_with ltac:(first [ apply keeps_http; reflexivity
                               | apply keeps_addRobotLog; reflexivity
                               | apply keeps_updateJobTime; reflexivity ]). }
      rewrite H. exact Hs. }
  assert (Hfit' : Forall (fun current_waypoint =>
                            distance_defined i current_waypoint = true)
                         (waypoints (final (poll_if_due backend i s)))).
  { apply (plan_poll_if_due (distance_defined i) Hnew'). exact Hfit. }
  rewrite tick_split. cbn zeta. cbn [res final].
  destruct (interpret_sound i (final (poll_if_due backend i s)) Ha Hmid Hfit')
    as (Hres & Hrot').
  split; [exact Hres|]. rewrite tick_split in Hplan', Hshelf'.
  cbn zeta in Hplan', Hshelf'. cbn [final] in Hplan', Hshelf'.
  split; [exact Hplan'|]. split; [exact Hrot'|exact Hshelf'].
Qed.

Lemma run_sound inputs :
  answers_slot_updates backend ->
  forall s, sound s -> readings_fit inputs s ->
    res (run backend inputs s) = Ok tt /\ sound (final (run backend inputs s)).
Proof.
  intros Ha. induction inputs as [|i rest IH]; intros s Hs Hfit;
    [split; [reflexivity|exact Hs]|].
  unfold readings_fit in Hfit. apply Forall_cons in Hfit. destruct Hfit as [Hi Hrest].
  cbn [run]. rewrite bind_run.
  destruct (tick_sound i s Ha Hs Hi) as (Hres & Hs1). rewrite Hres.
  assert (Hfit1 : readings_fit rest (final (tick backend i s))).
  { unfold readings_fit. rewrite List.Forall_forall in Hrest.
    apply List.Forall_forall. intros j Hj. specialize (Hrest j Hj).
    apply Forall_app in Hrest. destruct Hrest as [Hplan Hnew].
    apply Forall_app. split; [|exact Hnew].
    apply (plan_tick (distance_defined j)); [|exact Hplan].
    intros quantity. apply (new_waypoints_distance_defined j PNone). exact Hnew. }
  destruct (IH _ Hs1 Hfit1) as (Hres' & Hs'). cbn [res final]. split; assumption.
Qed.

End Sound.

(** X21.  The loop does not raise.  From globals as the controller's own
    code leaves them (a plan of well-formed steps, start time, direction
    and a numeric duration recorded while a rotation is under way, the
    shelf [can_shelf] in the cache), with a backend that answers every
    slot update, and with position readings that keep the distance to
    every target of the plan within the doubles, every run of the main
    loop returns, however the backend answers anything else, and ends in
    such globals again.  Every plan the controller builds for a job is
    well formed, whatever the quantity. *)
Theorem run_never_raises (backend : nat -> request -> http_result)
    (inputs : list tick_input) (s : state) :
  answers_slot_updates backend ->
  sound s ->
  readings_fit inputs s ->
  res (run backend inputs s) = Ok tt /\
  sound (final (run backend inputs s)) /\
  forall quantity, plan_well_formed (set_waypoints (new_waypoints quantity) s).
Proof.
  intros Ha Hs Hfit. destruct (run_sound backend inputs Ha s Hs Hfit) as (Hres & Hs').
  split; [exact Hres|]. split; [exact Hs'|].
  intros quantity. apply new_waypoints_well_formed.
Qed.

Lemma run_never_raises_witness :
  res (run backend_assigns_three
           [input_at 20; input_near 21 1.68 (-3.06); input_at 22]
           (with_slots [mkSlot 2 true; mkSlot 4 true])) = Ok tt.
Proof.
  destruct (run_never_raises backend_assigns_three
              [input_at 20; input_near 21 1.68 (-3.06); input_at 22]
              (with_slots [mkSlot 2 true; mkSlot 4 true])) as (H & _).
  - intros n id. discriminate.
  - split; [constructor|]. split; [discriminate|].
    unfold with_slots. cbn [shelves set_shelves]. rewrite lookup_singleton_eq.
    discriminate.
  - repeat constructor.
  - exact H.
Defined.
